(** * TichuMovementService: a shallow embedding of
      web/src/movements/movement-service.js

    The service is the browser-side client of the movement and scoring
    API.  It keeps two caches (the movement store and the tournament
    store), a cache of in-flight movement requests, and a family of
    parsers that turn the server's JSON into model objects.

    Conventions of the embedding:
    - JSON values are an inductive type; a JSON number is an exact
      rational (the parsers test [Math.floor(x) !== x], so integers alone
      would not do);
    - pair numbers, hand numbers and table numbers that the service
      receives as arguments or keeps in identifiers are [Z];
    - a function that can [throw] returns in [Exc]; a function that can
      throw after it has written to the movement store threads the store
      through [St], and a throw keeps the writes made before it;
    - an HTTP exchange is split in two: the request the service issues,
      and the handler that runs when the exchange settles, which takes
      the outcome as an argument. *)

From Stdlib Require Import ZArith QArith Qround String Ascii List Bool Lia.
From Stdlib Require Import Permutation Sorting.Sorted.
From stdpp Require Import base option gmap strings pretty list sorting.

Set Warnings "-register-all".
Local Open Scope string_scope.
Local Open Scope Z_scope.

(** ** JavaScript values as the parsers see them *)

Inductive JSValue : Type :=
| JUndefined
| JNull
| JBool (b : bool)
| JNum (q : Q)
| JStr (s : string)
| JArr (items : list JSValue)
| JObj (fields : list (string * JSValue)).

(** [!v]: undefined, null, false, 0 and the empty string are falsy. *)
Definition truthy (v : JSValue) : bool :=
  match v with
  | JUndefined | JNull => false
  | JBool b => b
  | JNum q => negb (Qeq_bool q 0)
  | JStr s => negb (String.eqb s "")
  | JArr _ | JObj _ => true
  end.

(** Exceptions: what a [throw] carries, and a computation that returns or
    throws. *)
Inductive Thrown : Type :=
| Error (message : string)
| TypeError (message : string).

(** [String(ex)] for a thrown error. *)
Definition Thrown_toString (ex : Thrown) : string :=
  match ex with
  | Error m => "Error: " +:+ m
  | TypeError m => "TypeError: " +:+ m
  end.

Inductive Exc (A : Type) : Type :=
| Return (a : A)
| Throw (ex : Thrown).
Arguments Return {A} a.
Arguments Throw {A} ex.

Definition bind {A B} (m : Exc A) (k : A -> Exc B) : Exc B :=
  match m with
  | Return a => k a
  | Throw ex => Throw ex
  end.

Notation "x <- m ;; k" := (bind m (fun x => k))
  (at level 100, m at next level, right associativity).

(** [Array.prototype.map] with a callback that may throw: the elements are
    visited from the left and the first throw ends the loop. *)
Fixpoint Array_map {A B} (f : A -> Exc B) (l : list A) : Exc (list B) :=
  match l with
  | [] => Return []
  | x :: rest =>
      y <- f x ;;
      ys <- Array_map f rest ;;
      Return (y :: ys)
  end.

(** First binding of a name in the field list of an object. *)
Fixpoint field (k : string) (fields : list (string * JSValue)) : option JSValue :=
  match fields with
  | [] => None
  | (k', v) :: rest => if String.eqb k' k then Some v else field k rest
  end.

(** [v[k]] for the property names this service reads (never an array index
    or a built-in such as [length]): reading a property of undefined or
    null is a TypeError, a missing property is undefined. *)
Definition getProp (v : JSValue) (k : string) : Exc JSValue :=
  match v with
  | JUndefined | JNull => Throw (TypeError ("cannot read property " +:+ k))
  | JObj fields => Return (default JUndefined (field k fields))
  | _ => Return JUndefined
  end.

(** ** ServiceHelpers.assertType *)

Definition typeName (v : JSValue) : string :=
  match v with
  | JUndefined => "undefined"
  | JNull => "null"
  | JBool _ => "boolean"
  | JNum _ => "number"
  | JStr _ => "string"
  | JArr _ => "array"
  | JObj _ => "object"
  end.

(** Splitting a type list such as ["number|string"] at the bars. *)
Fixpoint splitBar (acc : string) (s : string) : list string :=
  match s with
  | EmptyString => [acc]
  | String c rest =>
      if Ascii.eqb c "|"%char then acc :: splitBar "" rest
      else splitBar (acc +:+ String c "") rest
  end.

(** Modelled from the spec: ServiceHelpers.assertType is not under src/.
    Section 4.2 and section 7 (a malformed field is a validation error,
    reported at once) and the calls made in movement-service.js fix its
    contract: [assertType(context, value, types, optional)] hands [value]
    back when its type is one of the bar-separated [types] ("array" for an
    array, else the [typeof] name), hands back a missing value (undefined
    or null) when [optional] is set, and throws an [Error] that starts
    with [context] in every other case. *)
Definition assertType (context : string) (value : JSValue) (types : string)
    (optional : bool) : Exc JSValue :=
  match value with
  | JUndefined | JNull =>
      if optional then Return value
      else Throw (Error (context +:+ " was not present"))
  | _ =>
      if existsb (String.eqb (typeName value)) (splitBar "" types)
      then Return value
      else Throw (Error (context +:+ " was not of type " +:+ types))
  end.

(** ** Host functions *)

(** [Number.prototype.toString] on an integer: its decimal digits, with a
    minus sign when negative. *)
Definition Number_toString (n : Z) : string := pretty n.

(** [encodeURIComponent] on a string held as its UTF-8 bytes: letters,
    digits and [- _ . ! ~ * ' ( )] stay, every other byte becomes a percent
    sign and two upper-case hexadecimal digits. *)
Definition unreserved (c : ascii) : bool :=
  let n := N_of_ascii c in
  ((65 <=? n) && (n <=? 90))%N || ((97 <=? n) && (n <=? 122))%N
  || ((48 <=? n) && (n <=? 57))%N
  || existsb (N.eqb n) [45; 95; 46; 33; 126; 42; 39; 40; 41]%N.

Definition hexDigit (d : N) : ascii :=
  ascii_of_N (if (d <? 10)%N then 48 + d else 55 + d)%N.

Fixpoint encodeURIComponent (s : string) : string :=
  match s with
  | EmptyString => EmptyString
  | String c rest =>
      if unreserved c then String c (encodeURIComponent rest)
      else
        let n := N_of_ascii c in
        String "%"%char (String (hexDigit (n / 16)) (String (hexDigit (n mod 16))
          (encodeURIComponent rest)))
  end.

(** [x <= 0 || Math.floor(x) !== x]. *)
Definition notPositiveInteger (x : Q) : bool :=
  Qle_bool x 0 || negb (Qeq_bool (inject_Z (Qfloor x)) x).

(** ** Model objects of the [tichu] namespace

    The model classes are not under src/.  Their fields are those of
    section 3 of the specification and those the service reads and
    writes; a constructor leaves unset what the service is to fill in. *)

Module Call.
Record t : Type := mk { side : string; call : string }.
End Call.

Module HandScore.
Record t : Type := mk {
  calls : list Call.t;
  northSouthScore : JSValue;
  eastWestScore : JSValue;
  notes : option string
}.
End HandScore.

Module RpcError.
Record t : Type := mk {
  redirectToLogin : bool;
  error : string;
  detail : string;
  updatedState : bool
}.
(** Modelled from the spec: [new tichu.RpcError()], not under src/; no
    flag is set until the service sets it. *)
Definition new : t :=
  {| redirectToLogin := false; error := EmptyString; detail := EmptyString;
     updatedState := false |}.
End RpcError.

Module Response.
Record t : Type := mk { status : Z; statusText : string; data : JSValue }.
End Response.

Module Player.
Record t : Type := mk { name : JSValue; email : JSValue }.
End Player.

Module TournamentPair.
Record t : Type := mk { pairNo : Z; players : list Player.t }.
(** Modelled from the spec: [new tichu.TournamentPair(pairNo)], not under
    src/; section 3 gives a pair its number and up to two players. *)
Definition new (n : Z) : t := {| pairNo := n; players := [] |}.
Definition setPlayers (ps : list Player.t) (p : t) : t :=
  {| pairNo := pairNo p; players := ps |}.
Definition setPairNo (n : Z) (p : t) : t :=
  {| pairNo := n; players := players p |}.
End TournamentPair.

(** The key under which the movement store keeps a hand:
    (tournamentId, nsPair, ewPair, handNo). *)
Definition HandKey : Type := string * Z * Z * Z.

Module Hand.
Record t : Type := mk {
  northSouthPair : TournamentPair.t;
  eastWestPair : TournamentPair.t;
  handNo : Z;
  score : option HandScore.t
}.
(** Modelled from the spec: [new tichu.Hand(nsPair, ewPair, handNo)], not
    under src/; section 3 has a hand without a result until the first
    submission. *)
Definition new (ns ew h : Z) : t :=
  {| northSouthPair := TournamentPair.new ns; eastWestPair := TournamentPair.new ew;
     handNo := h; score := None |}.
Definition setScore (s : option HandScore.t) (h : t) : t :=
  {| northSouthPair := northSouthPair h; eastWestPair := eastWestPair h;
     handNo := handNo h; score := s |}.
Definition setPairs (ns ew : TournamentPair.t) (h : t) : t :=
  {| northSouthPair := ns; eastWestPair := ew; handNo := handNo h; score := score h |}.
End Hand.

Module MovementRound.
(** [hands] holds references to the hands of the movement store (their
    keys): the store owns the [Hand] objects and the rounds alias them. *)
Record t : Type := mk {
  roundNo : Q;
  isSitOut : bool;
  opponent : option TournamentPair.t;
  position : option string;
  table : option string;
  hands : list HandKey;
  isRelayTable : bool
}.
(** Modelled from the spec: [new tichu.MovementRound()], not under src/,
    with the fields of section 3 and nothing filled in. *)
Definition new : t :=
  {| roundNo := 0; isSitOut := false; opponent := None; position := None;
     table := None; hands := []; isRelayTable := false |}.
Definition setRoundNo (x : Q) (r : t) : t :=
  mk x (isSitOut r) (opponent r) (position r) (table r) (hands r) (isRelayTable r).
Definition setIsSitOut (x : bool) (r : t) : t :=
  mk (roundNo r) x (opponent r) (position r) (table r) (hands r) (isRelayTable r).
Definition setOpponent (x : TournamentPair.t) (r : t) : t :=
  mk (roundNo r) (isSitOut r) (Some x) (position r) (table r) (hands r) (isRelayTable r).
Definition setPosition (x : string) (r : t) : t :=
  mk (roundNo r) (isSitOut r) (opponent r) (Some x) (table r) (hands r) (isRelayTable r).
Definition setTable (x : string) (r : t) : t :=
  mk (roundNo r) (isSitOut r) (opponent r) (position r) (Some x) (hands r) (isRelayTable r).
Definition setHands (x : list HandKey) (r : t) : t :=
  mk (roundNo r) (isSitOut r) (opponent r) (position r) (table r) x (isRelayTable r).
Definition setIsRelayTable (x : bool) (r : t) : t :=
  mk (roundNo r) (isSitOut r) (opponent r) (position r) (table r) (hands r) x.
(** Modelled from the spec: [round.side] on a round made by
    [new tichu.MovementRound()].  Section 3 gives a MovementRound no [side]
    property and the service never assigns one, so the read yields
    undefined. *)
Definition side (r : t) : JSValue := JUndefined.
End MovementRound.

Module Movement.
Record t : Type := mk {
  tournamentId : string;
  tournamentName : option string;
  pair : TournamentPair.t;
  rounds : list MovementRound.t;
  allowScoreOverwrites : bool
}.
(** Modelled from the spec: the movement the store makes for a pair that
    has none yet (section 4.6), before [_parseMovement] fills it in. *)
Definition new (tournament : string) (pairNo : Z) : t :=
  {| tournamentId := tournament; tournamentName := None;
     pair := TournamentPair.new pairNo; rounds := []; allowScoreOverwrites := false |}.
Definition setTournamentName (x : string) (m : t) : t :=
  mk (tournamentId m) (Some x) (pair m) (rounds m) (allowScoreOverwrites m).
Definition setPair (x : TournamentPair.t) (m : t) : t :=
  mk (tournamentId m) (tournamentName m) x (rounds m) (allowScoreOverwrites m).
Definition setRounds (x : list MovementRound.t) (m : t) : t :=
  mk (tournamentId m) (tournamentName m) (pair m) x (allowScoreOverwrites m).
Definition setAllowScoreOverwrites (x : bool) (m : t) : t :=
  mk (tournamentId m) (tournamentName m) (pair m) (rounds m) x.
End Movement.

Module ChangeLog.
Record t (C : Type) : Type := mk { changes : list C }.
Arguments mk {C} changes.
Arguments changes {C} _.
End ChangeLog.

Module Change.
Record t : Type := mk {
  change : option HandScore.t;
  changedBy : JSValue;
  timestamp : string
}.
End Change.

Module HandIdentifier.
Record t : Type := mk {
  tableNo : Z;
  handNo : Z;
  northSouthPair : TournamentPair.t;
  eastWestPair : TournamentPair.t
}.
End HandIdentifier.

Module RoundStatus.
Record t : Type := mk {
  roundNo : Z;
  unscoredHands : list HandIdentifier.t;
  scoredHands : list HandIdentifier.t
}.
End RoundStatus.

Module TournamentStatus.
Record t : Type := mk { roundStatus : list RoundStatus.t }.
End TournamentStatus.

(** ** TichuMovementStore *)

Module MovementStore.
Record t : Type := mk {
  hands : gmap HandKey Hand.t;
  movements : gmap (string * Z) Movement.t
}.

Definition empty : t := {| hands := ∅; movements := ∅ |}.

(** Modelled from the spec: [hasMovement], of the same store. *)
Definition hasMovement (tournament : string) (pairNo : Z) (s : t) : bool :=
  bool_decide (is_Some (movements s !! (tournament, pairNo))).

(** Modelled from the spec: TichuMovementStore is not under src/.
    Section 3 keys a hand result by (boardNo, nsPair, ewPair) within a
    tournament, with at most one result per key, so [getOrCreateHand]
    answers with the one hand kept under the key and makes an unscored
    hand when there is none yet.  The hand it hands out is the stored
    object: the model returns the store with the hand in it, and callers
    write to the hand through [updateHand]. *)
Definition getOrCreateHand (tournament : string) (ns ew h : Z) (s : t) : Hand.t * t :=
  match hands s !! (tournament, ns, ew, h) with
  | Some hand => (hand, s)
  | None =>
      let hand := Hand.new ns ew h in
      (hand, {| hands := <[(tournament, ns, ew, h) := hand]> (hands s);
                movements := movements s |})
  end.

Definition updateHand (k : HandKey) (f : Hand.t -> Hand.t) (s : t) : t :=
  {| hands := alter f k (hands s); movements := movements s |}.

(** Modelled from the spec: same store, for the movement of one pair
    (section 4.6, [forPair(tournamentId, pairNo)]). *)
Definition getOrCreateMovement (tournament : string) (pairNo : Z) (s : t)
    : Movement.t * t :=
  match movements s !! (tournament, pairNo) with
  | Some m => (m, s)
  | None =>
      let m := Movement.new tournament pairNo in
      (m, {| hands := hands s;
             movements := <[(tournament, pairNo) := m]> (movements s) |})
  end.

Definition updateMovement (tournament : string) (pairNo : Z)
    (f : Movement.t -> Movement.t) (s : t) : t :=
  {| hands := hands s; movements := alter f (tournament, pairNo) (movements s) |}.
End MovementStore.

(** ** Typed readings of [assertType]

    A required field of one type: [assertType] decides, the match only
    names the payload (its last branch is never taken). *)
Definition assertNumber (context : string) (value : JSValue) : Exc Q :=
  v <- assertType context value "number" false ;;
  match v with
  | JNum q => Return q
  | _ => Throw (Error (context +:+ " was not of type number"))
  end.

Definition assertString (context : string) (value : JSValue) : Exc string :=
  v <- assertType context value "string" false ;;
  match v with
  | JStr s => Return s
  | _ => Throw (Error (context +:+ " was not of type string"))
  end.

Definition assertBoolean (context : string) (value : JSValue) : Exc bool :=
  v <- assertType context value "boolean" false ;;
  match v with
  | JBool b => Return b
  | _ => Throw (Error (context +:+ " was not of type boolean"))
  end.

Definition assertArray (context : string) (value : JSValue) : Exc (list JSValue) :=
  v <- assertType context value "array" false ;;
  match v with
  | JArr l => Return l
  | _ => Throw (Error (context +:+ " was not of type array"))
  end.

(** [v || null]. *)
Definition orNull (v : JSValue) : JSValue := if truthy v then v else JNull.

(** [v === null]. *)
Definition isNull (v : JSValue) : bool :=
  match v with JNull => true | _ => false end.

(** [v === null || v === undefined]. *)
Definition isNullOrUndefined (v : JSValue) : bool :=
  match v with JNull | JUndefined => true | _ => false end.

(** ** Code that writes to the movement store and may throw *)

Definition St (A : Type) : Type := MovementStore.t -> Exc A * MovementStore.t.

Definition ret {A} (a : A) : St A := fun s => (Return a, s).
Definition throw {A} (ex : Thrown) : St A := fun s => (Throw ex, s).
Definition lift {A} (m : Exc A) : St A := fun s => (m, s).
Definition bindSt {A B} (m : St A) (k : A -> St B) : St B :=
  fun s => match m s with
           | (Return a, s') => k a s'
           | (Throw ex, s') => (Throw ex, s')
           end.

Notation "x <~ m ;; k" := (bindSt m (fun x => k))
  (at level 100, m at next level, right associativity).

(** [Array.prototype.map] with a callback [(element, index)] that writes to
    the store and may throw. *)
Fixpoint Array_mapi {A B} (f : A -> nat -> St B) (l : list A) (i : nat) : St (list B) :=
  match l with
  | [] => ret []
  | x :: rest =>
      y <~ f x i ;;
      ys <~ Array_mapi f rest (S i) ;;
      ret (y :: ys)
  end.

(** [s[s.length - 1]] and [s.substring(0, s.length - 1)]. *)
Definition lastChar (s : string) : string :=
  substring (String.length s - 1) 1 s.
Definition allButLast (s : string) : string :=
  substring 0 (String.length s - 1) s.

(** The parts of the repository that the service calls and that are not
    under src/: the [tichu] enumerations and validity tests, the error
    that ServiceHelpers.handleErrorIn builds, and the rendering of a time
    stamp in the browser's time zone. *)
Class Collaborators : Type := {
  (** [tichu.Position], as the list of its (key, value) entries in key order. *)
  Position : list (string * string);
  (** [tichu.isValidCall]. *)
  isValidCall : string -> bool;
  (** [tichu.PairPosition.NORTH_SOUTH]. *)
  NORTH_SOUTH : string;
  (** [tichu.isValidPairPosition]. *)
  isValidPairPosition : JSValue -> bool;
  (** The [RpcError] that [ServiceHelpers.handleErrorIn($q, $log, path,
      redirectToLogin)] builds for a failed response. *)
  rpcErrorFor : string -> bool -> Response.t -> RpcError.t;
  (** The local-time rendering of [timestamp_sec] in [_parseChange]
      ([new Date(parseInt(s * 1000))] and its getters). *)
  formatTimestamp : string -> string
}.

Section Parsers.
Context `{Collaborators}.

(** The callback that [_parseHandScore] maps over the seats (lines
    285-298): the call of one seat, or null when the seat made none. *)
Definition parseCall (handContext : string) (callData : JSValue)
    (positionEntry : string * string) : Exc (option Call.t) :=
  let position := snd positionEntry in
  v <- getProp callData position ;;
  call <- assertType (handContext +:+ " " +:+ position +:+ " call") v "string" true ;;
  match call with
  | JStr s =>
      if negb (truthy call) then Return None
      else if negb (isValidCall s)
      then Throw (Error (handContext +:+ " " +:+ position +:+ " call was not a valid call"))
      else Return (Some {| Call.side := position; Call.call := s |})
  | _ => Return None
  end.

(** [_parseHandScore] (lines 278-312). *)
Definition _parseHandScore (handContext : string) (scoreData : JSValue)
    : Exc (option HandScore.t) :=
  present <- assertType (handContext +:+ " score") scoreData "object" true ;;
  if negb (truthy present) then Return None
  else
    callsField <- getProp scoreData "calls" ;;
    callData <- assertType (handContext +:+ " calls") callsField "object" true ;;
    calls <- (if truthy callData
              then
                entries <- Array_map (parseCall handContext callData) Position ;;
                Return (omap id entries)
              else Return []) ;;
    nsField <- getProp scoreData "ns_score" ;;
    ns <- assertType (handContext +:+ " north/south score") nsField "number|string" false ;;
    ewField <- getProp scoreData "ew_score" ;;
    ew <- assertType (handContext +:+ " east/west score") ewField "number|string" false ;;
    notesField <- getProp scoreData "notes" ;;
    notes <- assertType (handContext +:+ " scoring notes") notesField "string" true ;;
    Return (Some {| HandScore.calls := calls;
                    HandScore.northSouthScore := ns;
                    HandScore.eastWestScore := ew;
                    HandScore.notes :=
                      match notes with
                      | JStr s => if truthy notes then Some s else None
                      | _ => None
                      end |}).

End Parsers.

Section MovementParsers.
Context `{Collaborators}.

(** [_parseHand] (lines 325-339). *)
Definition _parseHand (tournamentId : string) (nsPair ewPair : TournamentPair.t)
    (roundContext : string) (handData : JSValue) (handIndex : nat) : St HandKey :=
  let handContext :=
    roundContext +:+ " hand[" +:+ Number_toString (Z.of_nat handIndex) +:+ "]" in
  _ <~ lift (assertType handContext handData "object" false) ;;
  handNo <~ lift (f <- getProp handData "hand_no" ;;
                  assertNumber (handContext +:+ " hand number") f) ;;
  if notPositiveInteger handNo
  then throw (Error (handContext +:+ " hand number was not a positive integer"))
  else
    score <~ lift (f <- getProp handData "score" ;; _parseHandScore handContext f) ;;
    fun store =>
      let key : HandKey :=
        (tournamentId, TournamentPair.pairNo nsPair, TournamentPair.pairNo ewPair,
         Qfloor handNo) in
      let store1 :=
        snd (MovementStore.getOrCreateHand tournamentId (TournamentPair.pairNo nsPair)
               (TournamentPair.pairNo ewPair) (Qfloor handNo) store) in
      (Return key,
       MovementStore.updateHand key
         (fun hand => Hand.setScore score (Hand.setPairs nsPair ewPair hand)) store1).

(** [_parseMovementRound] (lines 350-391).  [round.opponent] is built once
    the guard on the opponent number has passed: a throw drops the local
    [round], and the guard admits integers only, so the pair number is kept
    as the integer [Qfloor] of the JSON number. *)
Definition _parseMovementRound (tournamentId : string) (pair : TournamentPair.t)
    (movementRound : JSValue) (index : nat) : St MovementRound.t :=
  let context := "movement round[" +:+ Number_toString (Z.of_nat index) +:+ "]" in
  _ <~ lift (assertType context movementRound "object" false) ;;
  roundNo <~ lift (f <- getProp movementRound "round" ;;
                   assertNumber (context +:+ " round") f) ;;
  let round := MovementRound.setRoundNo roundNo MovementRound.new in
  opponentField <~ lift (getProp movementRound "opponent") ;;
  if isNullOrUndefined opponentField
  then ret (MovementRound.setIsSitOut true round)
  else
    let round := MovementRound.setIsSitOut false round in
    opponentNo <~ lift (assertNumber (context +:+ " opponent") opponentField) ;;
    if notPositiveInteger opponentNo
    then throw (Error (context +:+ " opponent was not a positive integer"))
    else
      opponent_names <~ lift (f <- getProp movementRound "opponent_names" ;;
                              assertArray (context +:+ " opponent names") f) ;;
      let opponent :=
        TournamentPair.setPlayers
          (map (fun n => {| Player.name := n; Player.email := JUndefined |}) opponent_names)
          (TournamentPair.new (Qfloor opponentNo)) in
      let round := MovementRound.setOpponent opponent round in
      position <~ lift (f <- getProp movementRound "position" ;;
                        assertString (context +:+ " position") f) ;;
      if (String.length position <=? 1)%nat
      then throw (Error (context +:+ " position was too short"))
      else
        let round := MovementRound.setPosition (lastChar position) round in
        let round := MovementRound.setTable (allButLast position) round in
        if negb (isValidPairPosition (MovementRound.side round))
        then throw (Error (context +:+ " position didn't end in a valid side"))
        else
          relay <~ lift (f <- getProp movementRound "relay_table" ;;
                         assertBoolean (context +:+ " relay table") f) ;;
          let round := MovementRound.setIsRelayTable relay round in
          let '(nsPair, ewPair) :=
            if bool_decide (MovementRound.position round = Some NORTH_SOUTH)
            then (pair, opponent) else (opponent, pair) in
          handsData <~ lift (f <- getProp movementRound "hands" ;;
                             assertArray (context +:+ " hands") f) ;;
          hands <~ Array_mapi (_parseHand tournamentId nsPair ewPair context) handsData 0 ;;
          ret (MovementRound.setHands hands round).

(** [_parseMovement] (lines 401-426).  The movement object lives in the
    store; every assignment to it is a write to the store, kept when a
    later step throws. *)
Definition parsePlayer (playerData : JSValue) (index : nat) : Exc Player.t :=
  let context := "players[" +:+ Number_toString (Z.of_nat index) +:+ "]" in
  nameField <- getProp playerData "name" ;;
  name <- assertType (context +:+ " name") nameField "string" true ;;
  emailField <- getProp playerData "email" ;;
  email <- assertType (context +:+ " email") emailField "string" true ;;
  Return {| Player.name := orNull name; Player.email := orNull email |}.

Definition _parseMovement (tournamentId : string) (pairNo : Z) (data : JSValue)
    : St Movement.t :=
  _ <~ lift (assertType "movement data" data "object" false) ;;
  name <~ lift (f <- getProp data "name" ;; assertString "tournament name" f) ;;
  playersField <~ lift (f <- getProp data "players" ;;
                        assertType "player list" f "array" true) ;;
  players <~ (match playersField with
              | JArr l =>
                  ps <~ Array_mapi (fun p i => lift (parsePlayer p i)) l 0 ;;
                  ret (Some ps)
              | _ => ret None
              end) ;;
  roundList <~ lift (f <- getProp data "movement" ;; assertArray "round list" f) ;;
  _ <~ (fun store =>
          (Return tt, snd (MovementStore.getOrCreateMovement tournamentId pairNo store))) ;;
  let write (f : Movement.t -> Movement.t) : St unit :=
    fun store => (Return tt, MovementStore.updateMovement tournamentId pairNo f store) in
  let readPair : St TournamentPair.t :=
    fun store =>
      (Return (Movement.pair
                 (fst (MovementStore.getOrCreateMovement tournamentId pairNo store))),
       store) in
  _ <~ write (Movement.setTournamentName name) ;;
  _ <~ write (fun m => Movement.setPair (TournamentPair.setPairNo pairNo (Movement.pair m)) m) ;;
  _ <~ (match players with
        | Some ps =>
            write (fun m => Movement.setPair (TournamentPair.setPlayers ps (Movement.pair m)) m)
        | None => ret tt
        end) ;;
  pair <~ readPair ;;
  rounds <~ Array_mapi (_parseMovementRound tournamentId pair) roundList 0 ;;
  _ <~ write (Movement.setRounds rounds) ;;
  allow <~ lift (f <- getProp data "allow_score_overwrites" ;;
                 assertBoolean "movement hand overwrites" f) ;;
  _ <~ write (Movement.setAllowScoreOverwrites allow) ;;
  fun store =>
    (Return (fst (MovementStore.getOrCreateMovement tournamentId pairNo store)), store).

(** [_parseChange] (lines 509-523) and [_parseChangeLog] (lines 531-537). *)
Definition _parseChange (data : JSValue) : Exc Change.t :=
  timestampField <- getProp data "timestamp_sec" ;;
  timestamp_sec <- assertString "change log timestamp" timestampField ;;
  let timestamp := formatTimestamp timestamp_sec in
  changedBy <- getProp data "changed_by" ;;
  _ <- assertType "change log changedby" changedBy "number" false ;;
  changeData <- getProp data "change" ;;
  _ <- assertType "change log change" changeData "object" false ;;
  ns <- getProp changeData "ns_score" ;;
  ew <- getProp changeData "ew_score" ;;
  change <- (if isNull ns && isNull ew
             then Return None
             else _parseHandScore "change log change" changeData) ;;
  Return {| Change.change := change; Change.changedBy := changedBy;
            Change.timestamp := timestamp |}.

Definition _parseChangeLog (data : JSValue) : Exc (ChangeLog.t Change.t) :=
  _ <- assertType "change log data" data "object" false ;;
  changesField <- getProp data "changes" ;;
  changes <- assertArray "changes" changesField ;;
  parsed <- Array_map _parseChange changes ;;
  Return (ChangeLog.mk parsed).

End MovementParsers.

(** ** The hand-status buckets *)

(** [Array.prototype.sort(compareFn)]: the elements in an order in which
    [compareFn(a, b) <= 0] holds from left to right (a stable merge sort,
    as ECMAScript asks since ES2019). *)
Definition Array_sort {A} (compareFn : A -> A -> Z) (l : list A) : list A :=
  @merge_sort A (fun a b => compareFn a b <= 0)
    (fun a b => decide (compareFn a b <= 0)) l.

(** The comparison function of [_changeHandStatus] (lines 454-460). *)
Definition compareHands (handId1 handId2 : HandIdentifier.t) : Z :=
  let primary := HandIdentifier.handNo handId1 - HandIdentifier.handNo handId2 in
  if primary =? 0
  then HandIdentifier.tableNo handId1 - HandIdentifier.tableNo handId2
  else primary.

(** The test of the search loop: the identifier names the hand
    (handNo, nsPair, ewPair). *)
Definition namesHand (handNo nsPair ewPair : Z) (handId : HandIdentifier.t) : bool :=
  (HandIdentifier.handNo handId =? handNo)
  && (TournamentPair.pairNo (HandIdentifier.northSouthPair handId) =? nsPair)
  && (TournamentPair.pairNo (HandIdentifier.eastWestPair handId) =? ewPair).

(** The search loop of [_changeHandStatus] (lines 438-450), from index [i]:
    [Some found], or [None] where the source leaves [found] at -1. *)
Fixpoint findHand (handNo nsPair ewPair : Z) (from_hands : list HandIdentifier.t)
    (i : nat) : option nat :=
  match from_hands with
  | [] => None
  | handId :: rest =>
      if namesHand handNo nsPair ewPair handId then Some i
      else if HandIdentifier.handNo handId >? handNo then None
      else findHand handNo nsPair ewPair rest (S i)
  end.

(** [_changeHandStatus] (lines 437-463): the two arrays after the call,
    [(from_hands, to_hands)]. *)
Definition _changeHandStatus (handNo nsPair ewPair : Z)
    (from_hands to_hands : list HandIdentifier.t)
    : list HandIdentifier.t * list HandIdentifier.t :=
  match findHand handNo nsPair ewPair from_hands 0 with
  | Some found =>
      match from_hands !! found with
      | Some handId =>
          (delete found from_hands, Array_sort compareHands (to_hands ++ [handId]))
      | None => (from_hands, to_hands)
      end
  | None => (from_hands, to_hands)
  end.

(** ** The service and its caches *)

Module Request.
Record t : Type := mk {
  method : string;
  url : string;
  data : option HandScore.t;
  headers : list (string * string)
}.
End Request.

(** What a promise settles to. *)
Inductive Rejection : Type :=
| RpcRejection (rejection : RpcError.t)
| Uncaught (ex : Thrown).

Inductive Settled (A : Type) : Type :=
| Fulfilled (a : A)
| Rejected (r : Rejection).
Arguments Fulfilled {A} a.
Arguments Rejected {A} r.

(** A movement request in flight: the promise kept in the promise cache
    and what its handlers close over. *)
Module InFlight.
Record t : Type := mk {
  cacheKey : string;
  path : string;
  tournamentId : string;
  pairNo : Z
}.
End InFlight.

(** What [getMovement] returns: a promise already resolved with the cached
    movement ([$q.when]), or the promise of a request in flight. *)
Inductive MovementPromise : Type :=
| Resolved (movement : Movement.t)
| Pending (promise : nat).

Module Service.
(** Modelled from the spec: TichuTournamentStore is not under src/.
    Section 4.6 gives [handStatus(tournamentId)] as the per-round partition
    of the scheduled hands into scored and unscored, so [_tournamentStore]
    maps a tournament to its status when it has one
    ([hasTournamentStatus], [getOrCreateTournamentStatus]).
    [_movementPromiseCache] maps a key to a promise; [inFlight] and
    [issued] are the promises that have not settled and the requests sent
    so far. *)
Record t : Type := mk {
  _movementStore : MovementStore.t;
  _tournamentStore : gmap string TournamentStatus.t;
  _movementPromiseCache : gmap string nat;
  inFlight : gmap nat InFlight.t;
  nextPromise : nat;
  issued : list Request.t
}.
Definition setStores (m : MovementStore.t) (ts : gmap string TournamentStatus.t)
    (s : t) : t :=
  mk m ts (_movementPromiseCache s) (inFlight s) (nextPromise s) (issued s).
Definition setMovementStore (m : MovementStore.t) (s : t) : t :=
  setStores m (_tournamentStore s) s.
(** The service as its constructor leaves it, with empty stores. *)
Definition start : t := mk MovementStore.empty ∅ ∅ ∅ 0%nat [].
End Service.

(** [$http]: a response with a status from 200 to 299 resolves the
    request, any other rejects it. *)
Definition httpSucceeds (response : Response.t) : bool :=
  (200 <=? Response.status response) && (Response.status response <=? 299).

(** [pairCode ? {'X-tichu-pair-code': pairCode} : {}]. *)
Definition pairCodeHeaders (pairCode : option string) : list (string * string) :=
  match pairCode with
  | Some code => if String.eqb code "" then [] else [("X-tichu-pair-code", code)]
  | None => []
  end.

Definition handPath (tournamentId : string) (handNo nsPair ewPair : Z) : string :=
  "/api/tournaments/" +:+ encodeURIComponent tournamentId
  +:+ "/hands/" +:+ encodeURIComponent (Number_toString handNo)
  +:+ "/" +:+ encodeURIComponent (Number_toString nsPair)
  +:+ "/" +:+ encodeURIComponent (Number_toString ewPair).

(** [_updateTournamentStatus] (lines 230-238), on the tournament store. *)
Definition scoreRound (handNo nsPair ewPair : Z) (round : RoundStatus.t) : RoundStatus.t :=
  let '(unscored, scored) :=
    _changeHandStatus handNo nsPair ewPair
      (RoundStatus.unscoredHands round) (RoundStatus.scoredHands round) in
  {| RoundStatus.roundNo := RoundStatus.roundNo round;
     RoundStatus.unscoredHands := unscored;
     RoundStatus.scoredHands := scored |}.

Definition _updateTournamentStatus (tournamentId : string) (handNo nsPair ewPair : Z)
    (store : gmap string TournamentStatus.t) : gmap string TournamentStatus.t :=
  match store !! tournamentId with
  | Some status =>
      <[tournamentId :=
          {| TournamentStatus.roundStatus :=
               map (scoreRound handNo nsPair ewPair) (TournamentStatus.roundStatus status) |}]>
        store
  | None => store
  end.

(** The loop of [clearScore] (lines 262-267): the same move, from the
    scored to the unscored bucket. *)
Definition unscoreRound (handNo nsPair ewPair : Z) (round : RoundStatus.t) : RoundStatus.t :=
  let '(scored, unscored) :=
    _changeHandStatus handNo nsPair ewPair
      (RoundStatus.scoredHands round) (RoundStatus.unscoredHands round) in
  {| RoundStatus.roundNo := RoundStatus.roundNo round;
     RoundStatus.unscoredHands := unscored;
     RoundStatus.scoredHands := scored |}.

Definition clearTournamentStatus (tournamentId : string) (handNo nsPair ewPair : Z)
    (store : gmap string TournamentStatus.t) : gmap string TournamentStatus.t :=
  match store !! tournamentId with
  | Some status =>
      <[tournamentId :=
          {| TournamentStatus.roundStatus :=
               map (unscoreRound handNo nsPair ewPair) (TournamentStatus.roundStatus status) |}]>
        store
  | None => store
  end.

(** [getOrCreateHand(...).score = value]: the hand is looked up (and made
    when missing) before the value is written. *)
Definition writeScore (tournamentId : string) (nsPair ewPair handNo : Z)
    (value : option HandScore.t) (store : MovementStore.t) : MovementStore.t :=
  MovementStore.updateHand (tournamentId, nsPair, ewPair, handNo) (Hand.setScore value)
    (snd (MovementStore.getOrCreateHand tournamentId nsPair ewPair handNo store)).

(** [getOrCreateHand(...).score], a read of the cached hand. *)
Definition readScore (tournamentId : string) (nsPair ewPair handNo : Z)
    (store : MovementStore.t) : option HandScore.t :=
  Hand.score (fst (MovementStore.getOrCreateHand tournamentId nsPair ewPair handNo store)).

Section Service.
Context `{Collaborators}.

(** Modelled from the spec: ServiceHelpers.handleErrorIn is not under
    src/.  Section 7 has every failure reported to the caller, and the
    service installs [handleErrorIn($q, $log, path, true)] as the rejection
    handler of its requests: the handler gets no store, logs, and answers
    with [$q.reject] of the [RpcError] it builds from the response. *)
Definition handleErrorIn {A} (path : string) (redirectToLogin : bool)
    (response : Response.t) : Settled A :=
  Rejected (RpcRejection (rpcErrorFor path redirectToLogin response)).

(** [recordScore] (lines 122-150): the request, and the handlers that run
    when the response arrives. *)
Definition recordScore_request (tournamentId : string) (nsPair ewPair handNo : Z)
    (score : HandScore.t) (pairCode : option string) : Request.t :=
  {| Request.method := "PUT";
     Request.url := handPath tournamentId handNo nsPair ewPair;
     Request.data := Some score;
     Request.headers := pairCodeHeaders pairCode |}.

Definition recordScore (tournamentId : string) (nsPair ewPair handNo : Z)
    (score : HandScore.t) (pairCode : option string)
    (response : Response.t) (self : Service.t) : Service.t * Settled unit :=
  let path := handPath tournamentId handNo nsPair ewPair in
  if httpSucceeds response
  then
    (Service.setStores
       (writeScore tournamentId nsPair ewPair handNo (Some score) (Service._movementStore self))
       (_updateTournamentStatus tournamentId handNo nsPair ewPair (Service._tournamentStore self))
       self,
     Fulfilled tt)
  else if Response.status response =? 405
  then
    let store1 :=
      snd (MovementStore.getOrCreateHand tournamentId nsPair ewPair handNo
             (Service._movementStore self)) in
    match _parseHandScore "hand score rejection" (Response.data response) with
    | Return parsed =>
        (Service.setStores
           (writeScore tournamentId nsPair ewPair handNo parsed store1)
           (_updateTournamentStatus tournamentId handNo nsPair ewPair
              (Service._tournamentStore self))
           self,
         Rejected (RpcRejection
           {| RpcError.redirectToLogin := RpcError.redirectToLogin RpcError.new;
              RpcError.error := RpcError.error RpcError.new;
              RpcError.detail := RpcError.detail RpcError.new;
              RpcError.updatedState := true |}))
    | Throw ex => (Service.setMovementStore store1 self, Rejected (Uncaught ex))
    end
  else (self, handleErrorIn path true response).

(** [clearScore] (lines 248-269). *)
Definition clearScore_request (tournamentId : string) (nsPair ewPair handNo : Z)
    (pairCode : option string) : Request.t :=
  {| Request.method := "DELETE";
     Request.url := handPath tournamentId handNo nsPair ewPair;
     Request.data := None;
     Request.headers := pairCodeHeaders pairCode |}.

Definition clearScore (tournamentId : string) (nsPair ewPair handNo : Z)
    (pairCode : option string)
    (response : Response.t) (self : Service.t) : Service.t * Settled unit :=
  let path := handPath tournamentId handNo nsPair ewPair in
  if httpSucceeds response
  then
    (Service.setStores
       (writeScore tournamentId nsPair ewPair handNo None (Service._movementStore self))
       (clearTournamentStatus tournamentId handNo nsPair ewPair (Service._tournamentStore self))
       self,
     Fulfilled tt)
  else (self, handleErrorIn path true response).

(** [getMovement] (lines 75-111). *)
Definition movementPromiseCacheKey (tournamentId : string) (pairNo : Z)
    (pairCode : option string) : string :=
  encodeURIComponent tournamentId +:+ "/" +:+ encodeURIComponent (Number_toString pairNo)
  +:+ "/" +:+ encodeURIComponent (default "" pairCode).

Definition movementPath (tournamentId : string) (pairNo : Z) : string :=
  "/api/tournaments/" +:+ encodeURIComponent tournamentId
  +:+ "/movement/" +:+ encodeURIComponent (Number_toString pairNo).

Definition getMovement_request (tournamentId : string) (pairNo : Z)
    (pairCode : option string) : Request.t :=
  {| Request.method := "GET";
     Request.url := movementPath tournamentId pairNo;
     Request.data := None;
     Request.headers := pairCodeHeaders pairCode |}.

(** The call itself: what it returns and the service after it.  A new
    request gets the next promise number; the promise put in the cache is
    the one at the end of the [then]/[finally] chain. *)
Definition getMovement (tournamentId : string) (pairNo : Z) (pairCode : option string)
    (refresh : bool) (self : Service.t) : MovementPromise * Service.t :=
  if negb refresh && MovementStore.hasMovement tournamentId pairNo (Service._movementStore self)
  then
    let '(movement, store) :=
      MovementStore.getOrCreateMovement tournamentId pairNo (Service._movementStore self) in
    (Resolved movement, Service.setMovementStore store self)
  else
    let key := movementPromiseCacheKey tournamentId pairNo pairCode in
    match Service._movementPromiseCache self !! key with
    | Some promise => (Pending promise, self)
    | None =>
        let promise := Service.nextPromise self in
        (Pending promise,
         {| Service._movementStore := Service._movementStore self;
            Service._tournamentStore := Service._tournamentStore self;
            Service._movementPromiseCache :=
              <[key := promise]> (Service._movementPromiseCache self);
            Service.inFlight :=
              <[promise := {| InFlight.cacheKey := key;
                              InFlight.path := movementPath tournamentId pairNo;
                              InFlight.tournamentId := tournamentId;
                              InFlight.pairNo := pairNo |}]> (Service.inFlight self);
            Service.nextPromise := S promise;
            Service.issued :=
              Service.issued self ++ [getMovement_request tournamentId pairNo pairCode] |})
    end.

(** The [onSuccess] handler of the movement request, with its [try]. *)
Definition getMovement_onSuccess (request : InFlight.t) (response : Response.t)
    (store : MovementStore.t) : Settled Movement.t * MovementStore.t :=
  match _parseMovement (InFlight.tournamentId request) (InFlight.pairNo request)
          (Response.data response) store with
  | (Return movement, store') => (Fulfilled movement, store')
  | (Throw ex, store') =>
      (Rejected (RpcRejection
         {| RpcError.redirectToLogin := false;
            RpcError.error := "Invalid response from server";
            RpcError.detail :=
              "The server sent confusing data for the movement." +:+ Thrown_toString ex;
            RpcError.updatedState := RpcError.updatedState RpcError.new |}),
       store')
  end.

(** The response to the request behind [promise] arrives: [onSuccess] or
    the error handler runs, then [afterResolution] removes the cache
    entry.  A promise that is not in flight has no handlers left to run. *)
Definition getMovement_settle (promise : nat) (response : Response.t)
    (self : Service.t) : Service.t * option (Settled Movement.t) :=
  match Service.inFlight self !! promise with
  | None => (self, None)
  | Some request =>
      let '(outcome, store) :=
        if httpSucceeds response
        then getMovement_onSuccess request response (Service._movementStore self)
        else (handleErrorIn (InFlight.path request) true response,
              Service._movementStore self) in
      ({| Service._movementStore := store;
          Service._tournamentStore := Service._tournamentStore self;
          Service._movementPromiseCache :=
            delete (InFlight.cacheKey request) (Service._movementPromiseCache self);
          Service.inFlight := delete promise (Service.inFlight self);
          Service.nextPromise := Service.nextPromise self;
          Service.issued := Service.issued self |},
       Some outcome)
  end.

End Service.

(** ** Hand results and change logs *)

Module RankedHand.
(** Modelled from the spec: [tichu.RankedHand] and the [tichu.Hand] it
    wraps are not under src/.  A ranked hand is the hand of one result
    (its pairs, its number, its score) with the match points of section
    4.4; the pair numbers and the match points are the JSON numbers as
    read, which the parser does not ask to be integers. *)
Record t : Type := mk {
  northSouthPair : Q;
  eastWestPair : Q;
  handNo : Z;
  score : option HandScore.t;
  mps : Q
}.
End RankedHand.

Module HandResults.
Record t : Type := mk { hands : list RankedHand.t }.
End HandResults.

Section ResultsAndChanges.
Context `{Collaborators}.

(** [_parseHandResult] (lines 204-220).  The hand number is the board
    number the caller asked for, an integer: it goes through the same test
    as in the source. *)
Definition _parseHandResult (tournamentId context : string) (handNo : Z)
    (resultData : JSValue) : Exc RankedHand.t :=
  _ <- assertType context resultData "object" false ;;
  _ <- assertType (context +:+ " hand number") (JNum (inject_Z handNo)) "number" false ;;
  if notPositiveInteger (inject_Z handNo)
  then Throw (Error (context +:+ " hand number was not a positive integer"))
  else
    score <- _parseHandScore context resultData ;;
    nsField <- getProp resultData "ns_pair" ;;
    nsPair <- assertNumber (context +:+ " ns pair") nsField ;;
    ewField <- getProp resultData "ew_pair" ;;
    ewPair <- assertNumber (context +:+ " ew pair") ewField ;;
    mpsField <- getProp resultData "mps" ;;
    mps <- assertNumber (context +:+ " mps") mpsField ;;
    Return {| RankedHand.northSouthPair := nsPair;
              RankedHand.eastWestPair := ewPair;
              RankedHand.handNo := handNo;
              RankedHand.score := score;
              RankedHand.mps := mps |}.

(** [_parseHandResults] (lines 187-193). *)
Definition _parseHandResults (tournamentId resultContext : string)
    (resultsData : JSValue) (handNo : Z) : Exc HandResults.t :=
  resultsField <- getProp resultsData "results" ;;
  resultsList <- assertArray resultContext resultsField ;;
  hands <- Array_map (_parseHandResult tournamentId resultContext handNo) resultsList ;;
  Return {| HandResults.hands := hands |}.

(** [getHandResults] (lines 161-176): the request, and the handlers that
    run when the response arrives.  The success handler parses outside any
    [try], so what the parser throws rejects the promise as it is. *)
Definition handResultsPath (tournamentId : string) (boardNo : Z) : string :=
  "/api/tournaments/" +:+ encodeURIComponent tournamentId
  +:+ "/handresults/" +:+ encodeURIComponent (Number_toString boardNo).

Definition getHandResults_request (tournamentId : string) (boardNo : Z)
    (pairCode : option string) (position : string) : Request.t :=
  {| Request.method := "GET";
     Request.url := handResultsPath tournamentId boardNo;
     Request.data := None;
     Request.headers := (pairCodeHeaders pairCode ++ [("X-position", position)])%list |}.

Definition getHandResults (tournamentId : string) (boardNo : Z)
    (pairCode : option string) (position : string)
    (response : Response.t) : Settled HandResults.t :=
  if httpSucceeds response
  then
    match _parseHandResults tournamentId "hand results" (Response.data response) boardNo with
    | Return results => Fulfilled results
    | Throw ex => Rejected (Uncaught ex)
    end
  else handleErrorIn (handResultsPath tournamentId boardNo) true response.

(** [getChangeLog] (lines 474-500), with the [try] around the parser. *)
Definition changeLogPath (tournamentId : string) (handNo nsPair ewPair : Z) : string :=
  "/api/tournaments/" +:+ encodeURIComponent tournamentId
  +:+ "/hands/changelog/" +:+ encodeURIComponent (Number_toString handNo)
  +:+ "/" +:+ encodeURIComponent (Number_toString nsPair)
  +:+ "/" +:+ encodeURIComponent (Number_toString ewPair).

Definition getChangeLog_request (tournamentId : string) (handNo nsPair ewPair : Z)
    : Request.t :=
  {| Request.method := "GET";
     Request.url := changeLogPath tournamentId handNo nsPair ewPair;
     Request.data := None;
     Request.headers := [] |}.

Definition getChangeLog (tournamentId : string) (handNo nsPair ewPair : Z)
    (response : Response.t) : Settled (ChangeLog.t Change.t) :=
  if httpSucceeds response
  then
    match _parseChangeLog (Response.data response) with
    | Return changeLog => Fulfilled changeLog
    | Throw ex =>
        Rejected (RpcRejection
          {| RpcError.redirectToLogin := false;
             RpcError.error := "Invalid response from server";
             RpcError.detail :=
               "The server sent confusing data for the changes in hand."
               +:+ Thrown_toString ex;
             RpcError.updatedState := RpcError.updatedState RpcError.new |})
    end
  else handleErrorIn (changeLogPath tournamentId handNo nsPair ewPair) true response.

End ResultsAndChanges.

(** Modelled from the spec: the [tichu] namespace and ServiceHelpers are
    not under src/.  Section 4.2 (3) restricts a call set to the seats
    north, east, south and west and to the values "", "T" and "GT";
    docs/api.md ends a position in N (North/South) or E (East/West).  The
    spec does not describe the error that handleErrorIn builds nor the
    browser's time zone: the reference collaborators answer with a new
    RpcError that carries the status text, and leave a time stamp as the
    server sent it. *)
Definition documented : Collaborators :=
  {| Position := [("NORTH", "north"); ("EAST", "east"); ("SOUTH", "south"); ("WEST", "west")];
     isValidCall := fun call => existsb (String.eqb call) [EmptyString; "T"; "GT"];
     NORTH_SOUTH := "N";
     isValidPairPosition := fun v =>
       match v with
       | JStr s => existsb (String.eqb s) ["N"; "E"]
       | _ => false
       end;
     rpcErrorFor := fun _ redirectToLogin response =>
       {| RpcError.redirectToLogin := redirectToLogin;
          RpcError.error := Response.statusText response;
          RpcError.detail := EmptyString;
          RpcError.updatedState := false |};
     formatTimestamp := fun timestamp_sec => timestamp_sec |}.

(** * The vocabulary of the properties *)

(** The call a seat contributes to a parsed score, in the words of the
    hand-score property: the seat's entry when it is a non-empty string,
    nothing when the entry is absent, null or the empty string. *)
Definition seatCall (callData : JSValue) (position : string) : option Call.t :=
  match callData with
  | JObj entries =>
      match field position entries with
      | Some (JStr s) =>
          if String.eqb s "" then None
          else Some {| Call.side := position; Call.call := s |}
      | _ => None
      end
  | _ => None
  end.

(** Ascending order by (handNo, tableNo). *)
Definition handOrder (a b : HandIdentifier.t) : Prop :=
  HandIdentifier.handNo a < HandIdentifier.handNo b
  \/ (HandIdentifier.handNo a = HandIdentifier.handNo b
      /\ HandIdentifier.tableNo a <= HandIdentifier.tableNo b).

Definition bucketSorted (l : list HandIdentifier.t) : Prop := Sorted handOrder l.

(** Ascending order by handNo alone: what the search loop relies on. *)
Definition handNoOrder (a b : HandIdentifier.t) : Prop :=
  HandIdentifier.handNo a <= HandIdentifier.handNo b.

Definition handNoSorted (l : list HandIdentifier.t) : Prop := Sorted handNoOrder l.

Definition roundSorted (round : RoundStatus.t) : Prop :=
  bucketSorted (RoundStatus.unscoredHands round)
  /\ bucketSorted (RoundStatus.scoredHands round).

Definition statusSorted (status : TournamentStatus.t) : Prop :=
  Forall roundSorted (TournamentStatus.roundStatus status).

(** The hand (handNo, nsPair, ewPair) moves from one bucket to the other:
    either the first identifier that names it leaves [from_hands] and
    joins [to_hands], nothing else being added, removed or duplicated, or
    no identifier of [from_hands] names it and both buckets stay. *)
Definition movedBetween (handNo nsPair ewPair : Z)
    (from_hands to_hands from_hands' to_hands' : list HandIdentifier.t) : Prop :=
  (exists before handId after,
      from_hands = (before ++ handId :: after)%list
      /\ namesHand handNo nsPair ewPair handId = true
      /\ Forall (fun other => namesHand handNo nsPair ewPair other = false) before
      /\ from_hands' = (before ++ after)%list
      /\ to_hands' ≡ₚ handId :: to_hands)
  \/ (Forall (fun other => namesHand handNo nsPair ewPair other = false) from_hands
      /\ from_hands' = from_hands
      /\ to_hands' = to_hands).

(** A round after a hand was scored, and after its score was cleared. *)
Definition roundScored (handNo nsPair ewPair : Z) (round round' : RoundStatus.t) : Prop :=
  RoundStatus.roundNo round' = RoundStatus.roundNo round
  /\ movedBetween handNo nsPair ewPair
       (RoundStatus.unscoredHands round) (RoundStatus.scoredHands round)
       (RoundStatus.unscoredHands round') (RoundStatus.scoredHands round').

Definition roundCleared (handNo nsPair ewPair : Z) (round round' : RoundStatus.t) : Prop :=
  RoundStatus.roundNo round' = RoundStatus.roundNo round
  /\ movedBetween handNo nsPair ewPair
       (RoundStatus.scoredHands round) (RoundStatus.unscoredHands round)
       (RoundStatus.scoredHands round') (RoundStatus.unscoredHands round').

(** What happens to the service over time: calls of [getMovement], and
    the responses to the requests it and [recordScore]/[clearScore] sent,
    in the order in which their handlers run. *)
Inductive Event : Type :=
| CallGetMovement (tournamentId : string) (pairNo : Z) (pairCode : option string)
    (refresh : bool)
| MovementResponse (promise : nat) (response : Response.t)
| RecordScoreResponse (tournamentId : string) (nsPair ewPair handNo : Z)
    (score : HandScore.t) (pairCode : option string) (response : Response.t)
| ClearScoreResponse (tournamentId : string) (nsPair ewPair handNo : Z)
    (pairCode : option string) (response : Response.t).

(** The event is the response to the request behind [promise]. *)
Definition completes (promise : nat) (e : Event) : Prop :=
  match e with
  | MovementResponse p _ => p = promise
  | _ => False
  end.

Section Events.
Context `{Collaborators}.

Definition step (self : Service.t) (e : Event) : Service.t :=
  match e with
  | CallGetMovement tournamentId pairNo pairCode refresh =>
      snd (getMovement tournamentId pairNo pairCode refresh self)
  | MovementResponse promise response =>
      fst (getMovement_settle promise response self)
  | RecordScoreResponse tournamentId nsPair ewPair handNo score pairCode response =>
      fst (recordScore tournamentId nsPair ewPair handNo score pairCode response self)
  | ClearScoreResponse tournamentId nsPair ewPair handNo pairCode response =>
      fst (clearScore tournamentId nsPair ewPair handNo pairCode response self)
  end.

Definition run (self : Service.t) (events : list Event) : Service.t :=
  foldl step self events.

(** The states the service can be in. *)
Definition reachable (self : Service.t) : Prop :=
  exists events, self = run Service.start events.

(** The promise cache and the requests in flight describe each other. *)
Definition cacheConsistent (self : Service.t) : Prop :=
  (forall promise request,
      Service.inFlight self !! promise = Some request ->
      Service._movementPromiseCache self !! InFlight.cacheKey request = Some promise)
  /\ (forall key promise,
        Service._movementPromiseCache self !! key = Some promise ->
        exists request,
          Service.inFlight self !! promise = Some request
          /\ InFlight.cacheKey request = key)
  /\ (forall promise request,
        Service.inFlight self !! promise = Some request ->
        (promise < Service.nextPromise self)%nat).

End Events.

(** Collaborators whose position test accepts every value, undefined
    included: with them a seated round gets past the test that reads
    [round.side]. *)
Definition permissive : Collaborators :=
  {| Position := @Position documented;
     isValidCall := @isValidCall documented;
     NORTH_SOUTH := @NORTH_SOUTH documented;
     isValidPairPosition := fun _ => true;
     rpcErrorFor := @rpcErrorFor documented;
     formatTimestamp := @formatTimestamp documented |}.

(** Data of docs/api.md, for the worked examples. *)
Module Sample.

(** The score of hand 13 in the movement response. *)
Definition scoreData : JSValue :=
  JObj [("calls", JObj [("north", JStr "T"); ("east", JStr "GT");
                        ("west", JStr EmptyString); ("south", JStr EmptyString)]);
        ("ns_score", JNum 150); ("ew_score", JNum (-150));
        ("notes", JStr "I am a note")].

Definition score : HandScore.t :=
  {| HandScore.calls := [ {| Call.side := "north"; Call.call := "T" |};
                          {| Call.side := "east"; Call.call := "GT" |} ];
     HandScore.northSouthScore := JNum 150;
     HandScore.eastWestScore := JNum (-150);
     HandScore.notes := Some "I am a note" |}.

(** A round in which the pair sits out, and the first round of the
    movement response (with the relay flag the parser asks for). *)
Definition sitOutRound : list (string * JSValue) := [("round", JNum 3)].

Definition seatedRound : list (string * JSValue) :=
  [("round", JNum 1); ("position", JStr "3N"); ("opponent", JNum 2);
   ("opponent_names", JArr [JStr "Peter the Positive"; JStr "Christopher the Columbus"]);
   ("relay_table", JBool false);
   ("hands", JArr [JObj [("hand_no", JNum 13); ("score", scoreData)];
                   JObj [("hand_no", JNum 14)]; JObj [("hand_no", JNum 15)]])].

(** What the seated round parses to for pair 1, once past the test on
    the side. *)
Definition seatedParsed : MovementRound.t :=
  {| MovementRound.roundNo := 1; MovementRound.isSitOut := false;
     MovementRound.opponent :=
       Some {| TournamentPair.pairNo := 2;
               TournamentPair.players :=
                 [ {| Player.name := JStr "Peter the Positive"; Player.email := JUndefined |};
                   {| Player.name := JStr "Christopher the Columbus";
                      Player.email := JUndefined |} ] |};
     MovementRound.position := Some "N"; MovementRound.table := Some "3";
     MovementRound.hands := [("t1", 1, 2, 13); ("t1", 1, 2, 14); ("t1", 1, 2, 15)];
     MovementRound.isRelayTable := false |}.

(** A deletion and a scoring entry of a change log. *)
Definition deletion : JSValue :=
  JObj [("change", JObj [("ns_score", JNull); ("ew_score", JNull)]);
        ("timestamp_sec", JStr "1482804837.85"); ("changed_by", JNum 0)].

Definition scoring : JSValue :=
  JObj [("change", scoreData);
        ("timestamp_sec", JStr "1482804384.03"); ("changed_by", JNum 1)].

(** Hand 3 between pairs 4 (north-south) and 6 (east-west), and a status
    of one round in which it is still to be scored. *)
Definition identifier (table hand ns ew : Z) : HandIdentifier.t :=
  {| HandIdentifier.tableNo := table; HandIdentifier.handNo := hand;
     HandIdentifier.northSouthPair := TournamentPair.new ns;
     HandIdentifier.eastWestPair := TournamentPair.new ew |}.

Definition status : TournamentStatus.t :=
  {| TournamentStatus.roundStatus :=
       [ {| RoundStatus.roundNo := 1;
            RoundStatus.unscoredHands :=
              [identifier 1 2 1 2; identifier 1 3 1 2; identifier 2 3 4 6];
            RoundStatus.scoredHands :=
              [identifier 1 1 1 2; identifier 2 1 4 6; identifier 2 2 4 6] |} ] |}.

Definition service : Service.t :=
  Service.setStores MovementStore.empty {[ "t1" := status ]} Service.start.

(** A status whose scored bucket is out of order: hand 5 before hand 3. *)
Definition unsortedStatus : TournamentStatus.t :=
  {| TournamentStatus.roundStatus :=
       [ {| RoundStatus.roundNo := 1;
            RoundStatus.unscoredHands := [];
            RoundStatus.scoredHands := [identifier 1 5 1 2; identifier 2 3 4 6] |} ] |}.

Definition unsortedService : Service.t :=
  Service.setStores MovementStore.empty {[ "t1" := unsortedStatus ]} Service.start.

Definition noContent : Response.t :=
  {| Response.status := 204; Response.statusText := "No Content";
     Response.data := JUndefined |}.

Definition serverError : Response.t :=
  {| Response.status := 500; Response.statusText := "Internal Server Error";
     Response.data := JUndefined |}.

(** A 405 that carries the stored score, and one whose body is not JSON. *)
Definition notAllowed : Response.t :=
  {| Response.status := 405; Response.statusText := "Method Not Allowed";
     Response.data := scoreData |}.

Definition notAllowedMessage : Response.t :=
  {| Response.status := 405; Response.statusText := "Method Not Allowed";
     Response.data := JObj [("error", JStr "The hand has a score already")] |}.

End Sample.

(** The movement and hand-results responses of docs/api.md, and a
    service that waits for the movement of pair 1. *)
Module Responses.

Definition players : JSValue :=
  JArr [JObj [("name", JStr "Michael the Magnificent"); ("email", JStr "michael@michael.com")];
        JObj [("name", JStr "Anna the Amazing"); ("email", JStr "anna@anna.com")]].

Definition parsedPlayers : list Player.t :=
  [ {| Player.name := JStr "Michael the Magnificent";
       Player.email := JStr "michael@michael.com" |};
    {| Player.name := JStr "Anna the Amazing"; Player.email := JStr "anna@anna.com" |} ].

(** A movement in which the pair sits out its only round, and one that
    seats it in the first round of docs/api.md. *)
Definition sitOutMovement : list (string * JSValue) :=
  [("name", JStr "Tournament Name"); ("players", players);
   ("allow_score_overwrites", JBool true);
   ("movement", JArr [JObj Sample.sitOutRound])].

Definition seatedMovement : list (string * JSValue) :=
  [("name", JStr "Tournament Name"); ("players", players);
   ("allow_score_overwrites", JBool true);
   ("movement", JArr [JObj Sample.seatedRound; JObj Sample.sitOutRound])].

Definition sitOutParsed : Movement.t :=
  {| Movement.tournamentId := "t1";
     Movement.tournamentName := Some "Tournament Name";
     Movement.pair := {| TournamentPair.pairNo := 1; TournamentPair.players := parsedPlayers |};
     Movement.rounds :=
       [ {| MovementRound.roundNo := 3; MovementRound.isSitOut := true;
            MovementRound.opponent := None; MovementRound.position := None;
            MovementRound.table := None; MovementRound.hands := [];
            MovementRound.isRelayTable := false |} ];
     Movement.allowScoreOverwrites := true |}.

Definition ok (data : JSValue) : Response.t :=
  {| Response.status := 200; Response.statusText := "OK"; Response.data := data |}.

(** The results of hand 3: one score, of pairs 4 and 6. *)
Definition handResults : JSValue :=
  JObj [("results",
         JArr [JObj [("calls", JObj [("north", JStr EmptyString); ("south", JStr "T");
                                     ("west", JStr EmptyString); ("east", JStr EmptyString)]);
                     ("ew_score", JNum 20); ("ns_score", JNum 180);
                     ("ns_pair", JNum 4); ("ew_pair", JNum 6); ("mps", JNum (3 # 2))]])].

Definition ranked : RankedHand.t :=
  {| RankedHand.northSouthPair := 4; RankedHand.eastWestPair := 6;
     RankedHand.handNo := 3;
     RankedHand.score :=
       Some {| HandScore.calls := [ {| Call.side := "south"; Call.call := "T" |} ];
               HandScore.northSouthScore := JNum 180;
               HandScore.eastWestScore := JNum 20;
               HandScore.notes := None |};
     RankedHand.mps := 3 # 2 |}.

(** The service after a first call for the movement of pair 1, and the
    request that call has in flight. *)
Definition waiting : Service.t := snd (getMovement "t1" 1 None false Service.start).

Definition request : InFlight.t :=
  {| InFlight.cacheKey := movementPromiseCacheKey "t1" 1 None;
     InFlight.path := movementPath "t1" 1;
     InFlight.tournamentId := "t1";
     InFlight.pairNo := 1 |}.

End Responses.

(** A round keeps its number and its hands: the identifiers of its two
    buckets taken together are the same, whichever bucket holds each. *)
Definition sameHands (round round' : RoundStatus.t) : Prop :=
  RoundStatus.roundNo round' = RoundStatus.roundNo round
  /\ (RoundStatus.unscoredHands round' ++ RoundStatus.scoredHands round')%list
     ≡ₚ (RoundStatus.unscoredHands round ++ RoundStatus.scoredHands round)%list.

(** The ranked hand read from one entry of a hand-results response: the
    entry is an object that holds the pair numbers, the match points and,
    in its own fields, a score. *)
Definition rankedFrom `{Collaborators} (context : string) (handNo : Z)
    (entry : JSValue) (ranked : RankedHand.t) : Prop :=
  exists fields score,
    entry = JObj fields
    /\ RankedHand.handNo ranked = handNo
    /\ RankedHand.score ranked = Some score
    /\ _parseHandScore context entry = Return (Some score)
    /\ field "ns_pair" fields = Some (JNum (RankedHand.northSouthPair ranked))
    /\ field "ew_pair" fields = Some (JNum (RankedHand.eastWestPair ranked))
    /\ field "mps" fields = Some (JNum (RankedHand.mps ranked)).

(** Code that writes to the store relates the store before to the store
    after by [R], whether it returns or throws. *)
Definition preserves (R : relation MovementStore.t) {A} (m : St A) : Prop :=
  forall s r s', m s = (r, s') -> R s s'.

(** The movements of the store are left as they are. *)
Definition sameMovements (s s' : MovementStore.t) : Prop :=
  MovementStore.movements s' = MovementStore.movements s.

(** The movement of a pair stays in the store. *)
Definition keepsMovement (tournamentId : string) (pairNo : Z) (s s' : MovementStore.t)
    : Prop :=
  is_Some (MovementStore.movements s !! (tournamentId, pairNo)) ->
  is_Some (MovementStore.movements s' !! (tournamentId, pairNo)).

(** The round is an object with an opponent: the pair is seated. *)
Definition seated (movementRound : JSValue) : Prop :=
  exists fields,
    movementRound = JObj fields
    /\ isNullOrUndefined (default JUndefined (field "opponent" fields)) = false.

(** The players of a movement response, read without the store: the
    callback of [_parseMovement] on each player, from index [i]. *)
Fixpoint parsePlayers `{Collaborators} (l : list JSValue) (i : nat) : Exc (list Player.t) :=
  match l with
  | [] => Return []
  | p :: rest =>
      q <- parsePlayer p i ;;
      qs <- parsePlayers rest (S i) ;;
      Return (q :: qs)
  end.

(** The checks of [_parseMovement] that come before the movement is
    fetched from the store: the data is an object with a string as its
    name, players that are absent or parse, and an array of rounds. *)
Definition headerAccepted `{Collaborators} (data : JSValue) (name : string)
    (roundList : list JSValue) : Prop :=
  exists fields,
    data = JObj fields
    /\ field "name" fields = Some (JStr name)
    /\ field "movement" fields = Some (JArr roundList)
    /\ match default JUndefined (field "players" fields) with
       | JUndefined | JNull => True
       | JArr l => exists ps, parsePlayers l 0 = Return ps
       | _ => False
       end.

(** The steps of [_parseMovement] once its checks have passed (lines
    415-425), under names of their own: the movement is fetched from the
    store and given its name ([movementBody]), then its pair, its rounds
    and its overwrite flag ([movementRest]).  [_parseMovement] is its
    checks followed by these steps. *)
Definition writeMovement (tournamentId : string) (pairNo : Z)
    (f : Movement.t -> Movement.t) : St unit :=
  fun store => (Return tt, MovementStore.updateMovement tournamentId pairNo f store).

Definition movementRest `{Collaborators} (tournamentId : string) (pairNo : Z)
    (data : JSValue) (players : option (list Player.t)) (roundList : list JSValue)
    : St Movement.t :=
  _ <~ writeMovement tournamentId pairNo
         (fun m => Movement.setPair (TournamentPair.setPairNo pairNo (Movement.pair m)) m) ;;
  _ <~ (match players with
        | Some ps =>
            writeMovement tournamentId pairNo
              (fun m => Movement.setPair (TournamentPair.setPlayers ps (Movement.pair m)) m)
        | None => ret tt
        end) ;;
  pair <~ (fun store =>
             (Return (Movement.pair
                        (fst (MovementStore.getOrCreateMovement tournamentId pairNo store))),
              store)) ;;
  rounds <~ Array_mapi (_parseMovementRound tournamentId pair) roundList 0 ;;
  _ <~ writeMovement tournamentId pairNo (Movement.setRounds rounds) ;;
  allow <~ lift (f <- getProp data "allow_score_overwrites" ;;
                 assertBoolean "movement hand overwrites" f) ;;
  _ <~ writeMovement tournamentId pairNo (Movement.setAllowScoreOverwrites allow) ;;
  fun store =>
    (Return (fst (MovementStore.getOrCreateMovement tournamentId pairNo store)), store).

Definition movementBody `{Collaborators} (tournamentId : string) (pairNo : Z)
    (data : JSValue) (name : string) (players : option (list Player.t))
    (roundList : list JSValue) : St Movement.t :=
  _ <~ (fun store =>
          (Return tt, snd (MovementStore.getOrCreateMovement tournamentId pairNo store))) ;;
  _ <~ writeMovement tournamentId pairNo (Movement.setTournamentName name) ;;
  movementRest tournamentId pairNo data players roundList.

(** A JSON number that is a positive integer, and the integer it is. *)
Definition positiveInteger (x : Q) (n : Z) : Prop :=
  0 < n /\ (inject_Z n == x)%Q.

(** A round keeps its number and the content of each bucket, up to the
    order of the identifiers. *)
Definition sameBuckets (round round' : RoundStatus.t) : Prop :=
  RoundStatus.roundNo round' = RoundStatus.roundNo round
  /\ RoundStatus.unscoredHands round' ≡ₚ RoundStatus.unscoredHands round
  /\ RoundStatus.scoredHands round' ≡ₚ RoundStatus.scoredHands round.

(** No identifier of the bucket names the hand. *)
Definition noneNames (handNo nsPair ewPair : Z) (l : list HandIdentifier.t) : Prop :=
  Forall (fun other => namesHand handNo nsPair ewPair other = false) l.

(** * Properties *)

(** ** Reading the parsers backwards *)

Lemma bind_Return {A B} (m : Exc A) (k : A -> Exc B) (b : B) :
  bind m k = Return b -> exists a, m = Return a /\ k a = Return b.
Proof. destruct m as [a|ex]; simpl; [eauto | discriminate]. Qed.

Lemma bindSt_Return {A B} (m : St A) (k : A -> St B) (b : B) (s s' : MovementStore.t) :
  bindSt m k s = (Return b, s') ->
  exists a s1, m s = (Return a, s1) /\ k a s1 = (Return b, s').
Proof.
  unfold bindSt. destruct (m s) as [[a|ex] s1]; [eauto | discriminate].
Qed.

Lemma lift_Return {A} (m : Exc A) (a : A) (s s' : MovementStore.t) :
  lift m s = (Return a, s') -> m = Return a /\ s' = s.
Proof. unfold lift. intros [= -> ->]. auto. Qed.

Lemma getProp_obj (fields : list (string * JSValue)) (k : string) :
  getProp (JObj fields) k = Return (default JUndefined (field k fields)).
Proof. reflexivity. Qed.

(** What [assertType] lets through for the type lists the service uses. *)
Lemma assertType_Return context value types optional v :
  assertType context value types optional = Return v -> v = value.
Proof.
  unfold assertType.
  destruct value; repeat case_match; intros [= <-]; reflexivity.
Qed.

Lemma assertType_object_optional context value v :
  assertType context value "object" true = Return v ->
  v = value /\ (value = JUndefined \/ value = JNull \/ exists fields, value = JObj fields).
Proof.
  intros Hret. split; [eauto using assertType_Return|].
  destruct value; try discriminate Hret; eauto.
Qed.

Lemma assertType_object context value v :
  assertType context value "object" false = Return v ->
  exists fields, value = JObj fields.
Proof. destruct value; try discriminate; eauto. Qed.

Lemma assertType_string_optional context value v :
  assertType context value "string" true = Return v ->
  v = value /\ (value = JUndefined \/ value = JNull \/ exists s, value = JStr s).
Proof.
  intros Hret. split; [eauto using assertType_Return|].
  destruct value; try discriminate Hret; eauto.
Qed.

Lemma assertType_score context value v :
  assertType context value "number|string" false = Return v ->
  v = value /\ ((exists q, value = JNum q) \/ exists s, value = JStr s).
Proof.
  intros Hret. split; [eauto using assertType_Return|].
  destruct value; try discriminate Hret; eauto.
Qed.

Lemma assertNumber_Return context value q :
  assertNumber context value = Return q -> value = JNum q.
Proof.
  unfold assertNumber. intros (v & Hv & Hq)%bind_Return.
  apply assertType_Return in Hv as ->. destruct value; congruence.
Qed.

(** ** Hand scores *)

Section HandScoreProperties.
Context `{Collaborators}.

Lemma parseCall_Return handContext callData entry result :
  parseCall handContext callData entry = Return result ->
  result = seatCall callData (snd entry)
  /\ (forall c, result = Some c -> isValidCall (Call.call c) = true).
Proof.
  unfold parseCall. intros (v & Hv & (call & Hcall & Hres)%bind_Return)%bind_Return.
  apply assertType_string_optional in Hcall as [-> Hshape].
  destruct callData as [| | | | |items|entries]; simpl in Hv; try discriminate;
    injection Hv as <-.
  1-4: simpl in Hres; injection Hres as <-; split; [reflexivity | discriminate].
  unfold seatCall. destruct (field (snd entry) entries) as [v|] eqn:Hfield; simpl in *.
  - destruct v; try (injection Hres as <-; split; [reflexivity | discriminate]).
    simpl in Hres. destruct (String.eqb s "") eqn:Hs; simpl in Hres.
    + injection Hres as <-. split; [reflexivity | discriminate].
    + destruct (isValidCall s) eqn:Hvalid; simpl in Hres; [|discriminate].
      injection Hres as <-. split; [reflexivity|]. intros c [= <-]. exact Hvalid.
  - injection Hres as <-. split; [reflexivity | discriminate].
Qed.

Lemma omap_cons_eq {A B} (f : A -> option B) (x : A) (l : list A) :
  omap f (x :: l) = match f x with Some y => y :: omap f l | None => omap f l end.
Proof. reflexivity. Qed.

Lemma parseCalls_Return handContext callData positions entries :
  Array_map (parseCall handContext callData) positions = Return entries ->
  omap id entries = omap (seatCall callData) (map snd positions)
  /\ Forall (fun c => isValidCall (Call.call c) = true) (omap id entries).
Proof.
  revert entries.
  induction positions as [|entry positions IH]; intros entries Hmap; simpl in Hmap.
  - injection Hmap as <-. split; [reflexivity | constructor].
  - apply bind_Return in Hmap as (r & Hr & (rs & Hrs & [= <-])%bind_Return).
    apply parseCall_Return in Hr as [-> Hvalid].
    destruct (IH _ Hrs) as [IHeq IHvalid].
    rewrite List.map_cons, !omap_cons_eq, <- IHeq. unfold id at 1 3.
    destruct (seatCall callData (snd entry)) as [c|] eqn:Hseat.
    + split; [reflexivity|]. constructor; [auto | assumption].
    + split; [reflexivity | assumption].
Qed.

Lemma seatCall_missing position callData :
  callData = JUndefined \/ callData = JNull -> seatCall callData position = None.
Proof. intros [-> | ->]; reflexivity. Qed.

Lemma omap_seatCall_missing callData positions :
  callData = JUndefined \/ callData = JNull ->
  omap (seatCall callData) positions = [].
Proof.
  intros Hmissing. induction positions as [|p ps IH]; [reflexivity|].
  rewrite omap_cons_eq, (seatCall_missing p callData Hmissing). exact IH.
Qed.

(** A returned hand score comes from an object, and its fields are the
    ones the parser read. *)
Lemma parseHandScore_Some handContext scoreData score :
  _parseHandScore handContext scoreData = Return (Some score) ->
  exists fields,
    scoreData = JObj fields
    /\ HandScore.calls score
       = omap (seatCall (default JUndefined (field "calls" fields))) (map snd Position)
    /\ Forall (fun c => isValidCall (Call.call c) = true) (HandScore.calls score)
    /\ HandScore.northSouthScore score = default JUndefined (field "ns_score" fields)
    /\ HandScore.eastWestScore score = default JUndefined (field "ew_score" fields).
Proof.
  unfold _parseHandScore. intros (present & Hpresent & Hrest)%bind_Return.
  apply assertType_object_optional in Hpresent as [-> Hshape].
  destruct Hshape as [-> | [-> | [fields ->]]]; [discriminate Hrest ..|].
  exists fields. split; [reflexivity|]. simpl in Hrest.
  apply bind_Return in Hrest as (callData & HcallData & Hrest).
  apply assertType_object_optional in HcallData as [-> Hshape].
  apply bind_Return in Hrest as (calls & Hcalls & Hrest).
  apply bind_Return in Hrest as (ns & Hns & Hrest).
  apply assertType_Return in Hns as ->.
  apply bind_Return in Hrest as (ew & Hew & Hrest).
  apply assertType_Return in Hew as ->.
  apply bind_Return in Hrest as (notes & _ & [= <-]). simpl.
  assert (calls = omap (seatCall (default JUndefined (field "calls" fields))) (map snd Position)
          /\ Forall (fun c => isValidCall (Call.call c) = true) calls) as [-> Hvalid].
  { destruct Hshape as [Hm | [Hm | [entries Hm]]]; rewrite Hm in *; simpl in Hcalls.
    - injection Hcalls as <-. rewrite omap_seatCall_missing by auto. auto.
    - injection Hcalls as <-. rewrite omap_seatCall_missing by auto. auto.
    - apply bind_Return in Hcalls as (es & Hes & [= <-]).
      apply parseCalls_Return in Hes as [-> Hvalid]. rewrite <- Hm at 1. split; [|exact Hvalid].
      rewrite Hm. reflexivity. }
  auto.
Qed.

(** C10. [_parseHandScore] returns null, and does not throw, when the
    score data is null or undefined; and when it returns a HandScore, the
    calls of that score are exactly one entry per seat whose call is a
    non-empty string, each of them a valid call, the seats whose entry is
    absent, null or empty being left out. *)
Theorem parseHandScore_null_and_calls :
  forall handContext : string,
    _parseHandScore handContext JNull = Return None
    /\ _parseHandScore handContext JUndefined = Return None
    /\ forall scoreData score,
         _parseHandScore handContext scoreData = Return (Some score) ->
         exists fields,
           scoreData = JObj fields
           /\ HandScore.calls score
              = omap (seatCall (default JUndefined (field "calls" fields))) (map snd Position)
           /\ Forall (fun c => isValidCall (Call.call c) = true
                               /\ Call.call c <> EmptyString)
                (HandScore.calls score).
Proof.
  intros handContext. split; [reflexivity|]. split; [reflexivity|].
  intros scoreData score Hscore.
  destruct (parseHandScore_Some _ _ _ Hscore) as (fields & -> & Hcalls & Hvalid & _).
  exists fields. split; [reflexivity|]. split; [exact Hcalls|].
  rewrite Forall_forall in Hvalid |- *. intros c Hc. split; [auto|].
  rewrite Hcalls in Hc.
  apply list_elem_of_omap in Hc as (position & _ & Hseat).
  unfold seatCall in Hseat. repeat case_match; try discriminate.
  injection Hseat as <-. simpl. intros ->. discriminate.
Qed.

End HandScoreProperties.

(** ** The change log *)

Section ChangeLogProperties.
Context `{Collaborators}.

Lemma isNull_true v : isNull v = true <-> v = JNull.
Proof. destruct v; simpl; split; congruence. Qed.

Lemma assertString_Return context value s :
  assertString context value = Return s -> value = JStr s.
Proof.
  unfold assertString. intros (v & Hv & Hs)%bind_Return.
  apply assertType_Return in Hv as ->. destruct value; congruence.
Qed.

Lemma getProp_Return_field v k x :
  getProp v k = Return x -> x <> JUndefined ->
  exists fields, v = JObj fields /\ field k fields = Some x.
Proof.
  destruct v; simpl; try discriminate; try (intros [= <-]; congruence).
  intros [= <-] Hdef. exists fields. split; [reflexivity|].
  destruct (field k fields); simpl in *; congruence.
Qed.

(** C9. For a change-log entry that [_parseChange] accepts, the change of
    the resulting Change is null exactly when the ns_score and ew_score
    of the entry's change object are both null; in every other case it is
    the HandScore that [_parseHandScore] reads from that object. *)
Theorem parseChange_null_iff_deletion :
  forall (data : JSValue) (c : Change.t),
    _parseChange data = Return c ->
    exists fields changeFields,
      data = JObj fields
      /\ field "change" fields = Some (JObj changeFields)
      /\ let ns := default JUndefined (field "ns_score" changeFields) in
         let ew := default JUndefined (field "ew_score" changeFields) in
         (Change.change c = None <-> ns = JNull /\ ew = JNull)
         /\ (~ (ns = JNull /\ ew = JNull) ->
             exists score,
               _parseHandScore "change log change" (JObj changeFields) = Return (Some score)
               /\ Change.change c = Some score).
Proof.
  intros data c. unfold _parseChange.
  intros (ts & Hts & Hrest)%bind_Return.
  apply bind_Return in Hrest as (timestamp_sec & Hsec & Hrest).
  apply assertString_Return in Hsec as ->.
  apply getProp_Return_field in Hts as (fields & -> & _); [|discriminate].
  rewrite !getProp_obj in Hrest. simpl in Hrest.
  apply bind_Return in Hrest as (_ & _ & Hrest).
  apply bind_Return in Hrest as (? & Hobj & Hrest).
  apply assertType_object in Hobj as (changeFields & HchangeFields).
  rewrite HchangeFields in Hrest. simpl in Hrest.
  apply bind_Return in Hrest as (change & Hchange & [= <-]). simpl.
  exists fields, changeFields. split; [reflexivity|]. split.
  { destruct (field "change" fields); simpl in HchangeFields; congruence. }
  set (ns := default JUndefined (field "ns_score" changeFields)) in *.
  set (ew := default JUndefined (field "ew_score" changeFields)) in *.
  destruct (isNull ns && isNull ew) eqn:Hboth.
  - injection Hchange as <-. apply andb_true_iff in Hboth as [Hns Hew].
    rewrite isNull_true in Hns, Hew. split; [tauto|]. tauto.
  - assert (~ (ns = JNull /\ ew = JNull)) as Hnot.
    { intros [Hns Hew]. rewrite <- isNull_true in Hns, Hew.
      rewrite Hns, Hew in Hboth. discriminate. }
    destruct change as [score|].
    + split; [split; [discriminate | tauto]|]. eauto.
    + exfalso. unfold _parseHandScore in Hchange. simpl in Hchange.
      repeat (apply bind_Return in Hchange as (? & _ & Hchange)). discriminate.
Qed.

End ChangeLogProperties.

(** ** Movement rounds *)

Section MovementRoundProperties.
Context `{Collaborators}.

Lemma bind_Return_l {A B} (a : A) (k : A -> Exc B) : bind (Return a) k = k a.
Proof. reflexivity. Qed.

Lemma default_Some {A} (d x : A) : default d (Some x) = x.
Proof. reflexivity. Qed.

Lemma assertType_object_obj context fields :
  assertType context (JObj fields) "object" false = Return (JObj fields).
Proof. reflexivity. Qed.

Lemma assertNumber_num context q : assertNumber context (JNum q) = Return q.
Proof. reflexivity. Qed.

Lemma assertArray_arr context l : assertArray context (JArr l) = Return l.
Proof. reflexivity. Qed.

Lemma assertString_str context s : assertString context (JStr s) = Return s.
Proof. reflexivity. Qed.

(** The first steps of [_parseMovementRound], up to the test on the
    opponent. *)
Lemma parseMovementRound_Return tournamentId pair movementRound index store round store' :
  _parseMovementRound tournamentId pair movementRound index store = (Return round, store') ->
  exists fields roundNo,
    movementRound = JObj fields
    /\ field "round" fields = Some (JNum roundNo)
    /\ MovementRound.roundNo round = roundNo
    /\ MovementRound.isSitOut round
       = isNullOrUndefined (default JUndefined (field "opponent" fields)).
Proof.
  unfold _parseMovementRound. intros Hret.
  apply bindSt_Return in Hret as (? & s1 & Hobj & Hret).
  apply lift_Return in Hobj as [Hobj ->].
  apply assertType_object in Hobj as [fields ->].
  apply bindSt_Return in Hret as (roundNo & s1 & Hround & Hret).
  apply lift_Return in Hround as [Hround ->].
  rewrite getProp_obj in Hround. simpl in Hround.
  apply assertNumber_Return in Hround.
  apply bindSt_Return in Hret as (opponentField & s1 & Hopp & Hret).
  apply lift_Return in Hopp as [Hopp ->]. rewrite getProp_obj in Hopp.
  injection Hopp as <-.
  exists fields, roundNo. split; [reflexivity|]. split.
  { destruct (field "round" fields); simpl in Hround; congruence. }
  destruct (isNullOrUndefined (default JUndefined (field "opponent" fields))) eqn:Hsit.
  - injection Hret as <- <-. auto.
  - apply bindSt_Return in Hret as (opponentNo & s1 & _ & Hret).
    destruct (notPositiveInteger opponentNo); [discriminate Hret|].
    apply bindSt_Return in Hret as (names & s2 & _ & Hret).
    apply bindSt_Return in Hret as (position & s3 & _ & Hret).
    destruct (String.length position <=? 1)%nat; [discriminate Hret|].
    destruct (negb (isValidPairPosition _)); [discriminate Hret|].
    apply bindSt_Return in Hret as (relay & s4 & _ & Hret).
    destruct (if bool_decide _ then _ else _) as [nsPair ewPair].
    apply bindSt_Return in Hret as (handsData & s5 & _ & Hret).
    apply bindSt_Return in Hret as (hands & s6 & _ & Hret).
    injection Hret as <- <-. auto.
Qed.

(** A seated round that is returned carries the last character of the
    position as its position and the rest as its table. *)
Lemma parseMovementRound_seated tournamentId pair fields index store round store' :
  isNullOrUndefined (default JUndefined (field "opponent" fields)) = false ->
  _parseMovementRound tournamentId pair (JObj fields) index store = (Return round, store') ->
  exists position,
    field "position" fields = Some (JStr position)
    /\ (2 <= String.length position)%nat
    /\ MovementRound.position round = Some (lastChar position)
    /\ MovementRound.table round = Some (allButLast position).
Proof.
  unfold _parseMovementRound. intros Hseated Hret.
  apply bindSt_Return in Hret as (? & s1 & _ & Hret).
  apply bindSt_Return in Hret as (roundNo & s2 & _ & Hret).
  apply bindSt_Return in Hret as (opponentField & s3 & Hopp & Hret).
  apply lift_Return in Hopp as [Hopp ->]. rewrite getProp_obj in Hopp.
  injection Hopp as <-. rewrite Hseated in Hret.
  apply bindSt_Return in Hret as (opponentNo & s4 & _ & Hret).
  destruct (notPositiveInteger opponentNo); [discriminate Hret|].
  apply bindSt_Return in Hret as (names & s5 & _ & Hret).
  apply bindSt_Return in Hret as (position & s6 & Hposition & Hret).
  apply lift_Return in Hposition as [Hposition ->].
  rewrite getProp_obj, bind_Return_l in Hposition.
  apply assertString_Return in Hposition.
  destruct (String.length position <=? 1)%nat eqn:Hshort; [discriminate Hret|].
  destruct (negb (isValidPairPosition _)); [discriminate Hret|].
  apply bindSt_Return in Hret as (relay & s7 & _ & Hret).
  destruct (if bool_decide _ then _ else _) as [nsPair ewPair].
  apply bindSt_Return in Hret as (handsData & s8 & _ & Hret).
  apply bindSt_Return in Hret as (hands & s9 & _ & Hret).
  injection Hret as <- <-. exists position. simpl.
  apply Nat.leb_gt in Hshort. repeat split; [|lia].
  destruct (field "position" fields); simpl in Hposition; congruence.
Qed.

(** C7, amended. A movement round with a number as its round and with an
    opponent that is null or absent parses to a sit-out: the round
    returned has its round number and isSitOut set to true, every other
    field being as the constructor left it, and the store is not written;
    a round returned for an object whose opponent is present has isSitOut
    false. *)
Theorem parseMovementRound_sit_out :
  (forall tournamentId pair fields index store roundNo,
      field "round" fields = Some (JNum roundNo) ->
      isNullOrUndefined (default JUndefined (field "opponent" fields)) = true ->
      _parseMovementRound tournamentId pair (JObj fields) index store
      = (Return (MovementRound.setIsSitOut true
                   (MovementRound.setRoundNo roundNo MovementRound.new)),
         store))
  /\ (forall tournamentId pair fields index store round store',
        isNullOrUndefined (default JUndefined (field "opponent" fields)) = false ->
        _parseMovementRound tournamentId pair (JObj fields) index store
        = (Return round, store') ->
        MovementRound.isSitOut round = false).
Proof.
  split.
  - intros tournamentId pair fields index store roundNo Hround Hopp.
    unfold _parseMovementRound, bindSt, lift.
    rewrite assertType_object_obj, !getProp_obj, Hround, !bind_Return_l.
    simpl default at 1. rewrite assertNumber_num, Hopp. reflexivity.
  - intros tournamentId pair fields index store round store' Hopp Hret.
    apply parseMovementRound_Return in Hret as (fields' & roundNo & [= <-] & _ & _ & ->).
    exact Hopp.
Qed.

(** When [tichu.isValidPairPosition] rejects undefined, no seated round
    is ever returned. *)
Lemma parseMovementRound_seated_never_returns
    tournamentId pair fields index store round store' :
  isValidPairPosition JUndefined = false ->
  isNullOrUndefined (default JUndefined (field "opponent" fields)) = false ->
  _parseMovementRound tournamentId pair (JObj fields) index store <> (Return round, store').
Proof.
  unfold _parseMovementRound. intros Hside Hseated Hret.
  apply bindSt_Return in Hret as (? & s1 & _ & Hret).
  apply bindSt_Return in Hret as (roundNo & s2 & _ & Hret).
  apply bindSt_Return in Hret as (opponentField & s3 & Hopp & Hret).
  apply lift_Return in Hopp as [Hopp ->]. rewrite getProp_obj in Hopp.
  injection Hopp as <-. rewrite Hseated in Hret.
  apply bindSt_Return in Hret as (opponentNo & s4 & _ & Hret).
  destruct (notPositiveInteger opponentNo); [discriminate Hret|].
  apply bindSt_Return in Hret as (names & s5 & _ & Hret).
  apply bindSt_Return in Hret as (position & s6 & _ & Hret).
  destruct (String.length position <=? 1)%nat; [discriminate Hret|].
  unfold MovementRound.side in Hret. rewrite Hside in Hret. discriminate Hret.
Qed.

(** C8. Whenever [tichu.isValidPairPosition] rejects undefined, a seated
    round with a positive integer opponent, a list of opponent names and
    a position of two characters or more does not parse:
    [_parseMovementRound] throws "position didn't end in a valid side"
    whatever the position ends in, because the test reads [round.side],
    which nothing assigns. *)
Theorem parseMovementRound_seated_throws :
  isValidPairPosition JUndefined = false ->
  forall tournamentId pair fields index store roundNo opponentNo names position,
    field "round" fields = Some (JNum roundNo) ->
    field "opponent" fields = Some (JNum opponentNo) ->
    notPositiveInteger opponentNo = false ->
    field "opponent_names" fields = Some (JArr names) ->
    field "position" fields = Some (JStr position) ->
    (2 <= String.length position)%nat ->
    _parseMovementRound tournamentId pair (JObj fields) index store
    = (Throw (Error (("movement round[" +:+ Number_toString (Z.of_nat index) +:+ "]")
                     +:+ " position didn't end in a valid side")),
       store).
Proof.
  intros Hside tournamentId pair fields index store roundNo opponentNo names position
    Hround Hopp Hpositive Hnames Hposition Hlength.
  unfold _parseMovementRound, bindSt, lift.
  rewrite assertType_object_obj, !getProp_obj, Hround, Hopp, Hnames, Hposition.
  rewrite !bind_Return_l. cbv beta. rewrite !default_Some.
  rewrite !assertNumber_num, assertArray_arr, assertString_str.
  simpl isNullOrUndefined. cbv beta iota. rewrite Hpositive.
  destruct (String.length position <=? 1)%nat eqn:Hshort.
  { apply Nat.leb_le in Hshort. lia. }
  unfold MovementRound.side. rewrite Hside. reflexivity.
Qed.

End MovementRoundProperties.

(** ** The scored and unscored buckets *)

Section Buckets.

Lemma compareHands_le (a b : HandIdentifier.t) : compareHands a b <= 0 <-> handOrder a b.
Proof.
  unfold compareHands, handOrder.
  destruct (Z.eqb_spec (HandIdentifier.handNo a - HandIdentifier.handNo b) 0); lia.
Qed.

#[local] Instance compareHands_total : Total (fun a b => compareHands a b <= 0).
Proof. intros a b. rewrite !compareHands_le. unfold handOrder. lia. Qed.

#[local] Instance handOrder_transitive : Transitive handOrder.
Proof. intros a b c. unfold handOrder. lia. Qed.

Lemma Sorted_weaken {A} (R R' : relation A) (l : list A) :
  (forall a b, R a b -> R' a b) -> Sorted R l -> Sorted R' l.
Proof.
  intros Himpl. induction 1 as [|x l _ IH Hhd]; constructor; [exact IH|].
  destruct Hhd; constructor; auto.
Qed.

Lemma Array_sort_sorted (l : list HandIdentifier.t) :
  bucketSorted (Array_sort compareHands l).
Proof.
  unfold bucketSorted, Array_sort.
  eapply Sorted_weaken; [|apply Sorted_merge_sort; apply _].
  intros a b. apply compareHands_le.
Qed.

Lemma Array_sort_permutation (l : list HandIdentifier.t) :
  Array_sort compareHands l ≡ₚ l.
Proof. apply merge_sort_Permutation. Qed.

#[local] Instance handNoOrder_transitive : Transitive handNoOrder.
Proof. intros a b c. unfold handNoOrder. lia. Qed.

Lemma bucketSorted_strongly (l : list HandIdentifier.t) :
  bucketSorted l -> StronglySorted handOrder l.
Proof. apply Sorted_StronglySorted; apply _. Qed.

Lemma bucketSorted_handNoSorted (l : list HandIdentifier.t) :
  bucketSorted l -> handNoSorted l.
Proof. apply Sorted_weaken. unfold handOrder, handNoOrder. lia. Qed.

Lemma bucketSorted_remove (before after : list HandIdentifier.t) handId :
  bucketSorted (before ++ handId :: after) -> bucketSorted (before ++ after).
Proof.
  intros Hsorted%bucketSorted_strongly. apply StronglySorted_Sorted.
  apply StronglySorted_app in Hsorted as (Hcross & Hbefore & Hafter).
  apply StronglySorted_cons in Hafter as [_ Hafter].
  apply StronglySorted_app. split; [|split; assumption].
  intros x y Hx Hy. apply Hcross; [exact Hx | right; exact Hy].
Qed.

Lemma namesHand_handNo handNo nsPair ewPair handId :
  namesHand handNo nsPair ewPair handId = true -> HandIdentifier.handNo handId = handNo.
Proof. unfold namesHand. rewrite !andb_true_iff. lia. Qed.

(** On a bucket in ascending hand order the search loop finds the first
    identifier that names the hand, and gives up only when there is none:
    the early [break] skips identifiers of later hands alone. *)
Lemma findHand_sorted handNo nsPair ewPair (l : list HandIdentifier.t) (i : nat) :
  StronglySorted handNoOrder l ->
  match findHand handNo nsPair ewPair l i with
  | Some found =>
      exists before handId after,
        l = (before ++ handId :: after)%list
        /\ found = (i + length before)%nat
        /\ namesHand handNo nsPair ewPair handId = true
        /\ Forall (fun other => namesHand handNo nsPair ewPair other = false) before
  | None => Forall (fun other => namesHand handNo nsPair ewPair other = false) l
  end.
Proof.
  revert i. induction l as [|x l IH]; intros i Hsorted; simpl; [constructor|].
  apply StronglySorted_cons in Hsorted as [Hx Hl].
  destruct (namesHand handNo nsPair ewPair x) eqn:Hnames.
  - exists [], x, l. simpl. repeat split; [lia | assumption | constructor].
  - destruct (Z.gtb_spec (HandIdentifier.handNo x) handNo) as [Hlater|Hnot].
    + constructor; [exact Hnames|].
      eapply Forall_impl; [exact Hx|]. intros y Hxy. simpl in Hxy.
      destruct (namesHand handNo nsPair ewPair y) eqn:Hy; [|reflexivity].
      apply namesHand_handNo in Hy. unfold handNoOrder in Hxy. lia.
    + specialize (IH (S i) Hl).
      destruct (findHand handNo nsPair ewPair l (S i)) as [found|].
      * destruct IH as (before & handId & after & -> & -> & Hhand & Hbefore).
        exists (x :: before), handId, after. simpl.
        repeat split; [lia | assumption | constructor; assumption].
      * constructor; assumption.
Qed.

(** [_changeHandStatus] moves the hand when the bucket it searches is in
    ascending hand order. *)
Lemma changeHandStatus_moves handNo nsPair ewPair
    (from_hands to_hands from_hands' to_hands' : list HandIdentifier.t) :
  handNoSorted from_hands ->
  _changeHandStatus handNo nsPair ewPair from_hands to_hands = (from_hands', to_hands') ->
  movedBetween handNo nsPair ewPair from_hands to_hands from_hands' to_hands'.
Proof.
  intros Hfrom. unfold _changeHandStatus.
  pose proof (findHand_sorted handNo nsPair ewPair from_hands 0
                (Sorted_StronglySorted _ _ Hfrom)) as Hfind.
  destruct (findHand handNo nsPair ewPair from_hands 0) as [found|].
  - destruct Hfind as (before & handId & after & -> & -> & Hhand & Hbefore).
    simpl. rewrite list_lookup_middle by reflexivity.
    rewrite delete_middle. intros [= <- <-].
    left. exists before, handId, after. repeat split; try assumption.
    rewrite Array_sort_permutation. symmetry. apply Permutation_cons_append.
  - intros [= <- <-]. right. auto.
Qed.

(** It leaves sorted buckets sorted. *)
Lemma changeHandStatus_sorted handNo nsPair ewPair
    (from_hands to_hands from_hands' to_hands' : list HandIdentifier.t) :
  bucketSorted from_hands -> bucketSorted to_hands ->
  _changeHandStatus handNo nsPair ewPair from_hands to_hands = (from_hands', to_hands') ->
  bucketSorted from_hands' /\ bucketSorted to_hands'.
Proof.
  intros Hfrom Hto. unfold _changeHandStatus.
  pose proof (findHand_sorted handNo nsPair ewPair from_hands 0
                (Sorted_StronglySorted _ _ (bucketSorted_handNoSorted _ Hfrom))) as Hfind.
  destruct (findHand handNo nsPair ewPair from_hands 0) as [found|].
  - destruct Hfind as (before & handId & after & -> & -> & _ & _).
    simpl. rewrite list_lookup_middle by reflexivity.
    rewrite delete_middle. intros [= <- <-].
    split; [eapply bucketSorted_remove; eassumption | apply Array_sort_sorted].
  - intros [= <- <-]. split; assumption.
Qed.

Lemma scoreRound_moves handNo nsPair ewPair (round : RoundStatus.t) :
  handNoSorted (RoundStatus.unscoredHands round) ->
  roundScored handNo nsPair ewPair round (scoreRound handNo nsPair ewPair round).
Proof.
  intros Hunscored. unfold scoreRound, roundScored.
  destruct (_changeHandStatus handNo nsPair ewPair (RoundStatus.unscoredHands round)
              (RoundStatus.scoredHands round)) as [unscored scored] eqn:Hchange.
  simpl. split; [reflexivity|]. eapply changeHandStatus_moves; eassumption.
Qed.

Lemma unscoreRound_moves handNo nsPair ewPair (round : RoundStatus.t) :
  handNoSorted (RoundStatus.scoredHands round) ->
  roundCleared handNo nsPair ewPair round (unscoreRound handNo nsPair ewPair round).
Proof.
  intros Hscored. unfold unscoreRound, roundCleared.
  destruct (_changeHandStatus handNo nsPair ewPair (RoundStatus.scoredHands round)
              (RoundStatus.unscoredHands round)) as [scored unscored] eqn:Hchange.
  simpl. split; [reflexivity|]. eapply changeHandStatus_moves; eassumption.
Qed.

Lemma Forall2_map_of {A} (f : A -> A) (P : A -> Prop) (Q : A -> A -> Prop) (l : list A) :
  (forall x, P x -> Q x (f x)) -> Forall P l -> Forall2 Q l (map f l).
Proof. intros Hf. induction 1; simpl; constructor; auto. Qed.

Lemma scoreRound_sorted handNo nsPair ewPair (round : RoundStatus.t) :
  roundSorted round ->
  roundScored handNo nsPair ewPair round (scoreRound handNo nsPair ewPair round)
  /\ roundSorted (scoreRound handNo nsPair ewPair round).
Proof.
  intros [Hunscored Hscored].
  split; [apply scoreRound_moves, bucketSorted_handNoSorted, Hunscored|].
  unfold scoreRound, roundSorted.
  destruct (_changeHandStatus handNo nsPair ewPair (RoundStatus.unscoredHands round)
              (RoundStatus.scoredHands round)) as [unscored scored] eqn:Hchange.
  apply changeHandStatus_sorted in Hchange as (Hu & Hs); auto.
Qed.

Lemma unscoreRound_sorted handNo nsPair ewPair (round : RoundStatus.t) :
  roundSorted round ->
  roundCleared handNo nsPair ewPair round (unscoreRound handNo nsPair ewPair round)
  /\ roundSorted (unscoreRound handNo nsPair ewPair round).
Proof.
  intros [Hunscored Hscored].
  split; [apply unscoreRound_moves, bucketSorted_handNoSorted, Hscored|].
  unfold unscoreRound, roundSorted.
  destruct (_changeHandStatus handNo nsPair ewPair (RoundStatus.scoredHands round)
              (RoundStatus.unscoredHands round)) as [scored unscored] eqn:Hchange.
  apply changeHandStatus_sorted in Hchange as (Hs & Hu); auto.
Qed.

Lemma map_rounds_sorted (f : RoundStatus.t -> RoundStatus.t)
    (P : RoundStatus.t -> RoundStatus.t -> Prop) (rounds : list RoundStatus.t) :
  (forall round, roundSorted round -> P round (f round) /\ roundSorted (f round)) ->
  Forall roundSorted rounds ->
  Forall2 P rounds (map f rounds) /\ Forall roundSorted (map f rounds).
Proof.
  intros Hf. induction 1 as [|round rounds Hround _ [IH2 IH]]; simpl.
  - split; constructor.
  - destruct (Hf round Hround). split; constructor; assumption.
Qed.

Lemma updateTournamentStatus_sorted tournamentId handNo nsPair ewPair
    (store : gmap string TournamentStatus.t) (status : TournamentStatus.t) :
  store !! tournamentId = Some status ->
  statusSorted status ->
  exists status',
    _updateTournamentStatus tournamentId handNo nsPair ewPair store !! tournamentId
    = Some status'
    /\ statusSorted status'
    /\ Forall2 (roundScored handNo nsPair ewPair)
         (TournamentStatus.roundStatus status) (TournamentStatus.roundStatus status').
Proof.
  intros Hstatus Hsorted. unfold _updateTournamentStatus. rewrite Hstatus.
  eexists. split; [apply lookup_insert_eq|].
  destruct (map_rounds_sorted (scoreRound handNo nsPair ewPair)
              (roundScored handNo nsPair ewPair) _
              (scoreRound_sorted handNo nsPair ewPair) Hsorted).
  split; assumption.
Qed.

Lemma clearTournamentStatus_sorted tournamentId handNo nsPair ewPair
    (store : gmap string TournamentStatus.t) (status : TournamentStatus.t) :
  store !! tournamentId = Some status ->
  statusSorted status ->
  exists status',
    clearTournamentStatus tournamentId handNo nsPair ewPair store !! tournamentId
    = Some status'
    /\ statusSorted status'
    /\ Forall2 (roundCleared handNo nsPair ewPair)
         (TournamentStatus.roundStatus status) (TournamentStatus.roundStatus status').
Proof.
  intros Hstatus Hsorted. unfold clearTournamentStatus. rewrite Hstatus.
  eexists. split; [apply lookup_insert_eq|].
  destruct (map_rounds_sorted (unscoreRound handNo nsPair ewPair)
              (roundCleared handNo nsPair ewPair) _
              (unscoreRound_sorted handNo nsPair ewPair) Hsorted).
  split; assumption.
Qed.

Lemma updateTournamentStatus_moves tournamentId handNo nsPair ewPair
    (store : gmap string TournamentStatus.t) (status : TournamentStatus.t) :
  store !! tournamentId = Some status ->
  Forall (fun round => handNoSorted (RoundStatus.unscoredHands round))
    (TournamentStatus.roundStatus status) ->
  exists status',
    _updateTournamentStatus tournamentId handNo nsPair ewPair store !! tournamentId
    = Some status'
    /\ Forall2 (roundScored handNo nsPair ewPair)
         (TournamentStatus.roundStatus status) (TournamentStatus.roundStatus status').
Proof.
  intros Hstatus Hsorted. unfold _updateTournamentStatus. rewrite Hstatus.
  eexists. split; [apply lookup_insert_eq|]. simpl.
  eapply Forall2_map_of; [|exact Hsorted]. intros round. apply scoreRound_moves.
Qed.

Lemma clearTournamentStatus_moves tournamentId handNo nsPair ewPair
    (store : gmap string TournamentStatus.t) (status : TournamentStatus.t) :
  store !! tournamentId = Some status ->
  Forall (fun round => handNoSorted (RoundStatus.scoredHands round))
    (TournamentStatus.roundStatus status) ->
  exists status',
    clearTournamentStatus tournamentId handNo nsPair ewPair store !! tournamentId
    = Some status'
    /\ Forall2 (roundCleared handNo nsPair ewPair)
         (TournamentStatus.roundStatus status) (TournamentStatus.roundStatus status').
Proof.
  intros Hstatus Hsorted. unfold clearTournamentStatus. rewrite Hstatus.
  eexists. split; [apply lookup_insert_eq|]. simpl.
  eapply Forall2_map_of; [|exact Hsorted]. intros round. apply unscoreRound_moves.
Qed.

End Buckets.

(** ** Recording and clearing a score *)

Section ScoreProperties.
Context `{Collaborators}.

Lemma getOrCreateHand_lookup tournamentId nsPair ewPair handNo (store : MovementStore.t) :
  MovementStore.hands
    (snd (MovementStore.getOrCreateHand tournamentId nsPair ewPair handNo store))
    !! (tournamentId, nsPair, ewPair, handNo)
  = Some (fst (MovementStore.getOrCreateHand tournamentId nsPair ewPair handNo store)).
Proof.
  unfold MovementStore.getOrCreateHand.
  destruct (MovementStore.hands store !! (tournamentId, nsPair, ewPair, handNo)) eqn:Hhand;
    simpl; [exact Hhand | apply lookup_insert_eq].
Qed.

Lemma getOrCreateHand_present tournamentId nsPair ewPair handNo (store : MovementStore.t) hand :
  MovementStore.hands store !! (tournamentId, nsPair, ewPair, handNo) = Some hand ->
  MovementStore.getOrCreateHand tournamentId nsPair ewPair handNo store = (hand, store).
Proof. unfold MovementStore.getOrCreateHand. intros ->. reflexivity. Qed.

(** After [getOrCreateHand(...).score = value] the store keeps, under the
    key, a hand whose score is [value]. *)
Lemma writeScore_lookup tournamentId nsPair ewPair handNo value (store : MovementStore.t) :
  exists hand,
    MovementStore.hands (writeScore tournamentId nsPair ewPair handNo value store)
      !! (tournamentId, nsPair, ewPair, handNo) = Some hand
    /\ Hand.score hand = value.
Proof.
  unfold writeScore, MovementStore.updateHand. simpl.
  rewrite lookup_alter_eq, getOrCreateHand_lookup. simpl. eauto.
Qed.

Lemma readScore_writeScore tournamentId nsPair ewPair handNo value (store : MovementStore.t) :
  readScore tournamentId nsPair ewPair handNo
    (writeScore tournamentId nsPair ewPair handNo value store) = value.
Proof.
  destruct (writeScore_lookup tournamentId nsPair ewPair handNo value store)
    as (hand & Hhand & Hscore).
  unfold readScore. rewrite (getOrCreateHand_present _ _ _ _ _ _ Hhand). exact Hscore.
Qed.

Lemma getOrCreateHand_idempotent tournamentId nsPair ewPair handNo (store : MovementStore.t) :
  snd (MovementStore.getOrCreateHand tournamentId nsPair ewPair handNo
         (snd (MovementStore.getOrCreateHand tournamentId nsPair ewPair handNo store)))
  = snd (MovementStore.getOrCreateHand tournamentId nsPair ewPair handNo store).
Proof.
  rewrite (getOrCreateHand_present _ _ _ _ _ _ (getOrCreateHand_lookup _ _ _ _ _)).
  reflexivity.
Qed.

Lemma status_405_fails (response : Response.t) :
  Response.status response = 405 -> httpSucceeds response = false.
Proof. unfold httpSucceeds. intros ->. reflexivity. Qed.

(** C1. On a tournament whose cached status has every bucket sorted by
    (handNo, tableNo), a successful recordScore moves the identifier of
    the hand from the unscored to the scored bucket of every round that
    holds it, a successful clearScore moves it back, and in both cases
    every bucket is still sorted and holds what it held, the moved
    identifier apart. *)
Theorem score_moves_keep_buckets_sorted :
  forall tournamentId nsPair ewPair handNo score pairCode response self status,
    Service._tournamentStore self !! tournamentId = Some status ->
    statusSorted status ->
    httpSucceeds response = true ->
    (exists status',
        Service._tournamentStore
          (fst (recordScore tournamentId nsPair ewPair handNo score pairCode response self))
          !! tournamentId = Some status'
        /\ statusSorted status'
        /\ Forall2 (roundScored handNo nsPair ewPair)
             (TournamentStatus.roundStatus status) (TournamentStatus.roundStatus status'))
    /\ (exists status',
          Service._tournamentStore
            (fst (clearScore tournamentId nsPair ewPair handNo pairCode response self))
            !! tournamentId = Some status'
          /\ statusSorted status'
          /\ Forall2 (roundCleared handNo nsPair ewPair)
               (TournamentStatus.roundStatus status) (TournamentStatus.roundStatus status')).
Proof.
  intros tournamentId nsPair ewPair handNo score pairCode response self status
    Hstatus Hsorted Hok.
  unfold recordScore, clearScore. rewrite Hok. simpl. split.
  - eapply updateTournamentStatus_sorted; eassumption.
  - eapply clearTournamentStatus_sorted; eassumption.
Qed.

(** C2. When the request of recordScore fails with a status other than
    405, the service is left as it was (no cached score is written, no
    identifier changes bucket) and the promise rejects with the error of
    the shared error handler. *)
Theorem recordScore_failure_leaves_state :
  forall tournamentId nsPair ewPair handNo score pairCode response self,
    httpSucceeds response = false ->
    Response.status response <> 405 ->
    recordScore tournamentId nsPair ewPair handNo score pairCode response self
    = (self,
       Rejected (RpcRejection
         (rpcErrorFor (handPath tournamentId handNo nsPair ewPair) true response))).
Proof.
  intros tournamentId nsPair ewPair handNo score pairCode response self Hfails Hstatus.
  unfold recordScore. rewrite Hfails.
  destruct (Z.eqb_spec (Response.status response) 405); [contradiction | reflexivity].
Qed.

(** C3, amended. When the request of recordScore fails with status 405
    and [_parseHandScore] accepts the body of the response, the cached
    hand gets the parsed score (null for a missing body), the hand-status
    buckets of the tournament go through [_updateTournamentStatus], which
    moves the hand to the scored bucket of every round whose unscored
    bucket is in ascending hand order, and the promise rejects with an
    RpcError whose updatedState is true. *)
Theorem recordScore_405_updates_state :
  forall tournamentId nsPair ewPair handNo score pairCode response self parsed,
    Response.status response = 405 ->
    _parseHandScore "hand score rejection" (Response.data response) = Return parsed ->
    exists self' rejection,
      recordScore tournamentId nsPair ewPair handNo score pairCode response self
      = (self', Rejected (RpcRejection rejection))
      /\ RpcError.updatedState rejection = true
      /\ readScore tournamentId nsPair ewPair handNo (Service._movementStore self') = parsed
      /\ Service._tournamentStore self'
         = _updateTournamentStatus tournamentId handNo nsPair ewPair
             (Service._tournamentStore self)
      /\ forall status,
           Service._tournamentStore self !! tournamentId = Some status ->
           Forall (fun round => handNoSorted (RoundStatus.unscoredHands round))
             (TournamentStatus.roundStatus status) ->
           exists status',
             Service._tournamentStore self' !! tournamentId = Some status'
             /\ Forall2 (roundScored handNo nsPair ewPair)
                  (TournamentStatus.roundStatus status)
                  (TournamentStatus.roundStatus status').
Proof.
  intros tournamentId nsPair ewPair handNo score pairCode response self parsed
    Hstatus Hparsed.
  unfold recordScore. rewrite (status_405_fails _ Hstatus), Hstatus, Hparsed. simpl.
  eexists _, _. split; [reflexivity|]. split; [reflexivity|]. split; [|split].
  - unfold writeScore. rewrite getOrCreateHand_idempotent.
    apply (readScore_writeScore tournamentId nsPair ewPair handNo parsed).
  - reflexivity.
  - intros status Hlookup Hsorted.
    exact (updateTournamentStatus_moves tournamentId handNo nsPair ewPair _ _
             Hlookup Hsorted).
Qed.

(** C4. After a successful recordScore the movement store keeps the
    submitted score under the key of the hand: reading the hand back,
    with no write in between, gives the calls, the north-south score, the
    east-west score and the notes that were submitted, and the read
    itself writes nothing. *)
Theorem recordScore_then_read :
  forall tournamentId nsPair ewPair handNo score pairCode response self,
    httpSucceeds response = true ->
    exists self',
      recordScore tournamentId nsPair ewPair handNo score pairCode response self
      = (self', Fulfilled tt)
      /\ readScore tournamentId nsPair ewPair handNo (Service._movementStore self')
         = Some score
      /\ snd (MovementStore.getOrCreateHand tournamentId nsPair ewPair handNo
                (Service._movementStore self'))
         = Service._movementStore self'
      /\ exists hand,
           MovementStore.hands (Service._movementStore self')
             !! (tournamentId, nsPair, ewPair, handNo) = Some hand
           /\ (HandScore.calls <$> Hand.score hand) = Some (HandScore.calls score)
           /\ (HandScore.northSouthScore <$> Hand.score hand)
              = Some (HandScore.northSouthScore score)
           /\ (HandScore.eastWestScore <$> Hand.score hand)
              = Some (HandScore.eastWestScore score)
           /\ (HandScore.notes <$> Hand.score hand) = Some (HandScore.notes score).
Proof.
  intros tournamentId nsPair ewPair handNo score pairCode response self Hok.
  unfold recordScore. rewrite Hok. eexists. split; [reflexivity|]. simpl.
  destruct (writeScore_lookup tournamentId nsPair ewPair handNo (Some score)
              (Service._movementStore self)) as (hand & Hhand & Hscore).
  split; [apply readScore_writeScore|]. split.
  - rewrite (getOrCreateHand_present _ _ _ _ _ _ Hhand). reflexivity.
  - exists hand. rewrite Hscore. auto.
Qed.

(** C5, amended. After a successful clearScore the cached hand has a
    null score, and when the tournament has a cached status whose scored
    buckets are in ascending hand order (as the server sends them and as
    the service keeps them), the identifier of the hand moves from the
    scored to the unscored bucket of every round that holds it. *)
Theorem clearScore_clears_and_unscores :
  forall tournamentId nsPair ewPair handNo pairCode response self,
    httpSucceeds response = true ->
    exists self',
      clearScore tournamentId nsPair ewPair handNo pairCode response self
      = (self', Fulfilled tt)
      /\ readScore tournamentId nsPair ewPair handNo (Service._movementStore self') = None
      /\ forall status,
           Service._tournamentStore self !! tournamentId = Some status ->
           Forall (fun round => handNoSorted (RoundStatus.scoredHands round))
             (TournamentStatus.roundStatus status) ->
           exists status',
             Service._tournamentStore self' !! tournamentId = Some status'
             /\ Forall2 (roundCleared handNo nsPair ewPair)
                  (TournamentStatus.roundStatus status)
                  (TournamentStatus.roundStatus status').
Proof.
  intros tournamentId nsPair ewPair handNo pairCode response self Hok.
  unfold clearScore. rewrite Hok. eexists. split; [reflexivity|]. simpl.
  split; [apply readScore_writeScore|].
  intros status Hlookup Hsorted.
  exact (clearTournamentStatus_moves tournamentId handNo nsPair ewPair _ _
           Hlookup Hsorted).
Qed.

End ScoreProperties.

(** ** Movement requests in flight *)

Section SingleFlight.
Context `{Collaborators}.

Lemma cacheConsistent_start : cacheConsistent Service.start.
Proof.
  unfold cacheConsistent, Service.start. simpl.
  repeat split; intros *; rewrite lookup_empty; discriminate.
Qed.

Lemma recordScore_caches tournamentId nsPair ewPair handNo score pairCode response self :
  let self' :=
    fst (recordScore tournamentId nsPair ewPair handNo score pairCode response self) in
  Service._movementPromiseCache self' = Service._movementPromiseCache self
  /\ Service.inFlight self' = Service.inFlight self
  /\ Service.nextPromise self' = Service.nextPromise self.
Proof. unfold recordScore. repeat case_match; simpl; auto. Qed.

Lemma clearScore_caches tournamentId nsPair ewPair handNo pairCode response self :
  let self' := fst (clearScore tournamentId nsPair ewPair handNo pairCode response self) in
  Service._movementPromiseCache self' = Service._movementPromiseCache self
  /\ Service.inFlight self' = Service.inFlight self
  /\ Service.nextPromise self' = Service.nextPromise self.
Proof. unfold clearScore. repeat case_match; simpl; auto. Qed.

Lemma cacheConsistent_same (self self' : Service.t) :
  Service._movementPromiseCache self' = Service._movementPromiseCache self
  /\ Service.inFlight self' = Service.inFlight self
  /\ Service.nextPromise self' = Service.nextPromise self ->
  cacheConsistent self -> cacheConsistent self'.
Proof. unfold cacheConsistent. intros (-> & -> & ->). auto. Qed.

Lemma getMovement_consistent tournamentId pairNo pairCode refresh self :
  cacheConsistent self ->
  cacheConsistent (snd (getMovement tournamentId pairNo pairCode refresh self)).
Proof.
  intros Hinv. unfold getMovement.
  destruct (negb refresh && _).
  { destruct (MovementStore.getOrCreateMovement _ _ _) as [movement store].
    revert Hinv. apply cacheConsistent_same. auto. }
  set (key := movementPromiseCacheKey tournamentId pairNo pairCode).
  destruct (Service._movementPromiseCache self !! key) as [promise|] eqn:Hcache;
    [exact Hinv|].
  destruct Hinv as (Hflight & Hcached & Hfresh).
  unfold cacheConsistent. simpl. split; [|split].
  - intros promise request. rewrite lookup_insert. case_decide as Hp.
    + intros [= <-]. simpl. subst promise. apply lookup_insert_eq.
    + intros Hrequest. rewrite lookup_insert_ne; [eauto|].
      intros Hkey. apply Hflight in Hrequest. congruence.
  - intros key' promise. rewrite lookup_insert. case_decide as Hk.
    + intros [= <-]. eexists. rewrite lookup_insert_eq. subst key'. auto.
    + intros Hpromise. destruct (Hcached _ _ Hpromise) as (request & Hrequest & Hkey).
      exists request. split; [|exact Hkey].
      rewrite lookup_insert_ne; [exact Hrequest|].
      apply Hfresh in Hrequest. lia.
  - intros promise request. rewrite lookup_insert. case_decide as Hp.
    + intros _. lia.
    + intros Hrequest%Hfresh. lia.
Qed.

Lemma getMovement_settle_consistent promise response self :
  cacheConsistent self ->
  cacheConsistent (fst (getMovement_settle promise response self)).
Proof.
  intros Hinv. unfold getMovement_settle.
  destruct (Service.inFlight self !! promise) as [request|] eqn:Hrequest; [|exact Hinv].
  destruct (if httpSucceeds response then _ else _) as [outcome store].
  destruct Hinv as (Hflight & Hcached & Hfresh).
  unfold cacheConsistent. simpl. split; [|split].
  - intros p r. rewrite lookup_delete. case_decide as Hp; [discriminate|].
    intros Hr. rewrite lookup_delete_ne; [eauto|].
    intros Hkey. apply Hflight in Hr. apply Hflight in Hrequest. congruence.
  - intros key p. rewrite lookup_delete. case_decide as Hk; [discriminate|].
    intros Hp. destruct (Hcached _ _ Hp) as (r & Hr & Hkey).
    exists r. split; [|exact Hkey]. rewrite lookup_delete_ne; [exact Hr|].
    intros <-. congruence.
  - intros p r. rewrite lookup_delete. case_decide; [discriminate|]. eauto.
Qed.

Lemma step_consistent self e : cacheConsistent self -> cacheConsistent (step self e).
Proof.
  destruct e; simpl.
  - apply getMovement_consistent.
  - apply getMovement_settle_consistent.
  - apply cacheConsistent_same, recordScore_caches.
  - apply cacheConsistent_same, clearScore_caches.
Qed.

Lemma run_consistent self events : cacheConsistent self -> cacheConsistent (run self events).
Proof.
  revert self. induction events as [|e events IH]; intros self Hinv; simpl; [exact Hinv|].
  apply IH, step_consistent, Hinv.
Qed.

Lemma reachable_consistent self : reachable self -> cacheConsistent self.
Proof. intros [events ->]. apply run_consistent, cacheConsistent_start. Qed.

(** A request stays in flight until its own response arrives. *)
Lemma step_keeps_inFlight self e promise request :
  cacheConsistent self ->
  Service.inFlight self !! promise = Some request ->
  ~ completes promise e ->
  Service.inFlight (step self e) !! promise = Some request.
Proof.
  intros (_ & _ & Hfresh) Hrequest Hother. destruct e; simpl in *.
  - unfold getMovement. destruct (negb refresh && _).
    { destruct (MovementStore.getOrCreateMovement _ _ _). exact Hrequest. }
    destruct (Service._movementPromiseCache self !! _); [exact Hrequest|]. simpl.
    rewrite lookup_insert_ne; [exact Hrequest|]. apply Hfresh in Hrequest. lia.
  - unfold getMovement_settle.
    destruct (Service.inFlight self !! promise0) as [r|]; [|exact Hrequest].
    destruct (if httpSucceeds response then _ else _). simpl.
    rewrite lookup_delete_ne; [exact Hrequest | exact Hother].
  - destruct (recordScore_caches tournamentId nsPair ewPair handNo score pairCode
                response self) as (_ & -> & _). exact Hrequest.
  - destruct (clearScore_caches tournamentId nsPair ewPair handNo pairCode
                response self) as (_ & -> & _). exact Hrequest.
Qed.

Lemma run_keeps_inFlight self events promise request :
  cacheConsistent self ->
  Service.inFlight self !! promise = Some request ->
  Forall (fun e => ~ completes promise e) events ->
  cacheConsistent (run self events)
  /\ Service.inFlight (run self events) !! promise = Some request.
Proof.
  revert self. induction events as [|e events IH]; intros self Hinv Hrequest Hevents; simpl.
  - auto.
  - apply Forall_cons in Hevents as [He Hevents]. apply IH.
    + apply step_consistent, Hinv.
    + apply step_keeps_inFlight; assumption.
    + exact Hevents.
Qed.

(** While a request is in flight in a state the service can reach, the
    promise cache keeps its promise under its key: later calls for the
    key share the promise. *)
Lemma getMovement_shared_while_pending self promise request events :
  reachable self ->
  Service.inFlight self !! promise = Some request ->
  Forall (fun e => ~ completes promise e) events ->
  Service._movementPromiseCache (run self events) !! InFlight.cacheKey request
  = Some promise.
Proof.
  intros Hreach%reachable_consistent Hrequest Hevents.
  destruct (run_keeps_inFlight self events _ _ Hreach Hrequest Hevents)
    as [(Hcached & _ & _) Hstill].
  exact (Hcached _ _ Hstill).
Qed.

(** Promise numbers only grow, so a request stays in flight until its own
    response arrives, whatever the state it was issued in. *)
Lemma step_keeps_pending self e promise request :
  Service.inFlight self !! promise = Some request ->
  (promise < Service.nextPromise self)%nat ->
  ~ completes promise e ->
  Service.inFlight (step self e) !! promise = Some request
  /\ (promise < Service.nextPromise (step self e))%nat.
Proof.
  intros Hrequest Hfresh Hother. destruct e; simpl in *.
  - unfold getMovement. destruct (negb refresh && _).
    { destruct (MovementStore.getOrCreateMovement _ _ _). auto. }
    destruct (Service._movementPromiseCache self !! _); [auto|]. simpl.
    split; [|lia]. rewrite lookup_insert_ne; [exact Hrequest | lia].
  - unfold getMovement_settle.
    destruct (Service.inFlight self !! promise0) as [r|]; [|auto].
    destruct (if httpSucceeds response then _ else _). simpl.
    split; [|exact Hfresh]. rewrite lookup_delete_ne; [exact Hrequest | exact Hother].
  - destruct (recordScore_caches tournamentId nsPair ewPair handNo score pairCode
                response self) as (_ & -> & ->). auto.
  - destruct (clearScore_caches tournamentId nsPair ewPair handNo pairCode
                response self) as (_ & -> & ->). auto.
Qed.

Lemma run_keeps_pending self events promise request :
  Service.inFlight self !! promise = Some request ->
  (promise < Service.nextPromise self)%nat ->
  Forall (fun e => ~ completes promise e) events ->
  Service.inFlight (run self events) !! promise = Some request.
Proof.
  revert self. induction events as [|e events IH]; intros self Hrequest Hfresh Hevents;
    simpl; [exact Hrequest|].
  apply Forall_cons in Hevents as [He Hevents].
  destruct (step_keeps_pending self e promise request Hrequest Hfresh He).
  apply IH; assumption.
Qed.

(** C6. When the movement is not in the store or a refresh is asked for:
    if the promise cache holds a promise under the key built from
    (tournamentId, pairNo, pairCode), [getMovement] returns that promise
    and leaves the service as it is, so no request is sent; if it holds
    none, [getMovement] sends one request and caches its promise under
    the key, and the response to that request, success or failure alike
    and whatever happened meanwhile, removes the entry. *)
Theorem getMovement_single_flight :
  forall self tournamentId pairNo pairCode refresh,
    refresh = true
    \/ MovementStore.hasMovement tournamentId pairNo (Service._movementStore self) = false ->
    let key := movementPromiseCacheKey tournamentId pairNo pairCode in
    (forall promise,
        Service._movementPromiseCache self !! key = Some promise ->
        getMovement tournamentId pairNo pairCode refresh self = (Pending promise, self))
    /\ (Service._movementPromiseCache self !! key = None ->
        exists promise self',
          getMovement tournamentId pairNo pairCode refresh self = (Pending promise, self')
          /\ Service.issued self'
             = (Service.issued self ++ [getMovement_request tournamentId pairNo pairCode])%list
          /\ Service._movementPromiseCache self' !! key = Some promise
          /\ forall events response,
               Forall (fun e => ~ completes promise e) events ->
               Service._movementPromiseCache
                 (step (run self' events) (MovementResponse promise response))
                 !! key = None).
Proof.
  intros self tournamentId pairNo pairCode refresh Hmiss key.
  assert (negb refresh
          && MovementStore.hasMovement tournamentId pairNo (Service._movementStore self)
          = false) as Hguard.
  { destruct Hmiss as [-> | ->]; [reflexivity | apply andb_false_r]. }
  split.
  - intros promise Hcache. unfold getMovement. rewrite Hguard. fold key.
    rewrite Hcache. reflexivity.
  - intros Hcache. unfold getMovement. rewrite Hguard. fold key. rewrite Hcache.
    eexists _, _. split; [reflexivity|]. split; [reflexivity|]. simpl.
    split; [apply lookup_insert_eq|].
    intros events response Hevents.
    match goal with |- context [run ?s events] => set (self' := s) end.
    assert (Service.inFlight (run self' events) !! Service.nextPromise self
            = Some {| InFlight.cacheKey := key;
                      InFlight.path := movementPath tournamentId pairNo;
                      InFlight.tournamentId := tournamentId;
                      InFlight.pairNo := pairNo |}) as Hstill.
    { apply run_keeps_pending; [apply lookup_insert_eq | simpl; lia | exact Hevents]. }
    unfold getMovement_settle. rewrite Hstill.
    destruct (if httpSucceeds response then _ else _). simpl.
    apply lookup_delete_eq.
Qed.

End SingleFlight.

(** * Worked examples *)

Example parseHandScore_sample :
  @_parseHandScore documented "hand" Sample.scoreData = Return (Some Sample.score).
Proof. reflexivity. Qed.

(** Scoring hand 3 of pairs 4 and 6 in the round of the sample status. *)
Example scoreRound_sample :
  TournamentStatus.roundStatus Sample.status
  = [ {| RoundStatus.roundNo := 1;
         RoundStatus.unscoredHands :=
           [Sample.identifier 1 2 1 2; Sample.identifier 1 3 1 2; Sample.identifier 2 3 4 6];
         RoundStatus.scoredHands :=
           [Sample.identifier 1 1 1 2; Sample.identifier 2 1 4 6; Sample.identifier 2 2 4 6] |} ]
  /\ scoreRound 3 4 6 <$> TournamentStatus.roundStatus Sample.status
     = [ {| RoundStatus.roundNo := 1;
            RoundStatus.unscoredHands :=
              [Sample.identifier 1 2 1 2; Sample.identifier 1 3 1 2];
            RoundStatus.scoredHands :=
              [Sample.identifier 1 1 1 2; Sample.identifier 2 1 4 6;
               Sample.identifier 2 2 4 6; Sample.identifier 2 3 4 6] |} ].
Proof. split; reflexivity. Qed.

(** The comparison function breaks ties on the hand number by table. *)
Example Array_sort_sample :
  Array_sort compareHands
    [Sample.identifier 2 3 4 6; Sample.identifier 1 3 1 2; Sample.identifier 4 1 7 8]
  = [Sample.identifier 4 1 7 8; Sample.identifier 1 3 1 2; Sample.identifier 2 3 4 6].
Proof. reflexivity. Qed.

Ltac sorted_by_computation :=
  repeat first [ progress (unfold handOrder; simpl); lia | constructor ].

Lemma sample_status_sorted : statusSorted Sample.status.
Proof.
  unfold statusSorted, Sample.status. simpl.
  constructor; [|constructor]. split; unfold bucketSorted; simpl; sorted_by_computation.
Defined.

Lemma sample_status_cached :
  Service._tournamentStore Sample.service !! "t1" = Some Sample.status.
Proof. apply lookup_singleton_eq. Defined.

(** C1 on the sample status: hand 3 of pairs 4 and 6 is scored, or
    cleared, with the tournament's status in the cache. *)
Lemma score_moves_keep_buckets_sorted_witness :
  Service._tournamentStore Sample.service !! "t1" = Some Sample.status
  /\ statusSorted Sample.status
  /\ httpSucceeds Sample.noContent = true
  /\ (exists status',
         Service._tournamentStore
           (fst (@recordScore documented "t1" 4 6 3 Sample.score None Sample.noContent
                   Sample.service))
           !! "t1" = Some status'
         /\ statusSorted status'
         /\ Forall2 (roundScored 3 4 6)
              (TournamentStatus.roundStatus Sample.status)
              (TournamentStatus.roundStatus status'))
  /\ (exists status',
         Service._tournamentStore
           (fst (@clearScore documented "t1" 4 6 3 None Sample.noContent Sample.service))
           !! "t1" = Some status'
         /\ statusSorted status'
         /\ Forall2 (roundCleared 3 4 6)
              (TournamentStatus.roundStatus Sample.status)
              (TournamentStatus.roundStatus status')).
Proof.
  split; [exact sample_status_cached|]. split; [exact sample_status_sorted|].
  split; [reflexivity|].
  exact (@score_moves_keep_buckets_sorted documented "t1" 4 6 3 Sample.score None
           Sample.noContent Sample.service Sample.status
           sample_status_cached sample_status_sorted eq_refl).
Defined.

(** C2 on a server error. *)
Lemma recordScore_failure_leaves_state_witness :
  httpSucceeds Sample.serverError = false
  /\ Response.status Sample.serverError <> 405
  /\ @recordScore documented "t1" 4 6 3 Sample.score None Sample.serverError Sample.service
     = (Sample.service,
        Rejected (RpcRejection
          (@rpcErrorFor documented (handPath "t1" 3 4 6) true Sample.serverError))).
Proof.
  assert (Response.status Sample.serverError <> 405) as Hstatus by (simpl; lia).
  split; [reflexivity|]. split; [exact Hstatus|].
  exact (@recordScore_failure_leaves_state documented "t1" 4 6 3 Sample.score None
           Sample.serverError Sample.service eq_refl Hstatus).
Defined.

(** C3, as stated, fails on a 405 whose body is an object without
    scores: the parser throws inside the error handler, so the promise
    rejects with that Error and not with an RpcError, the cached hand (made
    by the lookup) has no score, and no identifier changes bucket. *)
Lemma recordScore_405_malformed_body :
  Response.status Sample.notAllowedMessage = 405
  /\ exists self',
       @recordScore documented "t1" 4 6 3 Sample.score None Sample.notAllowedMessage
         Sample.service
       = (self',
          Rejected (Uncaught
            (Error "hand score rejection north/south score was not present")))
       /\ readScore "t1" 4 6 3 (Service._movementStore self') = None
       /\ Service._tournamentStore self' = Service._tournamentStore Sample.service.
Proof.
  split; [reflexivity|]. eexists. split; [reflexivity|]. split; reflexivity.
Defined.

(** C3, amended, on a 405 that carries the stored score. *)
Lemma recordScore_405_updates_state_witness :
  Response.status Sample.notAllowed = 405
  /\ @_parseHandScore documented "hand score rejection" (Response.data Sample.notAllowed)
     = Return (Some Sample.score)
  /\ exists self' rejection,
       @recordScore documented "t1" 4 6 3 Sample.score None Sample.notAllowed Sample.service
       = (self', Rejected (RpcRejection rejection))
       /\ RpcError.updatedState rejection = true
       /\ readScore "t1" 4 6 3 (Service._movementStore self') = Some Sample.score
       /\ Service._tournamentStore self'
          = _updateTournamentStatus "t1" 3 4 6 (Service._tournamentStore Sample.service)
       /\ forall status,
            Service._tournamentStore Sample.service !! "t1" = Some status ->
            Forall (fun round => handNoSorted (RoundStatus.unscoredHands round))
              (TournamentStatus.roundStatus status) ->
            exists status',
              Service._tournamentStore self' !! "t1" = Some status'
              /\ Forall2 (roundScored 3 4 6)
                   (TournamentStatus.roundStatus status)
                   (TournamentStatus.roundStatus status').
Proof.
  split; [reflexivity|]. split; [reflexivity|].
  exact (@recordScore_405_updates_state documented "t1" 4 6 3 Sample.score None
           Sample.notAllowed Sample.service (Some Sample.score) eq_refl eq_refl).
Defined.

(** C4 on the sample score. *)
Lemma recordScore_then_read_witness :
  httpSucceeds Sample.noContent = true
  /\ exists self',
       @recordScore documented "t1" 4 6 3 Sample.score None Sample.noContent Sample.service
       = (self', Fulfilled tt)
       /\ readScore "t1" 4 6 3 (Service._movementStore self') = Some Sample.score
       /\ snd (MovementStore.getOrCreateHand "t1" 4 6 3 (Service._movementStore self'))
          = Service._movementStore self'
       /\ exists hand,
            MovementStore.hands (Service._movementStore self') !! ("t1", 4, 6, 3) = Some hand
            /\ (HandScore.calls <$> Hand.score hand) = Some (HandScore.calls Sample.score)
            /\ (HandScore.northSouthScore <$> Hand.score hand)
               = Some (HandScore.northSouthScore Sample.score)
            /\ (HandScore.eastWestScore <$> Hand.score hand)
               = Some (HandScore.eastWestScore Sample.score)
            /\ (HandScore.notes <$> Hand.score hand) = Some (HandScore.notes Sample.score).
Proof.
  split; [reflexivity|].
  exact (@recordScore_then_read documented "t1" 4 6 3 Sample.score None
           Sample.noContent Sample.service eq_refl).
Defined.

(** C5 on the sample status. *)
Lemma clearScore_clears_and_unscores_witness :
  httpSucceeds Sample.noContent = true
  /\ exists self',
       @clearScore documented "t1" 4 6 2 None Sample.noContent Sample.service
       = (self', Fulfilled tt)
       /\ readScore "t1" 4 6 2 (Service._movementStore self') = None
       /\ forall status,
            Service._tournamentStore Sample.service !! "t1" = Some status ->
            Forall (fun round => handNoSorted (RoundStatus.scoredHands round))
              (TournamentStatus.roundStatus status) ->
            exists status',
              Service._tournamentStore self' !! "t1" = Some status'
              /\ Forall2 (roundCleared 2 4 6)
                   (TournamentStatus.roundStatus status)
                   (TournamentStatus.roundStatus status').
Proof.
  split; [reflexivity|].
  exact (@clearScore_clears_and_unscores documented "t1" 4 6 2 None
           Sample.noContent Sample.service eq_refl).
Defined.

(** C6 on a fresh service: the first call for pair 7 of tournament t1. *)
Lemma getMovement_single_flight_witness :
  (false = true
   \/ MovementStore.hasMovement "t1" 7 (Service._movementStore Service.start) = false)
  /\ (forall promise,
         Service._movementPromiseCache Service.start
           !! movementPromiseCacheKey "t1" 7 (Some "MANQ") = Some promise ->
         getMovement "t1" 7 (Some "MANQ") false Service.start
         = (Pending promise, Service.start))
  /\ (Service._movementPromiseCache Service.start
        !! movementPromiseCacheKey "t1" 7 (Some "MANQ") = None ->
      exists promise self',
        getMovement "t1" 7 (Some "MANQ") false Service.start
        = (Pending promise, self')
        /\ Service.issued self'
           = (Service.issued Service.start
                ++ [getMovement_request "t1" 7 (Some "MANQ")])%list
        /\ Service._movementPromiseCache self'
             !! movementPromiseCacheKey "t1" 7 (Some "MANQ") = Some promise
        /\ forall events response,
             Forall (fun e => ~ completes promise e) events ->
             Service._movementPromiseCache
               (@step documented (@run documented self' events)
                  (MovementResponse promise response))
               !! movementPromiseCacheKey "t1" 7 (Some "MANQ") = None).
Proof.
  assert (false = true
          \/ MovementStore.hasMovement "t1" 7 (Service._movementStore Service.start) = false)
    as Hmiss by (right; reflexivity).
  split; [exact Hmiss|].
  exact (@getMovement_single_flight documented Service.start "t1" 7 (Some "MANQ") false
           Hmiss).
Defined.

(** Two calls for the same key share one request, and its failure
    clears the cache. *)
Example getMovement_twice :
  let first := getMovement "t1" 7 (Some "MANQ") false Service.start in
  let second := getMovement "t1" 7 (Some "MANQ") false (snd first) in
  fst first = Pending 0
  /\ fst second = Pending 0
  /\ Service.issued (snd second) = [getMovement_request "t1" 7 (Some "MANQ")]
  /\ Service._movementPromiseCache
       (fst (@getMovement_settle documented 0 Sample.serverError (snd second))) = ∅.
Proof. repeat split; reflexivity. Qed.

Example movementPromiseCacheKey_sample :
  movementPromiseCacheKey "t/1" 7 (Some "MANQ") = "t%2F1/7/MANQ"
  /\ movementPromiseCacheKey "t1" 7 None = "t1/7/".
Proof. split; reflexivity. Qed.

(** C7 on a round without opponent, and, with collaborators that let a
    seated round through, on the first round of the movement response. *)
Lemma parseMovementRound_sit_out_witness :
  @_parseMovementRound documented "t1" (TournamentPair.new 1) (JObj Sample.sitOutRound)
    2 MovementStore.empty
  = (Return {| MovementRound.roundNo := 3; MovementRound.isSitOut := true;
               MovementRound.opponent := None; MovementRound.position := None;
               MovementRound.table := None; MovementRound.hands := [];
               MovementRound.isRelayTable := false |},
     MovementStore.empty)
  /\ exists store',
       @_parseMovementRound permissive "t1" (TournamentPair.new 1)
         (JObj Sample.seatedRound) 0 MovementStore.empty
       = (Return Sample.seatedParsed, store')
       /\ readScore "t1" 1 2 13 store' = Some Sample.score
       /\ readScore "t1" 1 2 14 store' = None
       /\ MovementRound.isSitOut Sample.seatedParsed = false.
Proof.
  split.
  - exact (proj1 (@parseMovementRound_sit_out documented) "t1" (TournamentPair.new 1)
             Sample.sitOutRound 2%nat MovementStore.empty 3%Q eq_refl eq_refl).
  - assert (@_parseMovementRound permissive "t1" (TournamentPair.new 1)
              (JObj Sample.seatedRound) 0 MovementStore.empty
            = (Return Sample.seatedParsed,
               snd (@_parseMovementRound permissive "t1" (TournamentPair.new 1)
                      (JObj Sample.seatedRound) 0 MovementStore.empty))) as Hparsed
      by (vm_compute; reflexivity).
    eexists. split; [exact Hparsed|]. split; [vm_compute; reflexivity|].
    split; [vm_compute; reflexivity|].
    exact (proj2 (@parseMovementRound_sit_out permissive) "t1" (TournamentPair.new 1)
             Sample.seatedRound 0%nat MovementStore.empty _ _ eq_refl Hparsed).
Defined.

(** C8 on the first round of the movement response of docs/api.md, whose
    position "3N" ends in a valid side: the parser throws. *)
Lemma parseMovementRound_seated_throws_witness :
  @isValidPairPosition documented JUndefined = false
  /\ notPositiveInteger 2 = false
  /\ (2 <= String.length "3N")%nat
  /\ @isValidPairPosition documented (JStr (lastChar "3N")) = true
  /\ @_parseMovementRound documented "t1" (TournamentPair.new 1) (JObj Sample.seatedRound)
       0 MovementStore.empty
     = (Throw (Error "movement round[0] position didn't end in a valid side"),
        MovementStore.empty).
Proof.
  split; [reflexivity|]. split; [reflexivity|]. split; [simpl; lia|].
  split; [reflexivity|].
  exact (@parseMovementRound_seated_throws documented eq_refl "t1" (TournamentPair.new 1)
           Sample.seatedRound 0%nat MovementStore.empty 1%Q 2%Q
           [JStr "Peter the Positive"; JStr "Christopher the Columbus"] "3N"
           eq_refl eq_refl eq_refl eq_refl eq_refl (le_n 2)).
Defined.

(** C9 on a deletion entry and on a scoring entry. *)
Lemma parseChange_null_iff_deletion_witness :
  (@_parseChange documented Sample.deletion
   = Return {| Change.change := None; Change.changedBy := JNum 0;
               Change.timestamp := "1482804837.85" |})
  /\ (@_parseChange documented Sample.scoring
      = Return {| Change.change := Some Sample.score; Change.changedBy := JNum 1;
                  Change.timestamp := "1482804384.03" |})
  /\ (exists fields changeFields,
         Sample.deletion = JObj fields
         /\ field "change" fields = Some (JObj changeFields)
         /\ (@None HandScore.t = None
             <-> default JUndefined (field "ns_score" changeFields) = JNull
                 /\ default JUndefined (field "ew_score" changeFields) = JNull))
  /\ (exists fields changeFields,
         Sample.scoring = JObj fields
         /\ field "change" fields = Some (JObj changeFields)
         /\ (Some Sample.score = None
             <-> default JUndefined (field "ns_score" changeFields) = JNull
                 /\ default JUndefined (field "ew_score" changeFields) = JNull)).
Proof.
  split; [reflexivity|]. split; [reflexivity|]. split.
  - destruct (@parseChange_null_iff_deletion documented Sample.deletion _ eq_refl)
      as (fields & changeFields & Hdata & Hchange & Hiff & _).
    exists fields, changeFields. auto.
  - destruct (@parseChange_null_iff_deletion documented Sample.scoring _ eq_refl)
      as (fields & changeFields & Hdata & Hchange & Hiff & _).
    exists fields, changeFields. auto.
Defined.

(** C10 on the score of docs/api.md: north called Tichu, east Grand
    Tichu, west and south nothing. *)
Lemma parseHandScore_null_and_calls_witness :
  @_parseHandScore documented "hand" Sample.scoreData = Return (Some Sample.score)
  /\ exists fields,
       Sample.scoreData = JObj fields
       /\ HandScore.calls Sample.score
          = omap (seatCall (default JUndefined (field "calls" fields)))
              (map snd (@Position documented))
       /\ Forall (fun c => @isValidCall documented (Call.call c) = true
                           /\ Call.call c <> EmptyString)
            (HandScore.calls Sample.score).
Proof.
  split; [reflexivity|].
  exact (proj2 (proj2 (@parseHandScore_null_and_calls documented "hand"))
           Sample.scoreData Sample.score eq_refl).
Defined.

(** C5, as stated, fails on a scored bucket that is out of order: the
    search stops at hand 5, before it reaches hand 3, so the score is
    cleared while the identifier of hand 3 stays in the scored bucket. *)
Lemma clearScore_unsorted_bucket :
  httpSucceeds Sample.noContent = true
  /\ namesHand 3 4 6 (Sample.identifier 2 3 4 6) = true
  /\ exists self',
       @clearScore documented "t1" 4 6 3 None Sample.noContent Sample.unsortedService
       = (self', Fulfilled tt)
       /\ readScore "t1" 4 6 3 (Service._movementStore self') = None
       /\ Service._tournamentStore self' !! "t1" = Some Sample.unsortedStatus
       /\ RoundStatus.scoredHands <$> TournamentStatus.roundStatus Sample.unsortedStatus
          = [[Sample.identifier 1 5 1 2; Sample.identifier 2 3 4 6]].
Proof.
  split; [reflexivity|]. split; [reflexivity|].
  eexists. split; [reflexivity|]. repeat split; reflexivity.
Defined.

(** C7, as stated, fails on a round object without a round number: the
    parser throws before it looks at the opponent. *)
Lemma parseMovementRound_sit_out_needs_round :
  isNullOrUndefined (default JUndefined (field "opponent" [("opponent", JNull)])) = true
  /\ @_parseMovementRound documented "t1" (TournamentPair.new 1)
       (JObj [("opponent", JNull)]) 0 MovementStore.empty
     = (Throw (Error "movement round[0] round was not present"), MovementStore.empty).
Proof. split; reflexivity. Defined.

(** * Further properties of the service *)

(** ** The buckets, whatever their order *)

Section BucketsInAnyOrder.

(** The search loop reports only an identifier that names the hand, and
    none before it does. *)
Lemma findHand_Some handNo nsPair ewPair (l : list HandIdentifier.t) (i found : nat) :
  findHand handNo nsPair ewPair l i = Some found ->
  exists before handId after,
    l = (before ++ handId :: after)%list
    /\ found = (i + length before)%nat
    /\ namesHand handNo nsPair ewPair handId = true
    /\ noneNames handNo nsPair ewPair before.
Proof.
  revert i. induction l as [|x l IH]; intros i; simpl; [discriminate|].
  destruct (namesHand handNo nsPair ewPair x) eqn:Hnames.
  - intros [= <-]. exists [], x, l. simpl. repeat split; [lia | assumption | constructor].
  - destruct (HandIdentifier.handNo x >? handNo); [discriminate|].
    intros (before & handId & after & -> & -> & Hhand & Hbefore)%IH.
    exists (x :: before), handId, after. simpl.
    repeat split; [lia | assumption | constructor; assumption].
Qed.

Lemma findHand_noneNames handNo nsPair ewPair (l : list HandIdentifier.t) (i : nat) :
  noneNames handNo nsPair ewPair l -> findHand handNo nsPair ewPair l i = None.
Proof.
  intros Hnone. destruct (findHand handNo nsPair ewPair l i) as [found|] eqn:Hfind;
    [|reflexivity].
  apply findHand_Some in Hfind as (before & handId & after & -> & _ & Hhand & _).
  apply Forall_app in Hnone as [_ Hnone]. apply Forall_cons in Hnone as [Hnot _].
  congruence.
Qed.

Lemma changeHandStatus_cases handNo nsPair ewPair
    (from_hands to_hands : list HandIdentifier.t) :
  _changeHandStatus handNo nsPair ewPair from_hands to_hands = (from_hands, to_hands)
  \/ exists before handId after,
       from_hands = (before ++ handId :: after)%list
       /\ namesHand handNo nsPair ewPair handId = true
       /\ noneNames handNo nsPair ewPair before
       /\ _changeHandStatus handNo nsPair ewPair from_hands to_hands
          = ((before ++ after)%list, Array_sort compareHands (to_hands ++ [handId])).
Proof.
  unfold _changeHandStatus.
  destruct (findHand handNo nsPair ewPair from_hands 0) as [found|] eqn:Hfind; [|auto].
  apply findHand_Some in Hfind as (before & handId & after & -> & -> & Hhand & Hbefore).
  simpl. rewrite list_lookup_middle by reflexivity. rewrite delete_middle. right.
  exists before, handId, after. auto.
Qed.

Lemma Array_sort_snoc (l : list HandIdentifier.t) handId :
  Array_sort compareHands (l ++ [handId]) ≡ₚ handId :: l.
Proof. rewrite Array_sort_permutation. symmetry. apply Permutation_cons_append. Qed.

(** X1. Whatever the order of the two arrays, [_changeHandStatus] either
    leaves both as they are or moves exactly one identifier: one that
    names the hand, with no identifier naming the hand before it; and
    after a move the target array is sorted by (handNo, tableNo), even if
    it was not before. *)
Theorem changeHandStatus_moves_at_most_one :
  forall handNo nsPair ewPair (from_hands to_hands : list HandIdentifier.t),
    let result := _changeHandStatus handNo nsPair ewPair from_hands to_hands in
    result = (from_hands, to_hands)
    \/ exists before handId after,
         from_hands = (before ++ handId :: after)%list
         /\ namesHand handNo nsPair ewPair handId = true
         /\ noneNames handNo nsPair ewPair before
         /\ fst result = (before ++ after)%list
         /\ snd result ≡ₚ handId :: to_hands
         /\ bucketSorted (snd result).
Proof.
  intros handNo nsPair ewPair from_hands to_hands. simpl.
  destruct (changeHandStatus_cases handNo nsPair ewPair from_hands to_hands)
    as [Hsame | (before & handId & after & Hfrom & Hhand & Hbefore & Hmove)]; [auto|].
  right. exists before, handId, after. rewrite Hmove. simpl.
  repeat split; try assumption; [apply Array_sort_snoc | apply Array_sort_sorted].
Qed.

Lemma changeHandStatus_permutation handNo nsPair ewPair
    (from_hands to_hands : list HandIdentifier.t) :
  (fst (_changeHandStatus handNo nsPair ewPair from_hands to_hands)
     ++ snd (_changeHandStatus handNo nsPair ewPair from_hands to_hands))%list
  ≡ₚ (from_hands ++ to_hands)%list.
Proof.
  destruct (changeHandStatus_cases handNo nsPair ewPair from_hands to_hands)
    as [-> | (before & handId & after & -> & _ & _ & ->)]; [reflexivity|].
  simpl. rewrite Array_sort_snoc, <- !app_assoc. simpl.
  rewrite (Permutation_middle after to_hands handId). reflexivity.
Qed.

Lemma scoreRound_sameHands handNo nsPair ewPair (round : RoundStatus.t) :
  sameHands round (scoreRound handNo nsPair ewPair round).
Proof.
  unfold sameHands, scoreRound.
  pose proof (changeHandStatus_permutation handNo nsPair ewPair
                (RoundStatus.unscoredHands round) (RoundStatus.scoredHands round)) as Hperm.
  destruct (_changeHandStatus _ _ _ _ _) as [unscored scored]. simpl in *. auto.
Qed.

Lemma unscoreRound_sameHands handNo nsPair ewPair (round : RoundStatus.t) :
  sameHands round (unscoreRound handNo nsPair ewPair round).
Proof.
  unfold sameHands, unscoreRound.
  pose proof (changeHandStatus_permutation handNo nsPair ewPair
                (RoundStatus.scoredHands round) (RoundStatus.unscoredHands round)) as Hperm.
  destruct (_changeHandStatus _ _ _ _ _) as [scored unscored]. simpl in *.
  split; [reflexivity|].
  etransitivity; [apply Permutation_app_comm|].
  etransitivity; [exact Hperm | apply Permutation_app_comm].
Qed.

Lemma sameHands_refl (round : RoundStatus.t) : sameHands round round.
Proof. split; reflexivity. Qed.

Lemma Forall2_map_all {A} (f : A -> A) (Q : A -> A -> Prop) (l : list A) :
  (forall x, Q x (f x)) -> Forall2 Q l (map f l).
Proof. intros Hf. induction l; simpl; constructor; auto. Qed.

(** A status that goes through either loop keeps its rounds and their
    hands; the status of another tournament is not looked at. *)
Lemma updateTournamentStatus_sameHands tournamentId handNo nsPair ewPair
    (store : gmap string TournamentStatus.t) (other : string) :
  match store !! other with
  | Some status =>
      exists status',
        _updateTournamentStatus tournamentId handNo nsPair ewPair store !! other
        = Some status'
        /\ Forall2 sameHands (TournamentStatus.roundStatus status)
             (TournamentStatus.roundStatus status')
        /\ (other <> tournamentId -> status' = status)
  | None => _updateTournamentStatus tournamentId handNo nsPair ewPair store !! other = None
  end.
Proof.
  unfold _updateTournamentStatus.
  destruct (store !! tournamentId) as [status0|] eqn:Hstatus0.
  - destruct (decide (other = tournamentId)) as [->|Hother].
    + rewrite Hstatus0, lookup_insert_eq. eexists. split; [reflexivity|]. simpl.
      split; [|congruence]. apply Forall2_map_all, scoreRound_sameHands.
    + rewrite lookup_insert_ne by congruence.
      destruct (store !! other) as [status|]; [|reflexivity].
      exists status. split; [reflexivity|]. split; [|reflexivity].
      apply Forall_Forall2_diag, Forall_forall. intros. apply sameHands_refl.
  - destruct (store !! other) as [status|]; [|reflexivity].
    exists status. split; [reflexivity|]. split; [|reflexivity].
    apply Forall_Forall2_diag, Forall_forall. intros. apply sameHands_refl.
Qed.

Lemma clearTournamentStatus_sameHands tournamentId handNo nsPair ewPair
    (store : gmap string TournamentStatus.t) (other : string) :
  match store !! other with
  | Some status =>
      exists status',
        clearTournamentStatus tournamentId handNo nsPair ewPair store !! other
        = Some status'
        /\ Forall2 sameHands (TournamentStatus.roundStatus status)
             (TournamentStatus.roundStatus status')
        /\ (other <> tournamentId -> status' = status)
  | None => clearTournamentStatus tournamentId handNo nsPair ewPair store !! other = None
  end.
Proof.
  unfold clearTournamentStatus.
  destruct (store !! tournamentId) as [status0|] eqn:Hstatus0.
  - destruct (decide (other = tournamentId)) as [->|Hother].
    + rewrite Hstatus0, lookup_insert_eq. eexists. split; [reflexivity|]. simpl.
      split; [|congruence]. apply Forall2_map_all, unscoreRound_sameHands.
    + rewrite lookup_insert_ne by congruence.
      destruct (store !! other) as [status|]; [|reflexivity].
      exists status. split; [reflexivity|]. split; [|reflexivity].
      apply Forall_Forall2_diag, Forall_forall. intros. apply sameHands_refl.
  - destruct (store !! other) as [status|]; [|reflexivity].
    exists status. split; [reflexivity|]. split; [|reflexivity].
    apply Forall_Forall2_diag, Forall_forall. intros. apply sameHands_refl.
Qed.

End BucketsInAnyOrder.

(** ** What a score request leaves alone *)

Section ScoreFrames.
Context `{Collaborators}.

Lemma recordScore_tournamentStore tournamentId nsPair ewPair handNo score pairCode
    response self :
  Service._tournamentStore
    (fst (recordScore tournamentId nsPair ewPair handNo score pairCode response self))
  = Service._tournamentStore self
  \/ Service._tournamentStore
       (fst (recordScore tournamentId nsPair ewPair handNo score pairCode response self))
     = _updateTournamentStatus tournamentId handNo nsPair ewPair
         (Service._tournamentStore self).
Proof. unfold recordScore. repeat case_match; simpl; auto. Qed.

Lemma clearScore_tournamentStore tournamentId nsPair ewPair handNo pairCode response self :
  Service._tournamentStore
    (fst (clearScore tournamentId nsPair ewPair handNo pairCode response self))
  = Service._tournamentStore self
  \/ Service._tournamentStore
       (fst (clearScore tournamentId nsPair ewPair handNo pairCode response self))
     = clearTournamentStatus tournamentId handNo nsPair ewPair
         (Service._tournamentStore self).
Proof. unfold clearScore. repeat case_match; simpl; auto. Qed.

Lemma Forall2_sameHands_refl (rounds : list RoundStatus.t) : Forall2 sameHands rounds rounds.
Proof. apply Forall_Forall2_diag, Forall_forall. intros. apply sameHands_refl. Qed.

(** X2. Whatever the response to recordScore or clearScore (success, 405,
    any other failure, a body that does not parse) and whatever the order
    of the buckets, a cached tournament status keeps its rounds, their
    numbers and their hand identifiers: an identifier can change bucket
    but none is lost, added or duplicated, and the status of any other
    tournament stays as it is. *)
Theorem score_requests_keep_status_hands :
  forall tournamentId nsPair ewPair handNo score pairCode response self other status,
    Service._tournamentStore self !! other = Some status ->
    (exists status',
        Service._tournamentStore
          (fst (recordScore tournamentId nsPair ewPair handNo score pairCode response self))
          !! other = Some status'
        /\ Forall2 sameHands (TournamentStatus.roundStatus status)
             (TournamentStatus.roundStatus status')
        /\ (other <> tournamentId -> status' = status))
    /\ (exists status',
          Service._tournamentStore
            (fst (clearScore tournamentId nsPair ewPair handNo pairCode response self))
            !! other = Some status'
          /\ Forall2 sameHands (TournamentStatus.roundStatus status)
               (TournamentStatus.roundStatus status')
          /\ (other <> tournamentId -> status' = status)).
Proof.
  intros tournamentId nsPair ewPair handNo score pairCode response self other status Hstatus.
  split.
  - destruct (recordScore_tournamentStore tournamentId nsPair ewPair handNo score pairCode
                response self) as [-> | ->].
    + exists status. auto using Forall2_sameHands_refl.
    + pose proof (updateTournamentStatus_sameHands tournamentId handNo nsPair ewPair
                    (Service._tournamentStore self) other) as Hkeep.
      rewrite Hstatus in Hkeep. exact Hkeep.
  - destruct (clearScore_tournamentStore tournamentId nsPair ewPair handNo pairCode
                response self) as [-> | ->].
    + exists status. auto using Forall2_sameHands_refl.
    + pose proof (clearTournamentStatus_sameHands tournamentId handNo nsPair ewPair
                    (Service._tournamentStore self) other) as Hkeep.
      rewrite Hstatus in Hkeep. exact Hkeep.
Qed.

Lemma getOrCreateHand_other tournamentId nsPair ewPair handNo (store : MovementStore.t)
    (key : HandKey) :
  key <> (tournamentId, nsPair, ewPair, handNo) ->
  MovementStore.hands
    (snd (MovementStore.getOrCreateHand tournamentId nsPair ewPair handNo store)) !! key
  = MovementStore.hands store !! key.
Proof.
  intros Hkey. unfold MovementStore.getOrCreateHand.
  destruct (MovementStore.hands store !! _); simpl; [reflexivity|].
  apply lookup_insert_ne. congruence.
Qed.

Lemma getOrCreateHand_movements tournamentId nsPair ewPair handNo (store : MovementStore.t) :
  MovementStore.movements
    (snd (MovementStore.getOrCreateHand tournamentId nsPair ewPair handNo store))
  = MovementStore.movements store.
Proof. unfold MovementStore.getOrCreateHand. case_match; reflexivity. Qed.

Lemma writeScore_other tournamentId nsPair ewPair handNo value (store : MovementStore.t)
    (key : HandKey) :
  key <> (tournamentId, nsPair, ewPair, handNo) ->
  MovementStore.hands (writeScore tournamentId nsPair ewPair handNo value store) !! key
  = MovementStore.hands store !! key.
Proof.
  intros Hkey. unfold writeScore, MovementStore.updateHand. simpl.
  rewrite lookup_alter_ne by congruence. apply getOrCreateHand_other, Hkey.
Qed.

Lemma writeScore_movements tournamentId nsPair ewPair handNo value (store : MovementStore.t) :
  MovementStore.movements (writeScore tournamentId nsPair ewPair handNo value store)
  = MovementStore.movements store.
Proof. unfold writeScore. simpl. apply getOrCreateHand_movements. Qed.

(** X3. Whatever the response, recordScore and clearScore write to no
    cached hand but the one they are called for, and to no cached
    movement: every other key of the movement store reads as before. *)
Theorem score_requests_touch_one_hand :
  forall tournamentId nsPair ewPair handNo score pairCode response self (key : HandKey),
    key <> (tournamentId, nsPair, ewPair, handNo) ->
    let recorded :=
      Service._movementStore
        (fst (recordScore tournamentId nsPair ewPair handNo score pairCode response self)) in
    let cleared :=
      Service._movementStore
        (fst (clearScore tournamentId nsPair ewPair handNo pairCode response self)) in
    MovementStore.hands recorded !! key
    = MovementStore.hands (Service._movementStore self) !! key
    /\ MovementStore.movements recorded = MovementStore.movements (Service._movementStore self)
    /\ MovementStore.hands cleared !! key
       = MovementStore.hands (Service._movementStore self) !! key
    /\ MovementStore.movements cleared = MovementStore.movements (Service._movementStore self).
Proof.
  intros tournamentId nsPair ewPair handNo score pairCode response self key Hkey. simpl.
  unfold recordScore, clearScore.
  destruct (httpSucceeds response);
    [|destruct (Response.status response =? 405);
      [destruct (_parseHandScore "hand score rejection" (Response.data response))|]];
    unfold Service.setMovementStore, Service.setStores;
    cbn [fst Service._movementStore];
    rewrite ?writeScore_other, ?writeScore_movements, ?getOrCreateHand_other,
      ?getOrCreateHand_movements by exact Hkey;
    auto.
Qed.

End ScoreFrames.

(** ** Recording, then clearing *)

Section RecordThenClear.
Context `{Collaborators}.

#[local] Instance handNoOrder_is_transitive : Transitive handNoOrder.
Proof. intros a b c. unfold handNoOrder. lia. Qed.

(** Moving a hand out of a bucket and back restores both buckets, up to
    the order of the identifiers. *)
Lemma changeHandStatus_there_and_back handNo nsPair ewPair
    (from_hands to_hands : list HandIdentifier.t) :
  noneNames handNo nsPair ewPair to_hands ->
  let there := _changeHandStatus handNo nsPair ewPair from_hands to_hands in
  let back := _changeHandStatus handNo nsPair ewPair (snd there) (fst there) in
  fst back ≡ₚ to_hands /\ snd back ≡ₚ from_hands.
Proof.
  intros Hnone. simpl.
  destruct (changeHandStatus_cases handNo nsPair ewPair from_hands to_hands)
    as [-> | (before & handId & after & -> & Hhand & Hbefore & ->)]; simpl.
  - unfold _changeHandStatus. rewrite (findHand_noneNames _ _ _ _ _ Hnone). auto.
  - destruct (changeHandStatus_cases handNo nsPair ewPair
                (Array_sort compareHands (to_hands ++ [handId])) (before ++ after)%list)
      as [Hstay | (before' & handId' & after' & Hsplit & Hhand' & _ & ->)].
    + exfalso. unfold _changeHandStatus in Hstay.
      destruct (findHand handNo nsPair ewPair
                  (Array_sort compareHands (to_hands ++ [handId])) 0) as [found|] eqn:Hfind.
      * apply findHand_Some in Hfind as (b & x & a & Hl & -> & _ & _).
        rewrite Hl, list_lookup_middle in Hstay by reflexivity.
        injection Hstay as Hdelete _. rewrite delete_middle in Hdelete.
        apply (f_equal length) in Hdelete. rewrite !length_app in Hdelete. simpl in Hdelete.
        lia.
      * pose proof (findHand_sorted handNo nsPair ewPair
                      (Array_sort compareHands (to_hands ++ [handId])) 0
                      (Sorted_StronglySorted _ _
                         (bucketSorted_handNoSorted _ (Array_sort_sorted _)))) as Hall.
        rewrite Hfind in Hall.
        assert (handId ∈ Array_sort compareHands (to_hands ++ [handId])) as Hin.
        { rewrite Array_sort_snoc. left. }
        rewrite Forall_forall in Hall. specialize (Hall _ Hin). congruence.
    + simpl.
      assert (handId' = handId) as ->.
      { assert (handId' ∈ handId :: to_hands) as Hin.
        { rewrite <- Array_sort_snoc, Hsplit. set_solver. }
        apply elem_of_cons in Hin as [-> | Hin]; [reflexivity|].
        unfold noneNames in Hnone. rewrite Forall_forall in Hnone.
        specialize (Hnone _ Hin). congruence. }
      split.
      * apply (Permutation_cons_inv (a := handId)).
        rewrite <- (Array_sort_snoc to_hands handId), Hsplit. apply Permutation_middle.
      * rewrite Array_sort_snoc. apply Permutation_middle.
Qed.

Lemma scoreRound_then_unscoreRound handNo nsPair ewPair (round : RoundStatus.t) :
  noneNames handNo nsPair ewPair (RoundStatus.scoredHands round) ->
  sameBuckets round
    (unscoreRound handNo nsPair ewPair (scoreRound handNo nsPair ewPair round)).
Proof.
  intros Hnone.
  pose proof (changeHandStatus_there_and_back handNo nsPair ewPair
                (RoundStatus.unscoredHands round) (RoundStatus.scoredHands round) Hnone)
    as Hback.
  unfold sameBuckets, unscoreRound, scoreRound. simpl in Hback.
  destruct (_changeHandStatus handNo nsPair ewPair (RoundStatus.unscoredHands round)
              (RoundStatus.scoredHands round)) as [unscored scored]. simpl in *.
  destruct (_changeHandStatus handNo nsPair ewPair scored unscored) as [scored' unscored'].
  simpl in *. tauto.
Qed.

(** X4. A successful recordScore followed by a successful clearScore for
    the same hand leaves the cached hand without a score and, when the
    tournament has a cached status in which no scored bucket holds an
    identifier of the hand, gives every round back the content of both of
    its buckets (up to the order of the identifiers), whatever their
    order was. *)
Theorem recordScore_then_clearScore :
  forall tournamentId nsPair ewPair handNo score pairCode pairCode' response response'
         self status,
    httpSucceeds response = true ->
    httpSucceeds response' = true ->
    Service._tournamentStore self !! tournamentId = Some status ->
    Forall (fun round => noneNames handNo nsPair ewPair (RoundStatus.scoredHands round))
      (TournamentStatus.roundStatus status) ->
    let recorded :=
      fst (recordScore tournamentId nsPair ewPair handNo score pairCode response self) in
    let cleared :=
      fst (clearScore tournamentId nsPair ewPair handNo pairCode' response' recorded) in
    readScore tournamentId nsPair ewPair handNo (Service._movementStore recorded) = Some score
    /\ readScore tournamentId nsPair ewPair handNo (Service._movementStore cleared) = None
    /\ exists status',
         Service._tournamentStore cleared !! tournamentId = Some status'
         /\ Forall2 sameBuckets (TournamentStatus.roundStatus status)
              (TournamentStatus.roundStatus status').
Proof.
  intros tournamentId nsPair ewPair handNo score pairCode pairCode' response response'
    self status Hok Hok' Hstatus Hnone. simpl.
  unfold recordScore, clearScore. rewrite Hok, Hok'.
  unfold Service.setStores. cbn [fst Service._movementStore Service._tournamentStore].
  split; [apply readScore_writeScore|]. split; [apply readScore_writeScore|].
  unfold _updateTournamentStatus, clearTournamentStatus.
  rewrite Hstatus, lookup_insert_eq. eexists. split; [apply lookup_insert_eq|].
  cbn [TournamentStatus.roundStatus]. rewrite List.map_map.
  eapply Forall2_map_of; [|exact Hnone].
  intros round. apply scoreRound_then_unscoreRound.
Qed.

End RecordThenClear.

(** ** What the parsers accept *)

Section ParserProperties.
Context `{Collaborators}.

Lemma seatCall_side callData position c :
  seatCall callData position = Some c -> Call.side c = position.
Proof.
  unfold seatCall. repeat case_match; try discriminate. intros [= <-]. reflexivity.
Qed.

Lemma seatCalls_sides callData (positions : list string) :
  sublist (map Call.side (omap (seatCall callData) positions)) positions.
Proof.
  induction positions as [|p ps IH]; [constructor|].
  rewrite omap_cons_eq. destruct (seatCall callData p) as [c|] eqn:Hseat.
  - simpl. rewrite (seatCall_side _ _ _ Hseat). apply sublist_skip, IH.
  - apply sublist_cons, IH.
Qed.

(** The scores and the notes of a returned hand score. *)
Lemma parseHandScore_scores handContext scoreData score :
  _parseHandScore handContext scoreData = Return (Some score) ->
  exists fields,
    scoreData = JObj fields
    /\ field "ns_score" fields = Some (HandScore.northSouthScore score)
    /\ field "ew_score" fields = Some (HandScore.eastWestScore score)
    /\ ((exists q, HandScore.northSouthScore score = JNum q)
        \/ exists s, HandScore.northSouthScore score = JStr s)
    /\ ((exists q, HandScore.eastWestScore score = JNum q)
        \/ exists s, HandScore.eastWestScore score = JStr s)
    /\ HandScore.notes score <> Some EmptyString.
Proof.
  unfold _parseHandScore. intros (present & Hpresent & Hrest)%bind_Return.
  apply assertType_object_optional in Hpresent as [-> Hshape].
  destruct Hshape as [-> | [-> | [fields ->]]]; [discriminate Hrest ..|].
  exists fields. split; [reflexivity|]. simpl in Hrest.
  apply bind_Return in Hrest as (callData & _ & Hrest).
  apply bind_Return in Hrest as (calls & _ & Hrest).
  apply bind_Return in Hrest as (ns & Hns & Hrest).
  apply assertType_score in Hns as [-> Hns].
  apply bind_Return in Hrest as (ew & Hew & Hrest).
  apply assertType_score in Hew as [-> Hew].
  apply bind_Return in Hrest as (notes & _ & [= <-]). simpl.
  repeat split; try assumption.
  - destruct (field "ns_score" fields); simpl in *; [reflexivity|].
    destruct Hns as [[? [=]] | [? [=]]].
  - destruct (field "ew_score" fields); simpl in *; [reflexivity|].
    destruct Hew as [[? [=]] | [? [=]]].
  - destruct notes as [| | | |s| |]; try discriminate. simpl.
    destruct (String.eqb_spec s ""); simpl; congruence.
Qed.

(** X5. A HandScore that [_parseHandScore] returns always has both
    scores, each of them a number or a string read from the fields
    ns_score and ew_score (a score that is absent or null is rejected);
    its notes are null rather than the empty string; and its calls name
    seats of [tichu.Position], in the order of that enumeration. *)
Theorem parseHandScore_returns_complete_scores :
  forall handContext scoreData score,
    _parseHandScore handContext scoreData = Return (Some score) ->
    exists fields,
      scoreData = JObj fields
      /\ field "ns_score" fields = Some (HandScore.northSouthScore score)
      /\ field "ew_score" fields = Some (HandScore.eastWestScore score)
      /\ ((exists q, HandScore.northSouthScore score = JNum q)
          \/ exists s, HandScore.northSouthScore score = JStr s)
      /\ ((exists q, HandScore.eastWestScore score = JNum q)
          \/ exists s, HandScore.eastWestScore score = JStr s)
      /\ HandScore.notes score <> Some EmptyString
      /\ sublist (map Call.side (HandScore.calls score)) (map snd Position).
Proof.
  intros handContext scoreData score Hscore.
  destruct (parseHandScore_scores _ _ _ Hscore)
    as (fields & -> & Hns & Hew & Hnsq & Hewq & Hnotes).
  destruct (parseHandScore_Some _ _ _ Hscore) as (fields' & [= <-] & -> & _).
  exists fields. repeat split; try assumption. apply seatCalls_sides.
Qed.

(** [Array.prototype.map] with a callback that may throw returns exactly
    when the callback returns on every element, with the results in the
    order of the elements. *)
Lemma Array_map_Return {A B} (f : A -> Exc B) (l : list A) (r : list B) :
  Array_map f l = Return r <-> Forall2 (fun x y => f x = Return y) l r.
Proof.
  revert r. induction l as [|x l IH]; intros r; simpl.
  - split; [intros [= <-]; constructor | intros Hr; inversion Hr; reflexivity].
  - split.
    + intros (y & Hy & (ys & Hys & [= <-])%bind_Return)%bind_Return.
      constructor; [exact Hy | apply IH, Hys].
    + intros Hr. inversion Hr as [|? y ? ys Hy Hys]; subst.
      rewrite Hy. simpl. apply IH in Hys. rewrite Hys. reflexivity.
Qed.

(** Reading [_parseChange] backwards. *)
Lemma parseChange_Return data c :
  _parseChange data = Return c ->
  exists fields changeFields timestamp_sec changedBy,
    data = JObj fields
    /\ field "timestamp_sec" fields = Some (JStr timestamp_sec)
    /\ field "changed_by" fields = Some (JNum changedBy)
    /\ field "change" fields = Some (JObj changeFields)
    /\ Change.timestamp c = formatTimestamp timestamp_sec
    /\ Change.changedBy c = JNum changedBy
    /\ ((default JUndefined (field "ns_score" changeFields) = JNull
         /\ default JUndefined (field "ew_score" changeFields) = JNull
         /\ Change.change c = None)
        \/ exists score,
             Change.change c = Some score
             /\ _parseHandScore "change log change" (JObj changeFields)
                = Return (Some score)).
Proof.
  unfold _parseChange.
  intros (ts & Hts & Hrest)%bind_Return.
  apply bind_Return in Hrest as (timestamp_sec & Hsec & Hrest).
  apply assertString_Return in Hsec as ->.
  apply getProp_Return_field in Hts as (fields & -> & Hts); [|discriminate].
  rewrite !getProp_obj in Hrest. simpl in Hrest.
  apply bind_Return in Hrest as (by_ & Hby & Hrest).
  apply bind_Return in Hrest as (? & Hobj & Hrest).
  apply assertType_object in Hobj as (changeFields & HchangeFields).
  rewrite HchangeFields in Hrest. simpl in Hrest.
  apply bind_Return in Hrest as (change & Hchange & [= <-]). simpl.
  assert (exists changedBy, default JUndefined (field "changed_by" fields) = JNum changedBy)
    as [changedBy HchangedBy].
  { destruct (default JUndefined (field "changed_by" fields)); try discriminate Hby. eauto. }
  exists fields, changeFields, timestamp_sec, changedBy. split; [reflexivity|].
  split; [exact Hts|]. split.
  { destruct (field "changed_by" fields); simpl in HchangedBy; congruence. }
  split.
  { destruct (field "change" fields); simpl in HchangeFields; congruence. }
  split; [reflexivity|]. split; [exact HchangedBy|].
  destruct (isNull (default JUndefined (field "ns_score" changeFields))
            && isNull (default JUndefined (field "ew_score" changeFields))) eqn:Hboth.
  - injection Hchange as <-. apply andb_true_iff in Hboth as [Hns Hew].
    rewrite isNull_true in Hns, Hew. auto.
  - destruct change as [score|]; [eauto|].
    exfalso. unfold _parseHandScore in Hchange. simpl in Hchange.
    repeat (apply bind_Return in Hchange as (? & _ & Hchange)). discriminate.
Qed.

(** X6. A change-log entry that [_parseChange] accepts carries a string
    time stamp, a number as its author and a change object in which the
    two scores are either both null (a deletion, change null) or both a
    number or a string (change a HandScore holding them): an entry with
    one null score, or with a score left out, is rejected. *)
Theorem parseChange_scores_both_or_none :
  forall data c,
    _parseChange data = Return c ->
    exists fields changeFields timestamp_sec changedBy,
      data = JObj fields
      /\ field "timestamp_sec" fields = Some (JStr timestamp_sec)
      /\ field "changed_by" fields = Some (JNum changedBy)
      /\ field "change" fields = Some (JObj changeFields)
      /\ Change.changedBy c = JNum changedBy
      /\ ((field "ns_score" changeFields = Some JNull
           /\ field "ew_score" changeFields = Some JNull
           /\ Change.change c = None)
          \/ exists score,
               Change.change c = Some score
               /\ field "ns_score" changeFields = Some (HandScore.northSouthScore score)
               /\ field "ew_score" changeFields = Some (HandScore.eastWestScore score)
               /\ HandScore.northSouthScore score <> JNull
               /\ HandScore.eastWestScore score <> JNull).
Proof.
  intros data c Hc.
  destruct (parseChange_Return _ _ Hc)
    as (fields & changeFields & timestamp_sec & changedBy & -> & Hts & Hby & Hchange
        & _ & HchangedBy & Hcases).
  exists fields, changeFields, timestamp_sec, changedBy.
  repeat split; try assumption.
  destruct Hcases as [(Hns & Hew & Hnull) | (score & Hsome & Hparse)].
  - left. repeat split; [| |exact Hnull].
    + destruct (field "ns_score" changeFields); simpl in Hns; congruence.
    + destruct (field "ew_score" changeFields); simpl in Hew; congruence.
  - right. exists score. split; [exact Hsome|].
    destruct (parseHandScore_scores _ _ _ Hparse)
      as (fields' & [= <-] & Hns & Hew & Hnsq & Hewq & _).
    repeat split; try assumption.
    + destruct Hnsq as [[? ->] | [? ->]]; discriminate.
    + destruct Hewq as [[? ->] | [? ->]]; discriminate.
Qed.

(** X7. [_parseChangeLog] is all or nothing and keeps the order: it
    returns a log exactly when the data is an object whose changes are an
    array every entry of which [_parseChange] accepts, and the log then
    holds one Change per entry, in the order of the entries. *)
Theorem parseChangeLog_one_change_per_entry :
  forall data (log : ChangeLog.t Change.t),
    _parseChangeLog data = Return log <->
    exists fields entries,
      data = JObj fields
      /\ field "changes" fields = Some (JArr entries)
      /\ Forall2 (fun entry c => _parseChange entry = Return c) entries
           (ChangeLog.changes log).
Proof.
  intros data log. unfold _parseChangeLog. split.
  - intros (? & Hobj & Hrest)%bind_Return.
    apply assertType_object in Hobj as [fields ->].
    rewrite getProp_obj, bind_Return_l in Hrest.
    apply bind_Return in Hrest as (changes & Hchanges & Hrest).
    apply bind_Return in Hrest as (parsed & Hparsed & [= <-]).
    unfold assertArray in Hchanges.
    apply bind_Return in Hchanges as (v & Hv & Hl).
    apply assertType_Return in Hv as ->.
    exists fields, changes. split; [reflexivity|]. split.
    + destruct (field "changes" fields) as [[]|]; simpl in Hl; congruence.
    + simpl. apply Array_map_Return, Hparsed.
  - intros (fields & entries & -> & Hentries & Hall).
    rewrite assertType_object_obj, bind_Return_l, getProp_obj, bind_Return_l, Hentries.
    rewrite default_Some, assertArray_arr, bind_Return_l.
    apply Array_map_Return in Hall. rewrite Hall. destruct log. reflexivity.
Qed.

End ParserProperties.

(** ** Hand results *)

Section HandResultsProperties.
Context `{Collaborators}.

Lemma notPositiveInteger_integer (n : Z) : notPositiveInteger (inject_Z n) = (n <=? 0).
Proof.
  unfold notPositiveInteger. rewrite Qfloor_Z, Qeq_bool_refl, orb_false_r.
  destruct (Z.leb_spec n 0) as [Hle|Hgt].
  - apply Qle_bool_iff. rewrite (Zle_Qle n 0) in Hle. exact Hle.
  - destruct (Qle_bool (inject_Z n) 0) eqn:Hq; [|reflexivity].
    apply Qle_bool_iff in Hq. change 0%Q with (inject_Z 0) in Hq.
    rewrite <- Zle_Qle in Hq. lia.
Qed.

Lemma notPositiveInteger_false (x : Q) :
  notPositiveInteger x = false -> positiveInteger x (Qfloor x).
Proof.
  unfold notPositiveInteger, positiveInteger. intros [Hpos Hint]%orb_false_iff.
  apply negb_false_iff, Qeq_bool_iff in Hint. split; [|exact Hint].
  destruct (Z.ltb_spec 0 (Qfloor x)) as [Hlt|Hle]; [exact Hlt|].
  assert (Qle_bool x 0 = true) as Hcontra; [|congruence].
  apply Qle_bool_iff. rewrite <- Hint. change 0%Q with (inject_Z 0).
  rewrite <- Zle_Qle. exact Hle.
Qed.

Lemma assertNumber_field context fields k q :
  assertNumber context (default JUndefined (field k fields)) = Return q ->
  field k fields = Some (JNum q).
Proof.
  intros Hq%assertNumber_Return. destruct (field k fields); simpl in Hq; congruence.
Qed.

Lemma parseHandResult_Return tournamentId context handNo entry ranked :
  _parseHandResult tournamentId context handNo entry = Return ranked ->
  0 < handNo /\ rankedFrom context handNo entry ranked.
Proof.
  unfold _parseHandResult, rankedFrom.
  intros (? & Hobj & Hrest)%bind_Return.
  apply assertType_object in Hobj as [fields ->].
  apply bind_Return in Hrest as (? & _ & Hrest).
  rewrite notPositiveInteger_integer in Hrest.
  destruct (Z.leb_spec handNo 0) as [Hle|Hgt]; [discriminate Hrest|].
  split; [exact Hgt|].
  apply bind_Return in Hrest as (score & Hscore & Hrest).
  rewrite !getProp_obj, bind_Return_l in Hrest.
  apply bind_Return in Hrest as (nsPair & Hns%assertNumber_field & Hrest).
  rewrite bind_Return_l in Hrest.
  apply bind_Return in Hrest as (ewPair & Hew%assertNumber_field & Hrest).
  rewrite bind_Return_l in Hrest.
  apply bind_Return in Hrest as (mps & Hmps%assertNumber_field & [= <-]). simpl.
  destruct score as [score|].
  - exists fields, score. auto 10.
  - exfalso. unfold _parseHandScore in Hscore. simpl in Hscore.
    repeat (apply bind_Return in Hscore as (? & _ & Hscore)). discriminate.
Qed.

(** X8. A hand-results response that [_parseHandResults] accepts is an
    object whose results are an array, and the parsed results hold one
    ranked hand per entry, in the order of the entries: each with the hand
    number that was asked for, the pair numbers and match points of its
    entry, and a score that is never null, read from the entry itself. *)
Theorem parseHandResults_one_hand_per_entry :
  forall tournamentId resultContext data handNo results,
    _parseHandResults tournamentId resultContext data handNo = Return results ->
    exists fields entries,
      data = JObj fields
      /\ field "results" fields = Some (JArr entries)
      /\ Forall2 (rankedFrom resultContext handNo) entries (HandResults.hands results)
      /\ (entries <> [] -> 0 < handNo).
Proof.
  intros tournamentId resultContext data handNo results. unfold _parseHandResults.
  intros (resultsField & Hfield & Hrest)%bind_Return.
  apply bind_Return in Hrest as (entries & Hentries & Hrest).
  apply bind_Return in Hrest as (hands & Hhands & [= <-]). simpl.
  unfold assertArray in Hentries. apply bind_Return in Hentries as (v & Hv & Hl).
  apply assertType_Return in Hv as ->.
  assert (resultsField = JArr entries) as -> by (destruct resultsField; congruence).
  apply getProp_Return_field in Hfield as (fields & -> & Hfield); [|discriminate].
  exists fields, entries. split; [reflexivity|]. split; [exact Hfield|].
  apply Array_map_Return in Hhands. split.
  - eapply Forall2_impl; [exact Hhands|]. intros entry ranked Hranked.
    apply parseHandResult_Return in Hranked as [_ Hranked]. exact Hranked.
  - intros Hnonempty. destruct Hhands as [|entry ranked ? ? Hranked _]; [congruence|].
    apply parseHandResult_Return in Hranked as [Hpos _]. exact Hpos.
Qed.

(** X9. The hand number is tested once per entry: with no entry in the
    results, [_parseHandResults] returns no hands whatever the hand
    number, and with a hand number that is not positive it throws the
    hand-number error as soon as the first entry is an object. *)
Theorem parseHandResults_hand_number_checked_per_entry :
  forall tournamentId resultContext fields handNo,
    (field "results" fields = Some (JArr []) ->
     _parseHandResults tournamentId resultContext (JObj fields) handNo
     = Return {| HandResults.hands := [] |})
    /\ (forall entryFields entries,
          handNo <= 0 ->
          field "results" fields = Some (JArr (JObj entryFields :: entries)) ->
          _parseHandResults tournamentId resultContext (JObj fields) handNo
          = Throw (Error (resultContext +:+ " hand number was not a positive integer"))).
Proof.
  intros tournamentId resultContext fields handNo. unfold _parseHandResults. split.
  - intros Hresults. rewrite getProp_obj, bind_Return_l, Hresults. reflexivity.
  - intros entryFields entries Hle Hresults.
    rewrite getProp_obj, bind_Return_l, Hresults, default_Some, assertArray_arr,
      bind_Return_l.
    cbn [Array_map]. unfold _parseHandResult at 1.
    rewrite assertType_object_obj, bind_Return_l, notPositiveInteger_integer.
    destruct (Z.leb_spec handNo 0); [reflexivity | lia].
Qed.

(** X10. The three fetchers differ in what a malformed body does:
    [getChangeLog] and [getMovement] never reject with an uncaught error
    (their parsers run inside a try), whereas [getHandResults] rejects with
    exactly what its parser throws. *)
Theorem malformed_body_rejections :
  (forall tournamentId handNo nsPair ewPair response,
      (exists log, getChangeLog tournamentId handNo nsPair ewPair response = Fulfilled log)
      \/ exists rejection,
           getChangeLog tournamentId handNo nsPair ewPair response
           = Rejected (RpcRejection rejection))
  /\ (forall promise response self outcome,
        snd (getMovement_settle promise response self) = Some outcome ->
        (exists movement, outcome = Fulfilled movement)
        \/ exists rejection, outcome = Rejected (RpcRejection rejection))
  /\ (forall tournamentId boardNo pairCode position response ex,
        httpSucceeds response = true ->
        _parseHandResults tournamentId "hand results" (Response.data response) boardNo
        = Throw ex ->
        getHandResults tournamentId boardNo pairCode position response
        = Rejected (Uncaught ex)).
Proof.
  split; [|split].
  - intros tournamentId handNo nsPair ewPair response. unfold getChangeLog, handleErrorIn.
    destruct (httpSucceeds response); [|eauto].
    destruct (_parseChangeLog (Response.data response)); eauto.
  - intros promise response self outcome. unfold getMovement_settle.
    destruct (Service.inFlight self !! promise) as [request|]; [|discriminate].
    unfold getMovement_onSuccess, handleErrorIn.
    destruct (httpSucceeds response).
    + destruct (_parseMovement _ _ _ _) as [[movement|ex] store]; intros [= <-]; eauto.
    + intros [= <-]. eauto.
  - intros tournamentId boardNo pairCode position response ex Hok Hthrow.
    unfold getHandResults. rewrite Hok, Hthrow. reflexivity.
Qed.

End HandResultsProperties.

(** ** Hands of a movement *)

Section HandProperties.
Context `{Collaborators}.

Lemma bindSt_Throw {A B} (m : St A) (k : A -> St B) (ex : Thrown) (s s' : MovementStore.t) :
  bindSt m k s = (Throw ex, s') ->
  m s = (Throw ex, s')
  \/ exists a s1, m s = (Return a, s1) /\ k a s1 = (Throw ex, s').
Proof.
  unfold bindSt. destruct (m s) as [[a|ex'] s1]; [eauto|].
  intros [= <- <-]. auto.
Qed.

Lemma lift_store {A} (m : Exc A) (s s' : MovementStore.t) (r : Exc A) :
  lift m s = (r, s') -> s' = s.
Proof. unfold lift. congruence. Qed.

(** X11. [_parseHand] writes to the movement store only when it returns:
    a throw leaves the store as it was.  When it returns, the hand data is
    an object whose hand_no is a positive integer, the reference returned
    is the key (tournamentId, nsPair, ewPair, hand_no), and the store
    keeps under that key a hand with the two pairs and with the score that
    [_parseHandScore] read (null when the hand has none), every other hand
    and every movement being left as it was. *)
Theorem parseHand_writes_on_return_only :
  forall tournamentId nsPair ewPair roundContext handData handIndex store,
    (forall ex store',
        _parseHand tournamentId nsPair ewPair roundContext handData handIndex store
        = (Throw ex, store') ->
        store' = store)
    /\ (forall key store',
          _parseHand tournamentId nsPair ewPair roundContext handData handIndex store
          = (Return key, store') ->
          exists fields number handNo score hand,
            handData = JObj fields
            /\ field "hand_no" fields = Some (JNum number)
            /\ positiveInteger number handNo
            /\ key = (tournamentId, TournamentPair.pairNo nsPair,
                      TournamentPair.pairNo ewPair, handNo)
            /\ _parseHandScore
                 (roundContext +:+ " hand[" +:+ Number_toString (Z.of_nat handIndex) +:+ "]")
                 (default JUndefined (field "score" fields))
               = Return score
            /\ MovementStore.hands store' !! key = Some hand
            /\ Hand.score hand = score
            /\ Hand.northSouthPair hand = nsPair
            /\ Hand.eastWestPair hand = ewPair
            /\ (forall other, other <> key ->
                MovementStore.hands store' !! other = MovementStore.hands store !! other)
            /\ MovementStore.movements store' = MovementStore.movements store).
Proof.
  intros tournamentId nsPair ewPair roundContext handData handIndex store.
  unfold _parseHand. split.
  - intros ex store' Hthrow.
    apply bindSt_Throw in Hthrow as [Hthrow | (? & s1 & Hret & Hthrow)];
      [exact (lift_store _ _ _ _ Hthrow)|].
    apply lift_Return in Hret as [_ ->].
    apply bindSt_Throw in Hthrow as [Hthrow | (number & s1 & Hret & Hthrow)];
      [exact (lift_store _ _ _ _ Hthrow)|].
    apply lift_Return in Hret as [_ ->].
    destruct (notPositiveInteger number); [injection Hthrow as _ <-; reflexivity|].
    apply bindSt_Throw in Hthrow as [Hthrow | (score & s1 & Hret & Hthrow)];
      [exact (lift_store _ _ _ _ Hthrow)|].
    discriminate Hthrow.
  - intros key store' Hret.
    apply bindSt_Return in Hret as (? & s1 & Hobj & Hret).
    apply lift_Return in Hobj as [Hobj ->].
    apply assertType_object in Hobj as [fields ->].
    apply bindSt_Return in Hret as (number & s1 & Hnumber & Hret).
    apply lift_Return in Hnumber as [Hnumber ->].
    rewrite getProp_obj, bind_Return_l in Hnumber. apply assertNumber_field in Hnumber.
    destruct (notPositiveInteger number) eqn:Hpositive; [discriminate Hret|].
    apply notPositiveInteger_false in Hpositive.
    apply bindSt_Return in Hret as (score & s1 & Hscore & Hret).
    apply lift_Return in Hscore as [Hscore ->].
    rewrite getProp_obj, bind_Return_l in Hscore.
    injection Hret as <- <-.
    eexists fields, number, (Qfloor number), score, _.
    split; [reflexivity|]. split; [exact Hnumber|]. split; [exact Hpositive|].
    split; [reflexivity|]. split; [exact Hscore|].
    unfold MovementStore.updateHand. cbn [MovementStore.hands MovementStore.movements].
    split; [rewrite lookup_alter_eq, getOrCreateHand_lookup; reflexivity|].
    split; [reflexivity|]. split; [reflexivity|]. split; [reflexivity|]. split.
    + intros other Hother. rewrite lookup_alter_ne by congruence.
      apply getOrCreateHand_other. congruence.
    + apply getOrCreateHand_movements.
Qed.

End HandProperties.

(** ** Movements *)

Section Preserving.
Context (R : relation MovementStore.t) `{!Reflexive R} `{!Transitive R}.

Lemma preserves_ret {A} (a : A) : preserves R (ret a).
Proof. intros s r s' [= <- <-]. reflexivity. Qed.

Lemma preserves_throw {A} (ex : Thrown) : preserves R (@throw A ex).
Proof. intros s r s' [= <- <-]. reflexivity. Qed.

Lemma preserves_lift {A} (m : Exc A) : preserves R (lift m).
Proof. intros s r s' [= <- <-]. reflexivity. Qed.

Lemma preserves_bind {A B} (m : St A) (k : A -> St B) :
  preserves R m -> (forall a, preserves R (k a)) -> preserves R (bindSt m k).
Proof.
  intros Hm Hk s r s'. unfold bindSt.
  destruct (m s) as [[a|ex] s1] eqn:Hms.
  - intros Hka. transitivity s1; [exact (Hm _ _ _ Hms) | exact (Hk _ _ _ _ Hka)].
  - intros [= <- <-]. exact (Hm _ _ _ Hms).
Qed.

Lemma preserves_Array_mapi {A B} (f : A -> nat -> St B) (l : list A) (i : nat) :
  (forall x j, preserves R (f x j)) -> preserves R (Array_mapi f l i).
Proof.
  intros Hf. revert i. induction l as [|x l IH]; intros i; simpl.
  - apply preserves_ret.
  - apply preserves_bind; [apply Hf|]. intros y.
    apply preserves_bind; [apply IH|]. intros ys. apply preserves_ret.
Qed.

End Preserving.

Section MovementProperties.
Context `{Collaborators}.

#[local] Instance sameMovements_reflexive : Reflexive sameMovements.
Proof. intros s. reflexivity. Qed.

#[local] Instance sameMovements_transitive : Transitive sameMovements.
Proof. unfold sameMovements. intros s1 s2 s3 H12 H23. congruence. Qed.

Ltac preserves_steps :=
  repeat first
    [ apply preserves_lift; solve [apply _]
    | apply preserves_ret; solve [apply _]
    | apply preserves_throw; solve [apply _]
    | apply preserves_bind; [apply _ | | intros ?]
    | match goal with
      | |- preserves _ (if ?b then _ else _) => destruct b
      | |- preserves _ (let '(_, _) := ?p in _) => destruct p
      end ].

Lemma parseHand_sameMovements tournamentId nsPair ewPair roundContext handData handIndex :
  preserves sameMovements
    (_parseHand tournamentId nsPair ewPair roundContext handData handIndex).
Proof.
  unfold _parseHand. preserves_steps.
  intros s r s' [= <- <-]. unfold sameMovements, MovementStore.updateHand. simpl.
  apply getOrCreateHand_movements.
Qed.

Lemma parseMovementRound_sameMovements tournamentId pair movementRound index :
  preserves sameMovements (_parseMovementRound tournamentId pair movementRound index).
Proof.
  unfold _parseMovementRound. preserves_steps.
  all: apply preserves_Array_mapi; try apply _; intros; apply parseHand_sameMovements.
Qed.

Lemma parseMovement_unfold tournamentId pairNo data :
  _parseMovement tournamentId pairNo data
  = (_ <~ lift (assertType "movement data" data "object" false) ;;
     name <~ lift (f <- getProp data "name" ;; assertString "tournament name" f) ;;
     playersField <~ lift (f <- getProp data "players" ;;
                           assertType "player list" f "array" true) ;;
     players <~ (match playersField with
                 | JArr l =>
                     ps <~ Array_mapi (fun p i => lift (parsePlayer p i)) l 0 ;;
                     ret (Some ps)
                 | _ => ret None
                 end) ;;
     roundList <~ lift (f <- getProp data "movement" ;; assertArray "round list" f) ;;
     movementBody tournamentId pairNo data name players roundList).
Proof. reflexivity. Qed.

Lemma Array_mapi_players l i s :
  Array_mapi (fun p i => lift (parsePlayer p i)) l i s = (parsePlayers l i, s).
Proof.
  revert i s. induction l as [|p l IH]; intros i s; [reflexivity|].
  cbn [Array_mapi parsePlayers]. unfold bindSt at 1. unfold lift at 1.
  destruct (parsePlayer p i) as [q|ex]; [|reflexivity].
  unfold bindSt. rewrite IH. destruct (parsePlayers l (S i)); reflexivity.
Qed.

(** Each element of an array that [Array_mapi] maps without a throw was
    mapped without a throw. *)
Lemma Array_mapi_Return {A B} (f : A -> nat -> St B) (l : list A) i s ys s' :
  Array_mapi f l i s = (Return ys, s') ->
  Forall2 (fun x y => exists j s1 s2, f x j s1 = (Return y, s2)) l ys.
Proof.
  revert i s ys. induction l as [|x l IH]; intros i s ys Hret.
  - injection Hret as <- <-. constructor.
  - cbn [Array_mapi] in Hret.
    apply bindSt_Return in Hret as (y & s1 & Hy & Hret).
    apply bindSt_Return in Hret as (ys' & s2 & Hys & Hret).
    injection Hret as <- <-. constructor; [eauto | eapply IH, Hys].
Qed.

(** The checks of [_parseMovement]: past them the body runs on the store
    as it was, and a movement is returned only past them. *)
Lemma parseMovement_header tournamentId pairNo data name roundList store :
  headerAccepted data name roundList ->
  exists players,
    _parseMovement tournamentId pairNo data store
    = movementBody tournamentId pairNo data name players roundList store.
Proof.
  intros (fields & -> & Hname & Hrounds & Hplayers).
  rewrite parseMovement_unfold.
  unfold bindSt at 1. unfold lift at 1. rewrite assertType_object_obj.
  unfold bindSt at 1. unfold lift at 1.
  rewrite getProp_obj, Hname, default_Some, bind_Return_l, assertString_str.
  unfold bindSt at 1. unfold lift at 1. rewrite getProp_obj, bind_Return_l.
  destruct (default JUndefined (field "players" fields)) as [| | | | |l|];
    try contradiction.
  - exists None. cbn [assertType]. unfold bindSt at 1. unfold ret at 1.
    unfold bindSt at 1. unfold lift at 1.
    rewrite getProp_obj, Hrounds, default_Some, bind_Return_l, assertArray_arr.
    reflexivity.
  - exists None. cbn [assertType]. unfold bindSt at 1. unfold ret at 1.
    unfold bindSt at 1. unfold lift at 1.
    rewrite getProp_obj, Hrounds, default_Some, bind_Return_l, assertArray_arr.
    reflexivity.
  - destruct Hplayers as [ps Hps]. exists (Some ps).
    change (assertType "player list" (JArr l) "array" true) with (Return (JArr l)).
    unfold bindSt at 1. unfold bindSt at 1.
    rewrite Array_mapi_players, Hps. unfold ret at 1.
    unfold bindSt at 1. unfold lift at 1.
    rewrite getProp_obj, Hrounds, default_Some, bind_Return_l, assertArray_arr.
    reflexivity.
Qed.

Lemma assertArray_Return context value l :
  assertArray context value = Return l -> value = JArr l.
Proof.
  unfold assertArray. intros (v & Hv & Hl)%bind_Return.
  apply assertType_Return in Hv as ->. destruct value; congruence.
Qed.

Lemma assertBoolean_Return context value b :
  assertBoolean context value = Return b -> value = JBool b.
Proof.
  unfold assertBoolean. intros (v & Hv & Hb)%bind_Return.
  apply assertType_Return in Hv as ->. destruct value; congruence.
Qed.

Lemma field_of_default fields k v :
  default JUndefined (field k fields) = v -> v <> JUndefined ->
  field k fields = Some v.
Proof. destruct (field k fields); simpl; congruence. Qed.

Lemma parseMovement_Return tournamentId pairNo data store m store' :
  _parseMovement tournamentId pairNo data store = (Return m, store') ->
  exists name roundList players,
    headerAccepted data name roundList
    /\ movementBody tournamentId pairNo data name players roundList store
       = (Return m, store').
Proof.
  rewrite parseMovement_unfold. intros Hret.
  apply bindSt_Return in Hret as (? & s1 & Hobj & Hret).
  apply lift_Return in Hobj as [Hobj ->].
  apply assertType_object in Hobj as [fields ->].
  apply bindSt_Return in Hret as (name & s1 & Hname & Hret).
  apply lift_Return in Hname as [Hname ->].
  rewrite getProp_obj, bind_Return_l in Hname. apply assertString_Return in Hname.
  apply bindSt_Return in Hret as (playersField & s1 & Hfield & Hret).
  apply lift_Return in Hfield as [Hfield ->].
  rewrite getProp_obj, bind_Return_l in Hfield.
  apply bindSt_Return in Hret as (players & s1 & Hplayers & Hret).
  apply bindSt_Return in Hret as (roundList & s2 & Hrounds & Hret).
  apply lift_Return in Hrounds as [Hrounds ->].
  rewrite getProp_obj, bind_Return_l in Hrounds. apply assertArray_Return in Hrounds.
  exists name, roundList, players.
  assert (s1 = store
          /\ match default JUndefined (field "players" fields) with
             | JUndefined | JNull => True
             | JArr l => exists ps, parsePlayers l 0 = Return ps
             | _ => False
             end) as [-> Haccepted].
  { pose proof (assertType_Return _ _ _ _ _ Hfield) as ->.
    destruct (default JUndefined (field "players" fields)) as [| | | | |l|];
      try discriminate Hfield.
    - injection Hplayers as _ <-. auto.
    - injection Hplayers as _ <-. auto.
    - apply bindSt_Return in Hplayers as (ps & s3 & Hps & Hplayers).
      rewrite Array_mapi_players in Hps. injection Hps as Hps <-.
      injection Hplayers as _ <-. eauto. }
  split; [|exact Hret].
  exists fields. split; [reflexivity|].
  split; [apply field_of_default; [exact Hname | discriminate]|].
  split; [apply field_of_default; [exact Hrounds | discriminate]|].
  exact Haccepted.
Qed.

#[local] Instance keepsMovement_reflexive tournamentId pairNo :
  Reflexive (keepsMovement tournamentId pairNo).
Proof. intros s Hm. exact Hm. Qed.

#[local] Instance keepsMovement_transitive tournamentId pairNo :
  Transitive (keepsMovement tournamentId pairNo).
Proof. intros s1 s2 s3 H12 H23 Hm. exact (H23 (H12 Hm)). Qed.

Lemma preserves_weaken (R R' : relation MovementStore.t) {A} (m : St A) :
  (forall s s', R s s' -> R' s s') -> preserves R m -> preserves R' m.
Proof. intros HR Hm s r s' Hrun. eapply HR, Hm, Hrun. Qed.

Lemma sameMovements_keepsMovement tournamentId pairNo s s' :
  sameMovements s s' -> keepsMovement tournamentId pairNo s s'.
Proof. unfold sameMovements, keepsMovement. intros ->. auto. Qed.

Lemma writeMovement_keeps tournamentId pairNo f :
  preserves (keepsMovement tournamentId pairNo) (writeMovement tournamentId pairNo f).
Proof.
  intros s r s' [= <- <-] [m Hm]. exists (f m).
  unfold MovementStore.updateMovement. cbn [MovementStore.movements].
  rewrite lookup_alter_eq, Hm. reflexivity.
Qed.

Lemma movementRest_keeps tournamentId pairNo data players roundList :
  preserves (keepsMovement tournamentId pairNo)
    (movementRest tournamentId pairNo data players roundList).
Proof.
  unfold movementRest.
  apply preserves_bind; [apply _ | apply writeMovement_keeps | intros _].
  apply preserves_bind; [apply _ | | intros _].
  { destruct players;
      [apply writeMovement_keeps | apply preserves_ret; apply _]. }
  apply preserves_bind; [apply _ | | intros pair].
  { intros s r s' [= <- <-]. reflexivity. }
  apply preserves_bind; [apply _ | | intros rounds].
  { apply (preserves_weaken sameMovements); [apply sameMovements_keepsMovement|].
    apply preserves_Array_mapi; try apply _. intros x j.
    apply parseMovementRound_sameMovements. }
  apply preserves_bind; [apply _ | apply writeMovement_keeps | intros _].
  apply preserves_bind; [apply _ | apply preserves_lift; apply _ | intros allow].
  apply preserves_bind; [apply _ | apply writeMovement_keeps | intros _].
  intros s r s' [= <- <-]. reflexivity.
Qed.

Lemma getOrCreateMovement_lookup tournamentId pairNo store :
  MovementStore.movements (snd (MovementStore.getOrCreateMovement tournamentId pairNo store))
    !! (tournamentId, pairNo)
  = Some (fst (MovementStore.getOrCreateMovement tournamentId pairNo store)).
Proof.
  unfold MovementStore.getOrCreateMovement.
  destruct (MovementStore.movements store !! (tournamentId, pairNo)) eqn:Hm;
    cbn [fst snd MovementStore.movements]; [exact Hm | apply lookup_insert_eq].
Qed.

Lemma getOrCreateMovement_present tournamentId pairNo store m :
  MovementStore.movements store !! (tournamentId, pairNo) = Some m ->
  MovementStore.getOrCreateMovement tournamentId pairNo store = (m, store).
Proof. unfold MovementStore.getOrCreateMovement. intros ->. reflexivity. Qed.

(** Whatever becomes of the rounds and of the overwrite flag, the body
    leaves a movement for the pair in the store. *)
Lemma movementBody_keeps tournamentId pairNo data name players roundList store r store' :
  movementBody tournamentId pairNo data name players roundList store = (r, store') ->
  is_Some (MovementStore.movements store' !! (tournamentId, pairNo)).
Proof.
  unfold movementBody. unfold bindSt at 1. unfold bindSt at 1.
  unfold writeMovement at 1. intros Hrest.
  apply movementRest_keeps in Hrest.
  apply Hrest. unfold MovementStore.updateMovement. cbn [MovementStore.movements].
  rewrite lookup_alter_eq, getOrCreateMovement_lookup. eauto.
Qed.

Lemma writeMovement_Return tournamentId pairNo f s u s' :
  writeMovement tournamentId pairNo f s = (Return u, s') ->
  MovementStore.movements s'
  = alter f (tournamentId, pairNo) (MovementStore.movements s).
Proof. intros [= _ <-]. reflexivity. Qed.

(** What the body has written when it returns. *)
Lemma movementBody_Return tournamentId pairNo data name players roundList store m store' :
  movementBody tournamentId pairNo data name players roundList store = (Return m, store') ->
  MovementStore.movements store' !! (tournamentId, pairNo) = Some m
  /\ TournamentPair.pairNo (Movement.pair m) = pairNo
  /\ (forall ps, players = Some ps -> TournamentPair.players (Movement.pair m) = ps)
  /\ getProp data "allow_score_overwrites"
     = Return (JBool (Movement.allowScoreOverwrites m))
  /\ exists pair s1 s2,
       Array_mapi (_parseMovementRound tournamentId pair) roundList 0 s1
       = (Return (Movement.rounds m), s2).
Proof.
  unfold movementBody, movementRest. intros Hret.
  apply bindSt_Return in Hret as (? & s1 & Hs1 & Hret). injection Hs1 as _ <-.
  apply bindSt_Return in Hret as (? & s2 & Hs2 & Hret).
  apply writeMovement_Return in Hs2.
  apply bindSt_Return in Hret as (? & s3 & Hs3 & Hret).
  apply writeMovement_Return in Hs3.
  apply bindSt_Return in Hret as (? & s4 & Hs4 & Hret).
  apply bindSt_Return in Hret as (pair & s4' & Hpair & Hret). injection Hpair as _ <-.
  apply bindSt_Return in Hret as (rounds & s5 & Hrounds & Hret).
  pose proof Hrounds as Hs5.
  apply (preserves_Array_mapi sameMovements) in Hs5;
    [|intros; apply parseMovementRound_sameMovements].
  apply bindSt_Return in Hret as (? & s6 & Hs6 & Hret).
  apply writeMovement_Return in Hs6.
  apply bindSt_Return in Hret as (allow & s6' & Hallow & Hret).
  apply lift_Return in Hallow as [Hallow ->].
  apply bind_Return in Hallow as (flagField & Hfield & Hallow).
  apply assertBoolean_Return in Hallow as ->.
  apply bindSt_Return in Hret as (? & s7 & Hs7 & Hret).
  apply writeMovement_Return in Hs7.
  injection Hret as <- <-.
  pose proof (getOrCreateMovement_lookup tournamentId pairNo store) as Hm0.
  set (m0 := fst (MovementStore.getOrCreateMovement tournamentId pairNo store)) in *.
  assert (exists m4,
             MovementStore.movements s4 !! (tournamentId, pairNo) = Some m4
             /\ TournamentPair.pairNo (Movement.pair m4) = pairNo
             /\ forall ps, players = Some ps ->
                           TournamentPair.players (Movement.pair m4) = ps)
    as (m4 & Hm4 & Hpair & Hplayers).
  { destruct players as [ps|].
    - apply writeMovement_Return in Hs4.
      eexists. split.
      { rewrite Hs4, lookup_alter_eq, Hs3, lookup_alter_eq, Hs2, lookup_alter_eq, Hm0.
        reflexivity. }
      split; [reflexivity|]. intros ps' [= <-]. reflexivity.
    - injection Hs4 as _ <-.
      eexists. split.
      { rewrite Hs3, lookup_alter_eq, Hs2, lookup_alter_eq, Hm0. reflexivity. }
      split; [reflexivity|]. intros ps' [=]. }
  assert (MovementStore.movements s7 !! (tournamentId, pairNo)
          = Some (Movement.setAllowScoreOverwrites allow (Movement.setRounds rounds m4)))
    as Hm7.
  { rewrite Hs7, lookup_alter_eq, Hs6, lookup_alter_eq, Hs5, Hm4. reflexivity. }
  rewrite (getOrCreateMovement_present _ _ _ _ Hm7). cbn [fst].
  split; [exact Hm7|]. split; [exact Hpair|].
  split; [exact Hplayers|]. split; [exact Hfield|].
  exists pair, s4, s5. exact Hrounds.
Qed.

(** X12. A movement that [_parseMovement] returns is the one it has put
    in the store for the pair.  It carries the number of the pair and the
    overwrite flag of the response, and it has one round for each entry
    of the response's round list, in order, with the entry's round
    number, sitting out exactly where the entry has no opponent. *)
Theorem parseMovement_returns_stored_movement :
  forall tournamentId pairNo data store m store',
    _parseMovement tournamentId pairNo data store = (Return m, store') ->
    MovementStore.movements store' !! (tournamentId, pairNo) = Some m
    /\ TournamentPair.pairNo (Movement.pair m) = pairNo
    /\ exists fields roundList,
         data = JObj fields
         /\ field "allow_score_overwrites" fields
            = Some (JBool (Movement.allowScoreOverwrites m))
         /\ field "movement" fields = Some (JArr roundList)
         /\ Forall2
              (fun entry round =>
                 exists roundFields,
                   entry = JObj roundFields
                   /\ field "round" roundFields = Some (JNum (MovementRound.roundNo round))
                   /\ MovementRound.isSitOut round
                      = isNullOrUndefined
                          (default JUndefined (field "opponent" roundFields)))
              roundList (Movement.rounds m).
Proof.
  intros tournamentId pairNo data store m store' Hret.
  apply parseMovement_Return in Hret as (name & roundList & players & Hheader & Hret).
  apply movementBody_Return in Hret
    as (Hm & Hpair & _ & Hallow & pair & s1 & s2 & Hrounds).
  destruct Hheader as (fields & -> & _ & Hfrounds & _).
  split; [exact Hm|]. split; [exact Hpair|].
  exists fields, roundList.
  split; [reflexivity|].
  split.
  { rewrite getProp_obj in Hallow. injection Hallow as Hallow.
    apply field_of_default; [exact Hallow | discriminate]. }
  split; [exact Hfrounds|].
  apply Array_mapi_Return in Hrounds.
  eapply Forall2_impl; [exact Hrounds|].
  intros entry round (j & s3 & s4 & Hround).
  apply parseMovementRound_Return in Hround as (roundFields & roundNo & -> & Hno & <- & Hsit).
  exists roundFields. auto.
Qed.

(** X13. Once the response to a movement request has passed the first
    checks of [_parseMovement] (an object with a string as its name,
    players that are absent or parse, an array of rounds), a movement for
    the pair is in the store whether the rest of the response parsed or
    not: the next [getMovement] for the pair that asks for no refresh
    answers with the stored movement and leaves the service as it is,
    sending no request, also when the promise of the request was rejected
    because a round or the overwrite flag was malformed. *)
Theorem getMovement_resolves_after_accepted_header :
  forall self promise request response name roundList pairCode,
    Service.inFlight self !! promise = Some request ->
    httpSucceeds response = true ->
    headerAccepted (Response.data response) name roundList ->
    let self' := fst (getMovement_settle promise response self) in
    exists m,
      MovementStore.movements (Service._movementStore self')
        !! (InFlight.tournamentId request, InFlight.pairNo request) = Some m
      /\ getMovement (InFlight.tournamentId request) (InFlight.pairNo request) pairCode
           false self'
         = (Resolved m, self').
Proof.
  intros self promise request response name roundList pairCode Hrequest Hok Hheader self'.
  subst self'. unfold getMovement_settle. rewrite Hrequest, Hok.
  unfold getMovement_onSuccess.
  destruct (parseMovement_header (InFlight.tournamentId request) (InFlight.pairNo request)
              _ _ _ (Service._movementStore self) Hheader) as [players ->].
  destruct (movementBody _ _ _ _ _ _ _) as [r store'] eqn:Hbody.
  apply movementBody_keeps in Hbody as [m Hm].
  exists m.
  assert (forall outcome : Settled Movement.t,
             let self' :=
               fst ({| Service._movementStore := store';
                       Service._tournamentStore := Service._tournamentStore self;
                       Service._movementPromiseCache :=
                         delete (InFlight.cacheKey request)
                           (Service._movementPromiseCache self);
                       Service.inFlight := delete promise (Service.inFlight self);
                       Service.nextPromise := Service.nextPromise self;
                       Service.issued := Service.issued self |}, Some outcome) in
             MovementStore.movements (Service._movementStore self')
               !! (InFlight.tournamentId request, InFlight.pairNo request) = Some m
             /\ getMovement (InFlight.tournamentId request) (InFlight.pairNo request)
                  pairCode false self'
                = (Resolved m, self'))
    as Hcall.
  { intros outcome self'. subst self'. cbn [fst]. split; [exact Hm|].
    unfold getMovement. cbn [Service._movementStore negb andb].
    unfold MovementStore.hasMovement. rewrite Hm.
    rewrite bool_decide_eq_true_2 by eauto.
    rewrite (getOrCreateMovement_present _ _ _ _ Hm). reflexivity. }
  destruct r; apply Hcall.
Qed.

(** X14. With a [tichu.isValidPairPosition] that rejects undefined, a
    movement response that seats the pair in at least one round is never
    accepted: [_parseMovement] throws, and the promise of [getMovement]
    is rejected with the RpcError "Invalid response from server". *)
Theorem getMovement_rejects_seated_rounds :
  forall self promise request response fields roundList,
    isValidPairPosition JUndefined = false ->
    Service.inFlight self !! promise = Some request ->
    httpSucceeds response = true ->
    Response.data response = JObj fields ->
    field "movement" fields = Some (JArr roundList) ->
    Exists seated roundList ->
    exists e,
      snd (getMovement_settle promise response self) = Some (Rejected (RpcRejection e))
      /\ RpcError.error e = "Invalid response from server"
      /\ RpcError.redirectToLogin e = false.
Proof.
  intros self promise request response fields roundList Hside Hrequest Hok Hdata Hlist
    Hseated.
  unfold getMovement_settle. rewrite Hrequest, Hok. unfold getMovement_onSuccess.
  destruct (_parseMovement _ _ _ _) as [[m|ex] store'] eqn:Hparse.
  - exfalso.
    apply parseMovement_Return in Hparse as (name & roundList' & players & Hheader & Hbody).
    destruct Hheader as (fields' & Hdata' & _ & Hlist' & _).
    rewrite Hdata in Hdata'. injection Hdata' as <-.
    rewrite Hlist in Hlist'. injection Hlist' as <-.
    apply movementBody_Return in Hbody as (_ & _ & _ & _ & pair & s1 & s2 & Hrounds).
    apply Array_mapi_Return in Hrounds.
    remember (Movement.rounds m) as rounds eqn:Hm. clear Hm Hlist.
    induction Hrounds as [|entry round l k Hentry _ IH]; [inversion Hseated|].
    apply Exists_cons in Hseated as [(roundFields & -> & Hopp) | Hseated];
      [|exact (IH Hseated)].
    destruct Hentry as (j & s3 & s4 & Hround).
    exact (parseMovementRound_seated_never_returns _ _ _ _ _ _ _ Hside Hopp Hround).
  - eexists. cbn [snd]. split; [reflexivity|]. split; reflexivity.
Qed.

End MovementProperties.

(** ** Promises over time *)

Section PromisesOverTime.
Context `{Collaborators}.

(** X15. In every state the service can reach, a promise that
    [getMovement] hands out unresolved is the promise of a request that
    is still in flight under the key of the call: the cache never holds
    a promise that has already been settled. *)
Theorem getMovement_pending_is_in_flight :
  forall self tournamentId pairNo pairCode refresh promise self',
    reachable self ->
    getMovement tournamentId pairNo pairCode refresh self = (Pending promise, self') ->
    exists request,
      Service.inFlight self' !! promise = Some request
      /\ InFlight.cacheKey request = movementPromiseCacheKey tournamentId pairNo pairCode.
Proof.
  intros self tournamentId pairNo pairCode refresh promise self' Hreach.
  apply reachable_consistent in Hreach as (_ & Hcached & _).
  unfold getMovement.
  destruct (negb refresh && _).
  { destruct (MovementStore.getOrCreateMovement _ _ _). discriminate. }
  destruct (Service._movementPromiseCache self !! _) as [cached|] eqn:Hcache.
  - intros [= <- <-]. exact (Hcached _ _ Hcache).
  - intros [= <- <-]. cbn [Service.inFlight].
    eexists. split; [apply lookup_insert_eq | reflexivity].
Qed.

End PromisesOverTime.

(** ** Keys and paths *)

Section KeysAndPaths.

Lemma append_cons c s t : String c s +:+ t = String c (s +:+ t).
Proof. reflexivity. Qed.

Lemma append_nil t : EmptyString +:+ t = t.
Proof. reflexivity. Qed.

Lemma hexDigit_inj d1 d2 :
  (d1 < 16)%N -> (d2 < 16)%N -> hexDigit d1 = hexDigit d2 -> d1 = d2.
Proof.
  intros H1 H2 Heq. apply (f_equal N_of_ascii) in Heq. unfold hexDigit in Heq.
  destruct (N.ltb_spec d1 10), (N.ltb_spec d2 10);
    rewrite !N_ascii_embedding in Heq by lia; lia.
Qed.

Lemma byte_digits c : (N_of_ascii c / 16 < 16)%N /\ (N_of_ascii c mod 16 < 16)%N.
Proof.
  pose proof (N_ascii_bounded c). split.
  - apply N.Div0.div_lt_upper_bound. lia.
  - apply N.mod_upper_bound. lia.
Qed.

(** The code of a byte can be read back off the front of a string. *)
Lemma encoded_byte_inj c1 c2 s1 s2 t1 t2 :
  encodeURIComponent (String c1 s1) +:+ t1 = encodeURIComponent (String c2 s2) +:+ t2 ->
  c1 = c2 /\ encodeURIComponent s1 +:+ t1 = encodeURIComponent s2 +:+ t2.
Proof.
  cbn [encodeURIComponent].
  destruct (unreserved c1) eqn:Hc1, (unreserved c2) eqn:Hc2;
    rewrite ?append_cons; intros Heq.
  - injection Heq as -> ->. auto.
  - injection Heq as -> _. discriminate Hc1.
  - injection Heq as <- _. discriminate Hc2.
  - injection Heq as Hhigh Hlow ->. split; [|reflexivity].
    destruct (byte_digits c1) as [? ?], (byte_digits c2) as [? ?].
    apply hexDigit_inj in Hhigh; [|assumption..].
    apply hexDigit_inj in Hlow; [|assumption..].
    rewrite <- (ascii_N_embedding c1), <- (ascii_N_embedding c2). f_equal.
    rewrite (N.div_mod (N_of_ascii c1) 16), (N.div_mod (N_of_ascii c2) 16) by lia.
    congruence.
Qed.

Lemma encoded_byte_head c s t :
  exists d t', encodeURIComponent (String c s) +:+ t = String d t' /\ d <> "/"%char.
Proof.
  cbn [encodeURIComponent].
  destruct (unreserved c) eqn:Hc; rewrite ?append_cons.
  - eexists _, _. split; [reflexivity|]. intros ->. discriminate Hc.
  - eexists _, _. split; [reflexivity | discriminate].
Qed.

(** An encoded component ends where the next slash is. *)
Lemma encodeURIComponent_slash s1 s2 r1 r2 :
  encodeURIComponent s1 +:+ String "/" r1 = encodeURIComponent s2 +:+ String "/" r2 ->
  s1 = s2 /\ r1 = r2.
Proof.
  revert s2. induction s1 as [|c1 s1 IH]; intros [|c2 s2].
  - cbn [encodeURIComponent]. rewrite !append_nil. intros [= ->]. auto.
  - destruct (encoded_byte_head c2 s2 (String "/" r2)) as (d & t' & -> & Hd).
    cbn [encodeURIComponent]. rewrite append_nil.
    intros [= <- _]. contradiction Hd. reflexivity.
  - destruct (encoded_byte_head c1 s1 (String "/" r1)) as (d & t' & -> & Hd).
    cbn [encodeURIComponent]. rewrite append_nil.
    intros [= -> _]. contradiction Hd. reflexivity.
  - intros [-> Hrest]%encoded_byte_inj. apply IH in Hrest as [-> ->]. auto.
Qed.

Lemma encodeURIComponent_inj s1 s2 :
  encodeURIComponent s1 = encodeURIComponent s2 -> s1 = s2.
Proof.
  intros Heq.
  apply (encodeURIComponent_slash s1 s2 EmptyString EmptyString). rewrite Heq. reflexivity.
Qed.

(** X16. The key of the promise cache tells movements apart: two calls
    of [getMovement] build the same key exactly when they name the same
    tournament and the same pair and carry the same pair code, a missing
    pair code counting as the empty one. *)
Theorem movementPromiseCacheKey_tells_movements_apart :
  forall tournamentId pairNo pairCode tournamentId' pairNo' pairCode',
    movementPromiseCacheKey tournamentId pairNo pairCode
    = movementPromiseCacheKey tournamentId' pairNo' pairCode'
    <-> tournamentId = tournamentId' /\ pairNo = pairNo'
        /\ default EmptyString pairCode = default EmptyString pairCode'.
Proof.
  intros tournamentId pairNo pairCode tournamentId' pairNo' pairCode'.
  unfold movementPromiseCacheKey. split.
  - rewrite !append_cons, !append_nil.
    intros [-> Hrest]%encodeURIComponent_slash.
    apply encodeURIComponent_slash in Hrest as [HpairNo Hcode].
    apply encodeURIComponent_inj in Hcode.
    unfold Number_toString in HpairNo. apply (inj pretty) in HpairNo. auto.
  - intros (-> & -> & ->). reflexivity.
Qed.

(** X17. The path of a hand tells hands apart: [recordScore] and
    [clearScore] address two hands by the same URL exactly when the
    tournament, the hand number and both pair numbers agree, whatever
    characters the tournament id holds. *)
Theorem handPath_tells_hands_apart :
  forall tournamentId handNo nsPair ewPair tournamentId' handNo' nsPair' ewPair',
    handPath tournamentId handNo nsPair ewPair
    = handPath tournamentId' handNo' nsPair' ewPair'
    <-> tournamentId = tournamentId' /\ handNo = handNo'
        /\ nsPair = nsPair' /\ ewPair = ewPair'.
Proof.
  intros tournamentId handNo nsPair ewPair tournamentId' handNo' nsPair' ewPair'.
  unfold handPath, Number_toString. split.
  - intros Heq. apply String.app_inj in Heq.
    rewrite !append_cons, !append_nil in Heq.
    apply encodeURIComponent_slash in Heq as [-> Heq].
    injection Heq as Heq.
    apply encodeURIComponent_slash in Heq as [HhandNo Heq].
    apply encodeURIComponent_slash in Heq as [HnsPair HewPair].
    apply encodeURIComponent_inj in HewPair.
    apply (inj pretty) in HhandNo, HnsPair, HewPair. auto.
  - intros (-> & -> & -> & ->). reflexivity.
Qed.

End KeysAndPaths.

(** * Worked examples of the further properties *)

Lemma sample_none_scored :
  Forall (fun round => noneNames 3 4 6 (RoundStatus.scoredHands round))
    (TournamentStatus.roundStatus Sample.status).
Proof. repeat constructor. Defined.

Lemma sample_request_in_flight :
  Service.inFlight Responses.waiting !! 0%nat = Some Responses.request.
Proof. vm_compute. reflexivity. Defined.

Lemma sample_header_accepted :
  @headerAccepted documented (Response.data (Responses.ok (JObj Responses.seatedMovement)))
    "Tournament Name" [JObj Sample.seatedRound; JObj Sample.sitOutRound].
Proof.
  exists Responses.seatedMovement.
  split; [reflexivity|]. split; [reflexivity|]. split; [reflexivity|].
  exists Responses.parsedPlayers. reflexivity.
Defined.

Lemma sample_round_seated :
  Exists seated [JObj Sample.seatedRound; JObj Sample.sitOutRound].
Proof.
  apply Exists_cons_hd. exists Sample.seatedRound. split; reflexivity.
Defined.

(** X2 on the sample status and a 405 whose body does not parse. *)
Lemma score_requests_keep_status_hands_witness :
  Service._tournamentStore Sample.service !! "t1" = Some Sample.status
  /\ (exists status',
         Service._tournamentStore
           (fst (@recordScore documented "t1" 4 6 3 Sample.score None
                   Sample.notAllowedMessage Sample.service))
           !! "t1" = Some status'
         /\ Forall2 sameHands (TournamentStatus.roundStatus Sample.status)
              (TournamentStatus.roundStatus status')
         /\ ("t1" <> "t1" -> status' = Sample.status))
  /\ (exists status',
         Service._tournamentStore
           (fst (@clearScore documented "t1" 4 6 3 None Sample.notAllowedMessage
                   Sample.service))
           !! "t1" = Some status'
         /\ Forall2 sameHands (TournamentStatus.roundStatus Sample.status)
              (TournamentStatus.roundStatus status')
         /\ ("t1" <> "t1" -> status' = Sample.status)).
Proof.
  split; [exact sample_status_cached|].
  exact (@score_requests_keep_status_hands documented "t1" 4 6 3 Sample.score None
           Sample.notAllowedMessage Sample.service "t1" Sample.status
           sample_status_cached).
Defined.

(** X3: scoring hand 3 of pairs 4 and 6 leaves hand 3 of pairs 1 and 2. *)
Lemma score_requests_touch_one_hand_witness :
  ("t1", 1, 2, 3) <> ("t1", 4, 6, 3)
  /\ MovementStore.hands
       (Service._movementStore
          (fst (@recordScore documented "t1" 4 6 3 Sample.score None Sample.noContent
                  Sample.service)))
       !! ("t1", 1, 2, 3)
     = MovementStore.hands (Service._movementStore Sample.service) !! ("t1", 1, 2, 3)
  /\ MovementStore.movements
       (Service._movementStore
          (fst (@recordScore documented "t1" 4 6 3 Sample.score None Sample.noContent
                  Sample.service)))
     = MovementStore.movements (Service._movementStore Sample.service)
  /\ MovementStore.hands
       (Service._movementStore
          (fst (@clearScore documented "t1" 4 6 3 None Sample.noContent Sample.service)))
       !! ("t1", 1, 2, 3)
     = MovementStore.hands (Service._movementStore Sample.service) !! ("t1", 1, 2, 3)
  /\ MovementStore.movements
       (Service._movementStore
          (fst (@clearScore documented "t1" 4 6 3 None Sample.noContent Sample.service)))
     = MovementStore.movements (Service._movementStore Sample.service).
Proof.
  assert (("t1", 1, 2, 3) <> ("t1", 4, 6, 3)) as Hother by discriminate.
  split; [exact Hother|].
  exact (@score_requests_touch_one_hand documented "t1" 4 6 3 Sample.score None
           Sample.noContent Sample.service ("t1", 1, 2, 3) Hother).
Defined.

(** X4 on the sample status: hand 3 of pairs 4 and 6 is scored, then
    cleared. *)
Lemma recordScore_then_clearScore_witness :
  httpSucceeds Sample.noContent = true
  /\ Service._tournamentStore Sample.service !! "t1" = Some Sample.status
  /\ Forall (fun round => noneNames 3 4 6 (RoundStatus.scoredHands round))
       (TournamentStatus.roundStatus Sample.status)
  /\ readScore "t1" 4 6 3
       (Service._movementStore
          (fst (@recordScore documented "t1" 4 6 3 Sample.score None Sample.noContent
                  Sample.service)))
     = Some Sample.score
  /\ readScore "t1" 4 6 3
       (Service._movementStore
          (fst (@clearScore documented "t1" 4 6 3 None Sample.noContent
                  (fst (@recordScore documented "t1" 4 6 3 Sample.score None
                          Sample.noContent Sample.service)))))
     = None
  /\ exists status',
       Service._tournamentStore
         (fst (@clearScore documented "t1" 4 6 3 None Sample.noContent
                 (fst (@recordScore documented "t1" 4 6 3 Sample.score None
                         Sample.noContent Sample.service))))
         !! "t1" = Some status'
       /\ Forall2 sameBuckets (TournamentStatus.roundStatus Sample.status)
            (TournamentStatus.roundStatus status').
Proof.
  split; [reflexivity|]. split; [exact sample_status_cached|].
  split; [exact sample_none_scored|].
  exact (@recordScore_then_clearScore documented "t1" 4 6 3 Sample.score None None
           Sample.noContent Sample.noContent Sample.service Sample.status
           eq_refl eq_refl sample_status_cached sample_none_scored).
Defined.

(** X5 on the score of docs/api.md. *)
Lemma parseHandScore_returns_complete_scores_witness :
  @_parseHandScore documented "hand" Sample.scoreData = Return (Some Sample.score)
  /\ exists fields,
       Sample.scoreData = JObj fields
       /\ field "ns_score" fields = Some (HandScore.northSouthScore Sample.score)
       /\ field "ew_score" fields = Some (HandScore.eastWestScore Sample.score)
       /\ ((exists q, HandScore.northSouthScore Sample.score = JNum q)
           \/ exists s, HandScore.northSouthScore Sample.score = JStr s)
       /\ ((exists q, HandScore.eastWestScore Sample.score = JNum q)
           \/ exists s, HandScore.eastWestScore Sample.score = JStr s)
       /\ HandScore.notes Sample.score <> Some EmptyString
       /\ sublist (map Call.side (HandScore.calls Sample.score))
            (map snd (@Position documented)).
Proof.
  split; [reflexivity|].
  exact (@parseHandScore_returns_complete_scores documented "hand" Sample.scoreData
           Sample.score eq_refl).
Defined.

(** X6 on a scoring entry of a change log. *)
Lemma parseChange_scores_both_or_none_witness :
  @_parseChange documented Sample.scoring
  = Return {| Change.change := Some Sample.score; Change.changedBy := JNum 1;
              Change.timestamp := "1482804384.03" |}
  /\ exists fields changeFields timestamp_sec changedBy,
       Sample.scoring = JObj fields
       /\ field "timestamp_sec" fields = Some (JStr timestamp_sec)
       /\ field "changed_by" fields = Some (JNum changedBy)
       /\ field "change" fields = Some (JObj changeFields)
       /\ JNum 1 = JNum changedBy
       /\ ((field "ns_score" changeFields = Some JNull
            /\ field "ew_score" changeFields = Some JNull
            /\ Some Sample.score = None)
           \/ exists score,
                Some Sample.score = Some score
                /\ field "ns_score" changeFields = Some (HandScore.northSouthScore score)
                /\ field "ew_score" changeFields = Some (HandScore.eastWestScore score)
                /\ HandScore.northSouthScore score <> JNull
                /\ HandScore.eastWestScore score <> JNull).
Proof.
  split; [reflexivity|].
  exact (@parseChange_scores_both_or_none documented Sample.scoring
           {| Change.change := Some Sample.score; Change.changedBy := JNum 1;
              Change.timestamp := "1482804384.03" |} eq_refl).
Defined.

(** X8 on the hand results of docs/api.md. *)
Lemma parseHandResults_one_hand_per_entry_witness :
  @_parseHandResults documented "t1" "hand results" Responses.handResults 3
  = Return {| HandResults.hands := [Responses.ranked] |}
  /\ exists fields entries,
       Responses.handResults = JObj fields
       /\ field "results" fields = Some (JArr entries)
       /\ Forall2 (@rankedFrom documented "hand results" 3) entries [Responses.ranked]
       /\ (entries <> [] -> 0 < 3).
Proof.
  split; [reflexivity|].
  exact (@parseHandResults_one_hand_per_entry documented "t1" "hand results"
           Responses.handResults 3 {| HandResults.hands := [Responses.ranked] |} eq_refl).
Defined.

(** X12 on a movement in which the pair sits out its only round. *)
Lemma parseMovement_returns_stored_movement_witness :
  exists store',
    @_parseMovement documented "t1" 1 (JObj Responses.sitOutMovement) MovementStore.empty
    = (Return Responses.sitOutParsed, store')
    /\ MovementStore.movements store' !! ("t1", 1) = Some Responses.sitOutParsed
    /\ TournamentPair.pairNo (Movement.pair Responses.sitOutParsed) = 1
    /\ exists fields roundList,
         JObj Responses.sitOutMovement = JObj fields
         /\ field "allow_score_overwrites" fields
            = Some (JBool (Movement.allowScoreOverwrites Responses.sitOutParsed))
         /\ field "movement" fields = Some (JArr roundList)
         /\ Forall2
              (fun entry round =>
                 exists roundFields,
                   entry = JObj roundFields
                   /\ field "round" roundFields = Some (JNum (MovementRound.roundNo round))
                   /\ MovementRound.isSitOut round
                      = isNullOrUndefined
                          (default JUndefined (field "opponent" roundFields)))
              roundList (Movement.rounds Responses.sitOutParsed).
Proof.
  assert (@_parseMovement documented "t1" 1 (JObj Responses.sitOutMovement)
            MovementStore.empty
          = (Return Responses.sitOutParsed,
             snd (@_parseMovement documented "t1" 1 (JObj Responses.sitOutMovement)
                    MovementStore.empty))) as Hparsed
    by (vm_compute; reflexivity).
  eexists. split; [exact Hparsed|].
  exact (@parseMovement_returns_stored_movement documented "t1" 1
           (JObj Responses.sitOutMovement) MovementStore.empty Responses.sitOutParsed _
           Hparsed).
Defined.

(** X13 on a response whose first round does not parse with the
    documented collaborators: the promise is rejected, and the next call
    is answered from the store. *)
Lemma getMovement_resolves_after_accepted_header_witness :
  Service.inFlight Responses.waiting !! 0%nat = Some Responses.request
  /\ httpSucceeds (Responses.ok (JObj Responses.seatedMovement)) = true
  /\ @headerAccepted documented
       (Response.data (Responses.ok (JObj Responses.seatedMovement)))
       "Tournament Name" [JObj Sample.seatedRound; JObj Sample.sitOutRound]
  /\ exists m,
       MovementStore.movements
         (Service._movementStore
            (fst (@getMovement_settle documented 0
                    (Responses.ok (JObj Responses.seatedMovement)) Responses.waiting)))
         !! ("t1", 1) = Some m
       /\ getMovement "t1" 1 None false
            (fst (@getMovement_settle documented 0
                    (Responses.ok (JObj Responses.seatedMovement)) Responses.waiting))
          = (Resolved m,
             fst (@getMovement_settle documented 0
                    (Responses.ok (JObj Responses.seatedMovement)) Responses.waiting)).
Proof.
  split; [exact sample_request_in_flight|]. split; [reflexivity|].
  split; [exact sample_header_accepted|].
  exact (@getMovement_resolves_after_accepted_header documented Responses.waiting 0%nat
           Responses.request (Responses.ok (JObj Responses.seatedMovement))
           "Tournament Name" [JObj Sample.seatedRound; JObj Sample.sitOutRound] None
           sample_request_in_flight eq_refl sample_header_accepted).
Defined.

(** X14 on the same response. *)
Lemma getMovement_rejects_seated_rounds_witness :
  @isValidPairPosition documented JUndefined = false
  /\ Service.inFlight Responses.waiting !! 0%nat = Some Responses.request
  /\ httpSucceeds (Responses.ok (JObj Responses.seatedMovement)) = true
  /\ field "movement" Responses.seatedMovement
     = Some (JArr [JObj Sample.seatedRound; JObj Sample.sitOutRound])
  /\ Exists seated [JObj Sample.seatedRound; JObj Sample.sitOutRound]
  /\ exists e,
       snd (@getMovement_settle documented 0
              (Responses.ok (JObj Responses.seatedMovement)) Responses.waiting)
       = Some (Rejected (RpcRejection e))
       /\ RpcError.error e = "Invalid response from server"
       /\ RpcError.redirectToLogin e = false.
Proof.
  split; [reflexivity|]. split; [exact sample_request_in_flight|].
  split; [reflexivity|]. split; [reflexivity|]. split; [exact sample_round_seated|].
  exact (@getMovement_rejects_seated_rounds documented Responses.waiting 0%nat
           Responses.request (Responses.ok (JObj Responses.seatedMovement))
           Responses.seatedMovement [JObj Sample.seatedRound; JObj Sample.sitOutRound]
           eq_refl sample_request_in_flight eq_refl eq_refl eq_refl sample_round_seated).
Defined.

(** X15 on a second call for the movement of pair 1, made while the
    first is waiting. *)
Lemma getMovement_pending_is_in_flight_witness :
  @reachable documented Responses.waiting
  /\ getMovement "t1" 1 None false Responses.waiting = (Pending 0, Responses.waiting)
  /\ exists request,
       Service.inFlight Responses.waiting !! 0%nat = Some request
       /\ InFlight.cacheKey request = movementPromiseCacheKey "t1" 1 None.
Proof.
  assert (@reachable documented Responses.waiting) as Hreach
    by (exists [CallGetMovement "t1" 1 None false]; reflexivity).
  assert (getMovement "t1" 1 None false Responses.waiting = (Pending 0, Responses.waiting))
    as Hcall by (vm_compute; reflexivity).
  split; [exact Hreach|]. split; [exact Hcall|].
  exact (@getMovement_pending_is_in_flight documented Responses.waiting "t1" 1 None false
           0%nat Responses.waiting Hreach Hcall).
Defined.
